(** * nsrip: the two-stage concurrent DNS query pipeline

    A shallow embedding of [nameservers.go] and of [main.go] (the variant
    with the progress counters, the verbose flag and the output file).

    Goroutines and channels are modelled by scheduler-driven transition
    systems: a step function takes the event chosen by the scheduler (which
    goroutine moves, and what the network answers) and returns the next
    state, or [None] when that goroutine is blocked.  Every interleaving of
    the Go program is a schedule, so a property proved for all schedules
    holds for every run.

    Go strings are byte sequences and are modelled by [string]; [int] and
    [int32] by [Z] with the wrap-around written out; Go maps by [gmap]. *)

From Stdlib Require Import ZArith String Ascii List Floats Uint63.
From stdpp Require Import gmap strings list fin_maps pretty.

Open Scope string_scope.
Open Scope Z_scope.
Open Scope list_scope.

(** ** Package [fmt]: the fragment of formatted printing the program uses

    An operand is a string-like value (a [string], or a value with a
    [String()] or [Error()] method, stored with its rendering and the name of
    its dynamic type) or an [int]. *)

Inductive Arg :=
| ArgString (goType : string) (s : string)
| ArgInt (z : Z).

(** What a simple verb prints for an operand.  A verb that does not fit the
    operand produces a bad-verb diagnostic in Go, which is left out of the
    fragment. *)
Definition printArg (arg : Arg) (verb : ascii) : option string :=
  match arg with
  | ArgString _ s =>
      if bool_decide (verb = "s"%char ∨ verb = "v"%char) then Some s else None
  | ArgInt z =>
      if bool_decide (verb = "d"%char ∨ verb = "v"%char) then Some (pretty z) else None
  end.

(** The [%!(EXTRA type=value, ...)] suffix for operands no verb consumed. *)
Definition extraArg (arg : Arg) : string :=
  match arg with
  | ArgString ty s => ty +:+ "=" +:+ s
  | ArgInt z => "int=" +:+ pretty z
  end.

Fixpoint commaSep (l : list string) : string :=
  match l with
  | [] => ""
  | [x] => x
  | x :: l' => x +:+ ", " +:+ commaSep l'
  end.

Definition extraArgs (a : list Arg) : string :=
  match a with
  | [] => ""
  | _ => "%!(EXTRA " +:+ commaSep (extraArg <$> a) +:+ ")"
  end.

Definition is_lower (c : ascii) : bool :=
  let n := Z.of_N (N_of_ascii c) in (97 <=? n) && (n <=? 122).

(** Characters that start a flag, a width, a precision or an explicit
    operand index after [%]; and non-ASCII bytes, which start a multi-byte
    verb.  Directives using them are outside the fragment. *)
Definition is_complex (c : ascii) : bool :=
  let n := Z.of_N (N_of_ascii c) in
  bool_decide (c ∈ ["#"; "0"; "+"; "-"; " "; "."; "["; "*"]%char)
  || ((49 <=? n) && (n <=? 57)) || (128 <=? n).

(** [doPrintf format a]: the text Go's [fmt] produces, or [None] when the
    format leaves the fragment.  [%%] prints a percent sign; a lower-case
    verb consumes the next operand; a verb with no operand left prints
    [%!verb(MISSING)]; a trailing [%] prints [%!(NOVERB)]; operands left
    over are listed in [%!(EXTRA ...)]. *)
Fixpoint doPrintf (format : string) (a : list Arg) : option string :=
  match format with
  | "" => Some (extraArgs a)
  | String "%" "" => Some ("%!(NOVERB)" +:+ extraArgs a)
  | String "%" (String c rest) =>
      if bool_decide (c = "%"%char) then String "%" <$> doPrintf rest a
      else if is_complex c then None
      else
        match a with
        | [] => (λ out, "%!" +:+ String c "(MISSING)" +:+ out) <$> doPrintf rest []
        | arg :: a' =>
            if is_lower c then
              s ← printArg arg c; (λ out, s +:+ out) <$> doPrintf rest a'
            else None
        end
  | String c rest => String c <$> doPrintf rest a
  end.

Definition Sprintf (format : string) (a : list Arg) : option string :=
  doPrintf format a.

(** ** Package [strings]: [Split] on a one-byte separator *)

Fixpoint Split (s : string) (sep : ascii) : list string :=
  match s with
  | "" => [""]
  | String c rest =>
      if bool_decide (c = sep) then "" :: Split rest sep
      else
        match Split rest sep with
        | [] => [String c ""]
        | p :: ps => String c p :: ps
        end
  end.

(** ** Errors

    An error is either produced by a library ([net], [dns], [os]) and carried
    as its text, or built by [fmt.Errorf]; [Error] is the method of Go's
    [error] interface. *)

Inductive error :=
| New (text : string)
| Errorf (format : string) (a : list Arg).

Definition Error (err : error) : option string :=
  match err with
  | New text => Some text
  | Errorf format a => Sprintf format a
  end.

(** ** Package [dns] (miekg/dns): messages and resource records

    [net.IP] is represented by the text its [String] method returns.  A
    resource record is one of the three concrete types the program
    recognises, or any other record type, kept with the name of its dynamic
    type and its [String()] rendering. *)

Definition IP := string.

Inductive RR :=
| dns_A (A : IP)
| dns_AAAA (AAAA : IP)
| dns_CNAME (Target : string)
| dns_other (goType : string) (String_ : string).

Definition RcodeSuccess : Z := 0.
Definition TypeA : Z := 1.

Record Msg := {
  Rcode : Z;
  Question : list (string * Z);
  Answer : list RR
}.

(** [IsFqdn s]: [s] ends with a dot that is not escaped, that is, preceded
    by an even number of backslashes. *)
Fixpoint count_leading (c : ascii) (l : list ascii) : nat :=
  match l with
  | x :: l' => if bool_decide (x = c) then S (count_leading c l') else O
  | [] => O
  end.

Definition IsFqdn (s : string) : bool :=
  match reverse (list_ascii_of_string s) with
  | "."%char :: before => Nat.even (count_leading "\"%char before)
  | _ => false
  end.

Definition Fqdn (s : string) : string :=
  if IsFqdn s then s else s +:+ ".".

Definition SetQuestion (z : string) (t : Z) : Msg :=
  {| Rcode := 0; Question := [(z, t)]; Answer := [] |}.

(** The outcome of [Client.Exchange]: a response when [err == nil],
    otherwise an error (and possibly a partial message, which the caller
    ignores).  The 5 second timeout shows up as an error outcome. *)
Inductive Exchanged :=
| Responded (r : Msg)
| Failed (r : option Msg) (err : string).

Definition Network := Msg → string → Exchanged.

(** ** [main.go]: [queryDNS] *)

Definition queryDNS (Exchange : Network) (domain nameserver : string)
  : option Msg * option error :=
  let m := SetQuestion (Fqdn domain) TypeA in
  match Exchange m nameserver with
  | Failed _ err => (None, Some (New err))
  | Responded r =>
      if bool_decide (Rcode r ≠ RcodeSuccess) then
        (None, Some (Errorf "No answer from nameserver: %s" [ArgString "string" nameserver]))
      else (Some r, None)
  end.

(** ** [nameservers.go]

    [net.LookupIP] is the system resolver: for a host name it returns the
    addresses found and possibly an error. *)

Definition Resolver := string → list IP * option string.

Definition resolveNameserver (LookupIP : Resolver) (ns : string)
  : string * option error :=
  match LookupIP ns with
  | (_, Some err) =>
      ("", Some (Errorf "Failed to resolve nameserver: %v" [ArgString "error" err]))
  | ([], None) =>
      ("", Some (Errorf "No IP addresses found for nameserver: %s" [ArgString "string" ns]))
  | (ip :: _, None) => (ip, None)
  end.

(** The goroutine [worker]: where it stands in its loop
    [for ns := range jobs { ip, err := resolveNameserver(ns); results <- ... }]. *)
Inductive Worker :=
| Receiving
| Resolving (ns : string)
| Sending (ns ip : string)
| Exited.

(** The caller of [resolveNameservers]: feeding [jobs] (with the host names
    still to send), then, after [close(jobs)] and the start of the closer
    goroutine, draining [results], then returned. *)
Inductive Caller :=
| Feeding (rest : list string)
| Draining
| Returned.

(** Both channels are buffered with capacity [len(nameservers)].  A message
    on [results] is a map with the single key [ns] and value [ip], kept as
    the pair.  [attempted] and [written] are history: the lookups made (the
    host name with the address sent for it, the empty string after a
    failure), and the messages the caller has taken from [results], both in
    order. *)
Record RState := {
  caller : Caller;
  capacity : nat;
  jobs : list string;
  jobs_closed : bool;
  results : list (string * string);
  results_closed : bool;
  workers : list Worker;
  resultsMap : gmap string string;
  attempted : list (string * string);
  written : list (string * string)
}.

Inductive REvent :=
| RCaller
| RWorker (i : nat) (LookupIP : Resolver)
| RCloser.

Definition rinit (nameservers : list string) (numWorkers : Z) : RState :=
  {| caller := Feeding nameservers;
     capacity := length nameservers;
     jobs := []; jobs_closed := false;
     results := []; results_closed := false;
     workers := replicate (Z.to_nat numWorkers) Receiving;
     resultsMap := ∅;
     attempted := []; written := [] |}.

Definition set_worker (i : nat) (w : Worker) (s : RState) : RState :=
  {| caller := caller s; capacity := capacity s;
     jobs := jobs s; jobs_closed := jobs_closed s;
     results := results s; results_closed := results_closed s;
     workers := <[i := w]> (workers s);
     resultsMap := resultsMap s;
     attempted := attempted s; written := written s |}.

(** The caller: [jobs <- ns] for each host name, [close(jobs)], then
    [for result := range results { resultsMap[ip] = ns }]. *)
Definition caller_step (s : RState) : option RState :=
  match caller s with
  | Feeding (ns :: rest) =>
      if bool_decide (length (jobs s) < capacity s)%nat then
        Some {| caller := Feeding rest; capacity := capacity s;
                jobs := jobs s ++ [ns]; jobs_closed := jobs_closed s;
                results := results s; results_closed := results_closed s;
                workers := workers s; resultsMap := resultsMap s;
                attempted := attempted s; written := written s |}
      else None
  | Feeding [] =>
      Some {| caller := Draining; capacity := capacity s;
              jobs := jobs s; jobs_closed := true;
              results := results s; results_closed := results_closed s;
              workers := workers s; resultsMap := resultsMap s;
              attempted := attempted s; written := written s |}
  | Draining =>
      match results s with
      | (ns, ip) :: rest =>
          Some {| caller := Draining; capacity := capacity s;
                  jobs := jobs s; jobs_closed := jobs_closed s;
                  results := rest; results_closed := results_closed s;
                  workers := workers s;
                  resultsMap := <[ip := ns]> (resultsMap s);
                  attempted := attempted s;
                  written := written s ++ [(ns, ip)] |}
      | [] =>
          if results_closed s then
            Some {| caller := Returned; capacity := capacity s;
                    jobs := jobs s; jobs_closed := jobs_closed s;
                    results := results s; results_closed := results_closed s;
                    workers := workers s; resultsMap := resultsMap s;
                    attempted := attempted s; written := written s |}
          else None
      end
  | Returned => None
  end.

(** One move of worker [i]. *)
Definition worker_step (i : nat) (LookupIP : Resolver) (s : RState)
  : option RState :=
  match workers s !! i with
  | Some Receiving =>
      match jobs s with
      | ns :: rest =>
          Some {| caller := caller s; capacity := capacity s;
                  jobs := rest; jobs_closed := jobs_closed s;
                  results := results s; results_closed := results_closed s;
                  workers := <[i := Resolving ns]> (workers s);
                  resultsMap := resultsMap s;
                  attempted := attempted s; written := written s |}
      | [] => if jobs_closed s then Some (set_worker i Exited s) else None
      end
  | Some (Resolving ns) =>
      let '(ip, err) := resolveNameserver LookupIP ns in
      let sent := match err with Some _ => "" | None => ip end in
      Some {| caller := caller s; capacity := capacity s;
              jobs := jobs s; jobs_closed := jobs_closed s;
              results := results s; results_closed := results_closed s;
              workers := <[i := Sending ns sent]> (workers s);
              resultsMap := resultsMap s;
              attempted := attempted s ++ [(ns, sent)];
              written := written s |}
  | Some (Sending ns ip) =>
      if bool_decide (length (results s) < capacity s)%nat then
        Some {| caller := caller s; capacity := capacity s;
                jobs := jobs s; jobs_closed := jobs_closed s;
                results := results s ++ [(ns, ip)];
                results_closed := results_closed s;
                workers := <[i := Receiving]> (workers s);
                resultsMap := resultsMap s;
                attempted := attempted s; written := written s |}
      else None
  | Some Exited | None => None
  end.

Definition exited (w : Worker) : bool :=
  match w with Exited => true | _ => false end.

(** The closer goroutine [go func() { wg.Wait(); close(results) }()]: it is
    started after [close(jobs)], and passes [wg.Wait] once every worker has
    run [wg.Done]. *)
Definition closer_step (s : RState) : option RState :=
  match caller s with
  | Feeding _ => None
  | _ =>
      if forallb exited (workers s) && negb (results_closed s) then
        Some {| caller := caller s; capacity := capacity s;
                jobs := jobs s; jobs_closed := jobs_closed s;
                results := results s; results_closed := true;
                workers := workers s; resultsMap := resultsMap s;
                attempted := attempted s; written := written s |}
      else None
  end.

Definition rstep (e : REvent) (s : RState) : option RState :=
  match e with
  | RCaller => caller_step s
  | RWorker i LookupIP => worker_step i LookupIP s
  | RCloser => closer_step s
  end.

Fixpoint rrun (sched : list REvent) (s : RState) : option RState :=
  match sched with
  | [] => Some s
  | e :: sched' => s' ← rstep e s; rrun sched' s'
  end.

Definition returned (s : RState) : bool :=
  match caller s with Returned => true | _ => false end.

(** [resolveNameservers nameservers numWorkers] under the schedule [sched]:
    the map it returns, when the schedule runs it to its [return]. *)
Definition resolveNameservers (nameservers : list string) (numWorkers : Z)
  (sched : list REvent) : option (gmap string string) :=
  s ← rrun sched (rinit nameservers numWorkers);
  if returned s then Some (resultsMap s) else None.

(** ** [main.go]: configuration and start-up *)

Definition LF : string := String (ascii_of_nat 10) "".

Definition validProviders : gmap string (list string) :=
  list_to_map
    [("aws", ["nslists/aws.txt"]);
     ("azure", ["nslists/azure.txt"]);
     ("gcp", ["nslists/gcp.txt"]);
     ("cloud", ["nslists/aws.txt"; "nslists/azure.txt"; "nslists/gcp.txt"])].

Definition banner : string :=
"                 _
                (_)
  _ __  ___ _ __ _ _ __
 | '_ \/ __| '__| | '_ \
 | | | \__ \ |  | | |_) |
 |_| |_|___/_|  |_| .__/
                  | |
                  |_|
	".

Definition version : string := "1.0.1".

(** The values [pflag.Parse] leaves in the flag variables. *)
Record Flags := {
  cloudProvider : string;
  domain : string;
  domainsFile : string;
  numWorkers : Z;
  quietMode : bool;
  verboseMode : bool;
  outputFile : string
}.

(** The file system: what opening and scanning a list file gives, and
    whether the output file can be created. *)
Inductive Scan :=
| OpenError (err : string)
| Scanned (lines : list string) (err : option string).

Record FS := {
  os_Open : string → Scan;
  os_OpenFile : string → option string
}.

(** What start-up does to the outside world, in order. *)
Inductive Effect :=
| Println (text : string)
| Printf (text : option string)
| Open (name : string)
| OpenFile (name : string)
| Fatalf (msg : option string).

Definition str (s : string) : Arg := ArgString "string" s.

(** [for _, filename := range providerLists { ... }] and the same loop body
    for the domain list: open, scan every line, fail fatally on an error. *)
Definition read_file (fs : FS) (filename : string) (acc : list string)
  : list Effect * option (list string) :=
  match os_Open fs filename with
  | OpenError err =>
      ([Open filename;
        Fatalf (Sprintf "Error opening file %s: %v" [str filename; ArgString "error" err])],
       None)
  | Scanned lines None => ([Open filename], Some (acc ++ lines))
  | Scanned lines (Some err) =>
      ([Open filename;
        Fatalf (Sprintf "Error reading file %s: %v" [str filename; ArgString "error" err])],
       None)
  end.

Fixpoint read_files (fs : FS) (filenames : list string) (acc : list string)
  : list Effect * option (list string) :=
  match filenames with
  | [] => ([], Some acc)
  | filename :: filenames' =>
      match read_file fs filename acc with
      | (eff, None) => (eff, None)
      | (eff, Some acc') =>
          let '(eff', r) := read_files fs filenames' acc' in (eff ++ eff', r)
      end
  end.

(** [main] from its first statement to the two lists: the effects, and
    [Some (nameservers, domainsList)] unless a [log.Fatalf] ended the
    process. *)
Definition startup (flags : Flags) (fs : FS)
  : list Effect * option (list string * list string) :=
  let eff0 :=
    if quietMode flags then []
    else [Println banner; Printf (Sprintf ("[v%s]" +:+ LF +:+ LF) [str version])] in
  let providerLists :=
    match validProviders !! cloudProvider flags with
    | Some lists => lists
    | None => [cloudProvider flags]
    end in
  if bool_decide (numWorkers flags ≤ 0) then
    (eff0 ++ [Fatalf (Sprintf "Invalid number of workers: %d. It must be a positive integer."
                        [ArgInt (numWorkers flags)])], None)
  else
    match read_files fs providerLists [] with
    | (eff1, None) => (eff0 ++ eff1, None)
    | (eff1, Some nameservers) =>
        if bool_decide (domainsFile flags ≠ "") then
          match read_file fs (domainsFile flags) [] with
          | (eff2, None) => (eff0 ++ eff1 ++ eff2, None)
          | (eff2, Some domainsList) =>
              (eff0 ++ eff1 ++ eff2, Some (nameservers, domainsList))
          end
        else if bool_decide (domain flags = "") then
          (eff0 ++ eff1 ++
             [Fatalf (Sprintf "You must provide either a domain (-d) or a list of domains (-l)" [])],
           None)
        else (eff0 ++ eff1, Some (nameservers, [domain flags]))
    end.

(** ** [main.go]: the progress counters and the reporter goroutine *)

Definition int32 (z : Z) : Z := (z + 2 ^ 31) mod 2 ^ 32 - 2 ^ 31.
Definition int64 (z : Z) : Z := (z + 2 ^ 63) mod 2 ^ 64 - 2 ^ 63.

Definition sampleSize (numDomains numNameservers : nat) : Z :=
  int64 (Z.of_nat numDomains * Z.of_nat numNameservers).

(** [float64(v)] for an [int32] value [v]. *)
Definition float64 (v : Z) : float :=
  if v <? 0 then PrimFloat.opp (PrimFloat.of_uint63 (Uint63.of_Z (- v)))
  else PrimFloat.of_uint63 (Uint63.of_Z v).

Inductive Color := Green | Yellow | Red.

(** What the query phase writes: to the output file, to the console in a
    colour, and the progress line of the reporter, kept with the three
    operands of its format [[~] Progress: %d/%d (%.2f%%)]. *)
Inductive Print :=
| ToFile (text : option string)
| ToConsole (c : Color) (text : option string)
| ToLog (val1 val2 : Z) (percent : float).

(** The body of the reporter's loop once a line has been read from standard
    input. *)
Definition report (progress total : Z) : list Print :=
  let val1 := progress in
  let val2 := total in
  [ToLog val1 val2
     (PrimFloat.div (PrimFloat.mul (float64 val1) (float64 100)) (float64 val2))].

(** ** [main.go]: the result consumer *)

Record wrappedAnswer := {
  nsIP : string;
  domain_ : string;
  answer : Msg
}.

(** The chain of type assertions on one record of the answer section: the
    colour, the format and the operand taken from the record. *)
Inductive Classified :=
| CA (address : IP)
| CAAAA (address : IP)
| CCNAME (target : string)
| COther (goType rendering : string).

Definition classify (rr : RR) : Classified :=
  match rr with
  | dns_A a => CA a
  | dns_CNAME target => CCNAME target
  | dns_AAAA aaaa => CAAAA aaaa
  | dns_other ty text => COther ty text
  end.

Definition outputStr (nsName nsIP domain : string) (c : Classified)
  : Color * option string :=
  match c with
  | CA a =>
      (Green, Sprintf ("[%s (%s)] %s => %s" +:+ LF)
                [str nsName; str nsIP; str domain; ArgString "net.IP" a])
  | CCNAME target =>
      (Green, Sprintf ("[%s (%s)] %s => %s" +:+ LF)
                [str nsName; str nsIP; str domain; str target])
  | CAAAA aaaa =>
      (Green, Sprintf ("[%s (%s)] %s => %s" +:+ LF)
                [str nsName; str nsIP; str domain; ArgString "net.IP" aaaa])
  | COther ty text =>
      (Yellow, Sprintf ("[%s (%s)] %s" +:+ LF)
                 [str nsName; str nsIP; str domain; ArgString ty text])
  end.

(** One record: [outputStr] is built, then used as the format of
    [fmt.Fprintf(fHandle, outputStr)] when the output file is open, and of
    the coloured [Printf(outputStr)]. *)
Definition show_record (fHandle : bool) (nsName nsIP domain : string) (rr : RR)
  : list Print :=
  let '(colour, out) := outputStr nsName nsIP domain (classify rr) in
  let printed := format ← out; Sprintf format [] in
  (if fHandle then [ToFile printed] else []) ++ [ToConsole colour printed].

(** The body of [for result := range queryAnswers]. *)
Definition show_result (mappedNameservers : gmap string string) (fHandle : bool)
  (result : wrappedAnswer) : list Print :=
  let domain := domain_ result in
  let nsIP := nsIP result in
  let nsName := default "" (mappedNameservers !! nsIP) in
  let resp := answer result in
  if bool_decide (0 < length (Answer resp))%nat then
    concat ((show_record fHandle nsName nsIP domain) <$> Answer resp)
  else [].

(** ** [main.go]: the query workers and the dispatch loop *)

(** A query worker: at [for query := range pendingQueries], holding a query
    it has received, at [queryAnswers <- wrappedAnswer{...}], or past
    [wg.Done]. *)
Inductive QWorker :=
| QReceiving
| QQuerying (query : string)
| QSending (result : wrappedAnswer)
| QExited.

(** The main goroutine during the query phase: in the dispatch loop with
    the queries still to send, at [wg.Wait()] after [close(pendingQueries)],
    at [wg2.Wait()] after [close(queryAnswers)], and past it. *)
Inductive Dispatcher :=
| Dispatching (pending : list string)
| WaitWorkers
| WaitSink
| Finished.

(** What the goroutines of the query phase share and never change. *)
Record Shared := {
  mappedNameservers : gmap string string;
  verbose : bool;
  fHandle : bool
}.

(** [issued] and [delivered] are history: the calls of [queryDNS] (domain
    and nameserver address), and the answers the consumer has received.
    [queryAnswers] is unbuffered: a worker's send completes with the
    consumer's receive, and the consumer's handling of that answer is taken
    as part of the same step. *)
Record DState := {
  dispatcher : Dispatcher;
  qworkers : list QWorker;
  progress : Z;
  total : Z;
  sink_done : bool;
  output : list Print;
  issued : list (string * string);
  delivered : list wrappedAnswer
}.

Inductive DEvent :=
| DSend (i : nat)
| DMain
| DWorker (i : nat) (Exchange : Network)
| DSink
| DEnter.

(** The queries of the dispatch loop for one key of the map. *)
Definition queries_for (domainsList : list string) (nsIP : string) : list string :=
  if bool_decide (nsIP = "") then []
  else omap (λ domain, Sprintf "%s|%s" [str domain; str nsIP]) domainsList.

(** [for nsIP, _ := range mappedNameservers { ... }], the keys being visited
    in the order [order]. *)
Definition dispatch_queries (order : list string) (domainsList : list string)
  : list string :=
  concat (queries_for domainsList <$> order).

Definition dinit (order domainsList : list string) (numWorkers : Z)
  (sampleSize : Z) : DState :=
  {| dispatcher := Dispatching (dispatch_queries order domainsList);
     qworkers := replicate (Z.to_nat numWorkers) QReceiving;
     progress := int32 0;
     total := int32 sampleSize;
     sink_done := false;
     output := [];
     issued := []; delivered := [] |}.

Definition qexited (w : QWorker) : bool :=
  match w with QExited => true | _ => false end.

(** [pendingQueries <- query]: the channel is unbuffered, so the send
    completes together with the receive of a worker waiting on it. *)
Definition send_step (i : nat) (s : DState) : option DState :=
  match dispatcher s, qworkers s !! i with
  | Dispatching (query :: rest), Some QReceiving =>
      Some {| dispatcher := Dispatching rest;
              qworkers := <[i := QQuerying query]> (qworkers s);
              progress := progress s; total := total s;
              sink_done := sink_done s; output := output s;
              issued := issued s; delivered := delivered s |}
  | _, _ => None
  end.

Definition set_dispatcher (d : Dispatcher) (s : DState) : DState :=
  {| dispatcher := d; qworkers := qworkers s;
     progress := progress s; total := total s;
     sink_done := sink_done s; output := output s;
     issued := issued s; delivered := delivered s |}.

(** [close(pendingQueries)], [wg.Wait(); close(queryAnswers)], [wg2.Wait()]. *)
Definition main_step (s : DState) : option DState :=
  match dispatcher s with
  | Dispatching [] => Some (set_dispatcher WaitWorkers s)
  | Dispatching _ => None
  | WaitWorkers =>
      if forallb qexited (qworkers s) then Some (set_dispatcher WaitSink s) else None
  | WaitSink => if sink_done s then Some (set_dispatcher Finished s) else None
  | Finished => None
  end.

(** The [red.Printf(fmt.Sprintf("[-] %s\n", err))] of verbose mode. *)
Definition show_failure (err : error) : list Print :=
  [ToConsole Red
     (text ← Error err;
      format ← Sprintf ("[-] %s" +:+ LF) [ArgString "error" text];
      Sprintf format [])].

(** One move of query worker [i]; [Exchange] is how the network behaves if
    the move is the call of [queryDNS]. *)
Definition qworker_step (sh : Shared) (i : nat) (Exchange : Network) (s : DState)
  : option DState :=
  match qworkers s !! i with
  | Some QReceiving =>
      match dispatcher s with
      | Dispatching _ => None
      | _ =>
          Some {| dispatcher := dispatcher s;
                  qworkers := <[i := QExited]> (qworkers s);
                  progress := progress s; total := total s;
                  sink_done := sink_done s; output := output s;
                  issued := issued s; delivered := delivered s |}
      end
  | Some (QQuerying query) =>
      match Split query "|" with
      | [domain; nsIP] =>
          let '(resp, err) := queryDNS Exchange domain (nsIP +:+ ":53") in
          match err, resp with
          | Some err, _ =>
              Some {| dispatcher := dispatcher s;
                      qworkers := <[i := QReceiving]> (qworkers s);
                      progress := int32 (progress s + 1); total := total s;
                      sink_done := sink_done s;
                      output := output s ++ (if verbose sh then show_failure err else []);
                      issued := issued s ++ [(domain, nsIP +:+ ":53")];
                      delivered := delivered s |}
          | None, Some resp =>
              Some {| dispatcher := dispatcher s;
                      qworkers :=
                        <[i := QSending {| nsIP := nsIP; domain_ := domain; answer := resp |}]>
                          (qworkers s);
                      progress := int32 (progress s + 1); total := total s;
                      sink_done := sink_done s; output := output s;
                      issued := issued s ++ [(domain, nsIP +:+ ":53")];
                      delivered := delivered s |}
          | None, None => None
          end
      | _ =>
          Some {| dispatcher := dispatcher s;
                  qworkers := <[i := QReceiving]> (qworkers s);
                  progress := progress s; total := total s;
                  sink_done := sink_done s; output := output s;
                  issued := issued s; delivered := delivered s |}
      end
  | Some (QSending result) =>
      Some {| dispatcher := dispatcher s;
              qworkers := <[i := QReceiving]> (qworkers s);
              progress := progress s; total := total s;
              sink_done := sink_done s;
              output := output s ++ show_result (mappedNameservers sh) (fHandle sh) result;
              issued := issued s;
              delivered := delivered s ++ [result] |}
  | Some QExited | None => None
  end.

(** The consumer leaves its loop when [queryAnswers] is closed. *)
Definition sink_step (s : DState) : option DState :=
  match dispatcher s with
  | WaitSink =>
      if sink_done s then None
      else Some {| dispatcher := dispatcher s; qworkers := qworkers s;
                   progress := progress s; total := total s;
                   sink_done := true; output := output s;
                   issued := issued s; delivered := delivered s |}
  | _ => None
  end.

(** The operator presses enter: the reporter prints the counters. *)
Definition enter_step (s : DState) : option DState :=
  Some {| dispatcher := dispatcher s; qworkers := qworkers s;
          progress := progress s; total := total s;
          sink_done := sink_done s;
          output := output s ++ report (progress s) (total s);
          issued := issued s; delivered := delivered s |}.

Definition dstep (sh : Shared) (e : DEvent) (s : DState) : option DState :=
  match e with
  | DSend i => send_step i s
  | DMain => main_step s
  | DWorker i Exchange => qworker_step sh i Exchange s
  | DSink => sink_step s
  | DEnter => enter_step s
  end.

Fixpoint drun (sh : Shared) (sched : list DEvent) (s : DState) : option DState :=
  match sched with
  | [] => Some s
  | e :: sched' => s' ← dstep sh e s; drun sh sched' s'
  end.

Definition finished (s : DState) : bool :=
  match dispatcher s with Finished => true | _ => false end.

(** ** [main.go]: [main]

    A run of the program: the effects of start-up, the state the resolution
    phase reached and the state the query phase reached ([None] for a phase
    that never started).  The schedules of the two phases and the order in
    which [range] visits the keys of the map are chosen by the Go runtime;
    [main] is [None] when they are not possible choices. *)
Record Run := {
  effects : list Effect;
  resolution : option RState;
  querying : option DState
}.

Definition main (flags : Flags) (fs : FS)
  (rsched : list REvent) (order : list string) (dsched : list DEvent)
  : option Run :=
  match startup flags fs with
  | (eff0, None) => Some {| effects := eff0; resolution := None; querying := None |}
  | (eff0, Some (nameservers, domainsList)) =>
      let numNameservers := length nameservers in
      let numDomains := length domainsList in
      let sampleSize := sampleSize numDomains numNameservers in
      let eff1 :=
        if quietMode flags then []
        else [Printf (Sprintf ("[+] %d domains x %d nameservers = %d queries" +:+ LF)
                        [ArgInt (Z.of_nat numDomains); ArgInt (Z.of_nat numNameservers);
                         ArgInt sampleSize]);
              Printf (Sprintf ("[+] Workers: %d" +:+ LF) [ArgInt (numWorkers flags)]);
              Printf (Sprintf ("[~] Mapping IPs for nameservers" +:+ LF) []);
              Printf (Sprintf ("[~] Press enter at any time to check the progress" +:+ LF) [])] in
      r ← rrun rsched (rinit nameservers (numWorkers flags));
      if returned r then
        let mapped := resultsMap r in
        let eff2 :=
          if quietMode flags then []
          else [Printf (Sprintf ("[~] Querying domains against nameservers" +:+ LF) [])] in
        let opened :=
          if bool_decide (outputFile flags ≠ "") then
            ([OpenFile (outputFile flags)], os_OpenFile fs (outputFile flags))
          else ([], None) in
        match opened with
        | (eff3, Some err) =>
            Some {| effects :=
                      eff0 ++ eff1 ++ eff2 ++ eff3 ++
                      [Fatalf (Sprintf "[-] Could not create output file: %s"
                                 [ArgString "error" err])];
                    resolution := Some r; querying := None |}
        | (eff3, None) =>
            let sh := {| mappedNameservers := mapped;
                         verbose := verboseMode flags;
                         fHandle := bool_decide (outputFile flags ≠ "") |} in
            if bool_decide (order ≡ₚ (map_to_list mapped).*1) then
              d ← drun sh dsched (dinit order domainsList (numWorkers flags) sampleSize);
              Some {| effects := eff0 ++ eff1 ++ eff2 ++ eff3;
                      resolution := Some r; querying := Some d |}
            else None
        end
      else Some {| effects := eff0 ++ eff1; resolution := Some r; querying := None |}
  end.

(** ** Vocabulary of the statements *)

(** The bytes of a string, to say that a byte does not occur in it. *)
Fixpoint has_byte (c : ascii) (s : string) : bool :=
  match s with
  | "" => false
  | String x rest => bool_decide (x = c) || has_byte c rest
  end.

(** The console part and the file part of what the query phase wrote. *)
Definition console_lines (out : list Print) : list (Color * option string) :=
  omap (λ p, match p with ToConsole c text => Some (c, text) | _ => None end) out.

Definition file_lines (out : list Print) : list (option string) :=
  omap (λ p, match p with ToFile text => Some text | _ => None end) out.

(** The line the consumer is meant to print for a record. *)
Definition arrow_line (nsName nsIP domain value : string) : string :=
  "[" +:+ nsName +:+ " (" +:+ nsIP +:+ ")] " +:+ domain +:+ " => " +:+ value +:+ LF.

(** What the goroutines of [resolveNameservers] hold: the host names the
    caller has still to send, the host names workers are resolving, and the
    messages workers are about to send. *)
Definition to_feed (s : RState) : list string :=
  match caller s with Feeding rest => rest | _ => [] end.

Definition resolving_of (w : Worker) : list string :=
  match w with Resolving ns => [ns] | _ => [] end.

Definition sending_of (w : Worker) : list (string * string) :=
  match w with Sending ns ip => [(ns, ip)] | _ => [] end.

Definition resolving (s : RState) : list string :=
  concat (resolving_of <$> workers s).

Definition sending (s : RState) : list (string * string) :=
  concat (sending_of <$> workers s).

(** The map obtained by the writes [resultsMap[ip] = ns], in order. *)
Definition writes (l : list (string * string)) : gmap string string :=
  foldl (λ m r, <[r.2 := r.1]> m) ∅ l.

(** The host name of the last message for [ip] among [l]. *)
Definition last_writer (ip : string) (l : list (string * string)) : option string :=
  fst <$> last (filter (λ r, r.2 = ip) l).

(** The invariant of the resolution phase. *)
Record RInv (nameservers : list string) (numWorkers : Z) (s : RState) : Prop := {
  inv_capacity : capacity s = length nameservers;
  inv_workers : length (workers s) = Z.to_nat numWorkers;
  inv_hosts : to_feed s ++ jobs s ++ resolving s ++ (attempted s).*1 ≡ₚ nameservers;
  inv_results : sending s ++ results s ++ written s ≡ₚ attempted s;
  inv_map : resultsMap s = writes (written s);
  inv_jobs_closed :
    jobs_closed s = match caller s with Feeding _ => false | _ => true end;
  inv_exited : Exited ∈ workers s → jobs s = [] ∧ jobs_closed s = true;
  inv_closed : results_closed s = true → forallb exited (workers s) = true;
  inv_returned : caller s = Returned → results s = [] ∧ results_closed s = true
}.

(** The number of steps the resolution phase has left. *)
Definition worker_weight (w : Worker) : nat :=
  match w with
  | Receiving => 1
  | Resolving _ => 4
  | Sending _ _ => 3
  | Exited => 0
  end.

Definition caller_weight (c : Caller) : nat :=
  match c with
  | Feeding rest => 2 + 5 * length rest
  | Draining => 1
  | Returned => 0
  end.

Definition rmeasure (s : RState) : nat :=
  caller_weight (caller s) + 4 * length (jobs s)
  + sum_list (worker_weight <$> workers s)
  + length (results s) + (if results_closed s then 0 else 1).

(** Some goroutine of the resolution phase can move, whatever the resolver
    answers. *)
Definition can_move (s : RState) : Prop :=
  is_Some (rstep RCaller s) ∨ is_Some (rstep RCloser s)
  ∨ ∃ i, ∀ LookupIP, is_Some (rstep (RWorker i LookupIP) s).

(** A query as the worker reads it: the two operands of [queryDNS], when
    the text splits at the bar into exactly two parts. *)
Definition parse_query (query : string) : option (string * string) :=
  match Split query "|" with
  | [domain; nsIP] => Some (domain, nsIP +:+ ":53")
  | _ => None
  end.

(** What the goroutines of the query phase hold: the queries the dispatch
    loop has still to send, and the queries workers have received and not
    yet run. *)
Definition pending (s : DState) : list string :=
  match dispatcher s with Dispatching l => l | _ => [] end.

Definition querying_of (w : QWorker) : list string :=
  match w with QQuerying query => [query] | _ => [] end.

Definition in_flight (s : DState) : list string :=
  concat (querying_of <$> qworkers s).

(** The invariant of the query phase, for the queries of the dispatch
    loop. *)
Record DInv (queries : list string) (s : DState) : Prop := {
  dinv_issued :
    omap parse_query (pending s ++ in_flight s) ++ issued s
    ≡ₚ omap parse_query queries;
  dinv_progress : progress s = int32 (Z.of_nat (length (issued s)));
  dinv_drained :
    match dispatcher s with
    | WaitSink | Finished => forallb qexited (qworkers s) = true
    | _ => True
    end
}.

(** Every (domain, address) pair of the cross product, as operands of
    [queryDNS]: the domains against each key of the map that is not the
    empty string. *)
Definition cross_product (order domainsList : list string) : list (string * string) :=
  nsIP ← filter (λ nsIP, nsIP ≠ "") order;
  (λ domain, (domain, nsIP +:+ ":53")) <$> domainsList.

(** ** Vocabulary for the query phase as a whole *)

(** A string without the bar that separates the two parts of a query. *)
Definition bar_free (s : string) : Prop := has_byte "|" s = false.

(** The answers workers are about to send to the consumer. *)
Definition qsending_of (w : QWorker) : list wrappedAnswer :=
  match w with QSending result => [result] | _ => [] end.

Definition handing_over (s : DState) : list wrappedAnswer :=
  concat (qsending_of <$> qworkers s).

(** What the consumer writes for a sequence of answers. *)
Definition answers_output (sh : Shared) (answers : list wrappedAnswer) : list Print :=
  concat (show_result (mappedNameservers sh) (fHandle sh) <$> answers).

#[global] Instance Color_eq_dec : EqDecision Color.
Proof. solve_decision. Defined.

(** The failure lines of verbose mode, and the other console lines. *)
Definition failure_lines (out : list Print) : list (Color * option string) :=
  filter (λ line, line.1 = Red) (console_lines out).

Definition answer_lines (out : list Print) : list (Color * option string) :=
  filter (λ line, line.1 ≠ Red) (console_lines out).

(** The events of the query phase other than the operator pressing enter. *)
Definition is_enter (e : DEvent) : bool :=
  match e with DEnter => true | _ => false end.

(** The number of steps the query phase has left, at most. *)
Definition qworker_weight (w : QWorker) : nat :=
  match w with
  | QReceiving => 1
  | QQuerying _ => 3
  | QSending _ => 2
  | QExited => 0
  end.

Definition dispatcher_weight (d : Dispatcher) : nat :=
  match d with
  | Dispatching pending => 3 + 3 * length pending
  | WaitWorkers => 2
  | WaitSink => 1
  | Finished => 0
  end.

Definition dmeasure (s : DState) : nat :=
  dispatcher_weight (dispatcher s)
  + sum_list (qworker_weight <$> qworkers s)
  + (if sink_done s then 0 else 1).

(** A goroutine of the query phase can move, whatever the network does. *)
Definition can_proceed (sh : Shared) (s : DState) : Prop :=
  is_Some (dstep sh DMain s) ∨ is_Some (dstep sh DSink s)
  ∨ (∃ i, is_Some (dstep sh (DSend i) s))
  ∨ ∃ i, ∀ Exchange, is_Some (dstep sh (DWorker i Exchange) s).

(** While the dispatch loop runs no worker has left its loop. *)
Record DLive (numWorkers : Z) (s : DState) : Prop := {
  dlive_workers : length (qworkers s) = Z.to_nat numWorkers;
  dlive_alive :
    match dispatcher s with
    | Dispatching _ => QExited ∉ qworkers s
    | _ => True
    end;
  dlive_drained :
    match dispatcher s with
    | WaitSink | Finished => forallb qexited (qworkers s) = true
    | _ => True
    end
}.

(** An answer on its way to, or received by, the consumer is a response
    with the success code to a query that was made. *)
Definition from_successful_query (s : DState) (result : wrappedAnswer) : Prop :=
  Rcode (answer result) = RcodeSuccess
  ∧ (domain_ result, nsIP result +:+ ":53") ∈ issued s.

(** What the output of the query phase consists of: the file holds the
    lines of the answers received, the console holds them beside the
    failure lines, and in verbose mode every query made is either an answer
    (received or on its way) or a failure line. *)
Record SinkInv (sh : Shared) (s : DState) : Prop := {
  sink_file : file_lines (output s) = file_lines (answers_output sh (delivered s));
  sink_console :
    answer_lines (output s) = console_lines (answers_output sh (delivered s));
  sink_quiet : verbose sh = false → failure_lines (output s) = [];
  sink_verbose :
    verbose sh = true →
    (length (failure_lines (output s)) + length (delivered s)
     + length (handing_over s) = length (issued s))%nat;
  sink_count :
    (length (delivered s) + length (handing_over s) ≤ length (issued s))%nat;
  sink_successful :
    Forall (from_successful_query s) (delivered s ++ handing_over s)
}.

(** ** [main.go]: the consumer of the variants without an output file

    [green.Printf("[%s (%s)] %s => %s\n", nsName, nsIP, domain, aRecord.A)]
    and its siblings: the format is the constant and the fields are its
    operands. *)
Definition show_record_direct (nsName nsIP domain : string) (rr : RR) : list Print :=
  let '(colour, printed) := outputStr nsName nsIP domain (classify rr) in
  [ToConsole colour printed].

Definition show_result_direct (mappedNameservers : gmap string string)
  (result : wrappedAnswer) : list Print :=
  let domain := domain_ result in
  let nsIP := nsIP result in
  let nsName := default "" (mappedNameservers !! nsIP) in
  let resp := answer result in
  if bool_decide (0 < length (Answer resp))%nat then
    concat ((show_record_direct nsName nsIP domain) <$> Answer resp)
  else [].

(** ** Vocabulary for start-up *)

(** The list files start-up reads, in order: those of the provider, or the
    provider name itself taken as a file name, then the domain list. *)
Definition providerLists (flags : Flags) : list string :=
  match validProviders !! cloudProvider flags with
  | Some lists => lists
  | None => [cloudProvider flags]
  end.

Definition list_files (flags : Flags) : list string :=
  providerLists flags
  ++ (if bool_decide (domainsFile flags ≠ "") then [domainsFile flags] else []).

Definition readable (fs : FS) (name : string) : Prop :=
  ∃ lines, os_Open fs name = Scanned lines None.

Definition lines_of (fs : FS) (name : string) : list string :=
  match os_Open fs name with
  | Scanned lines _ => lines
  | OpenError _ => []
  end.

Definition opened (eff : list Effect) : list string :=
  omap (λ e, match e with Open name => Some name | _ => None end) eff.

Definition is_fatal (e : Effect) : bool :=
  match e with Fatalf _ => true | _ => false end.

Definition is_print (e : Effect) : bool :=
  match e with Println _ | Printf _ => true | _ => false end.

(** The flags with another value for [-d]. *)
Definition with_domain (d : string) (flags : Flags) : Flags :=
  {| cloudProvider := cloudProvider flags; domain := d;
     domainsFile := domainsFile flags; numWorkers := numWorkers flags;
     quietMode := quietMode flags; verboseMode := verboseMode flags;
     outputFile := outputFile flags |}.

(** Start-up gets to the two lists: the conditions on the flags and on the
    file system. *)
Definition startup_ok (flags : Flags) (fs : FS) : Prop :=
  0 < numWorkers flags
  ∧ Forall (readable fs) (list_files flags)
  ∧ (domainsFile flags = "" → domain flags ≠ "").

(** ** Vocabulary for the printed lines *)

Definition percent_free (s : string) : Prop := has_byte "%" s = false.

(** The field of a record that the consumer prints after the arrow. *)
Definition record_value (rr : RR) : option string :=
  match rr with
  | dns_A a => Some a
  | dns_AAAA aaaa => Some aaaa
  | dns_CNAME target => Some target
  | dns_other _ _ => None
  end.

Definition plain_record (rr : RR) : Prop :=
  ∃ value, record_value rr = Some value ∧ percent_free value.

(** The line the constant formats give for a record: the arrow line, or for
    a record of another type the line without a value, followed by what
    [fmt] appends for the operand that has no verb. *)
Definition direct_line (nsName nsIP domain : string) (rr : RR) : Print :=
  match rr with
  | dns_other ty text =>
      ToConsole Yellow
        (Some ("[" +:+ nsName +:+ " (" +:+ nsIP +:+ ")] " +:+ domain +:+ LF
               +:+ "%!(EXTRA " +:+ (ty +:+ "=" +:+ text) +:+ ")"))
  | dns_A value | dns_AAAA value | dns_CNAME value =>
      ToConsole Green (Some (arrow_line nsName nsIP domain value))
  end.

(** ** Vocabulary for the lines of the consumer *)

(** The line built for a record by its tag, before it is printed: the colour
    and the text [Sprintf] builds from the constant format and the fields. *)
Definition built_line (nsName nsIP domain : string) (c : Classified) : Color * string :=
  match c with
  | CA a => (Green, arrow_line nsName nsIP domain a)
  | CAAAA aaaa => (Green, arrow_line nsName nsIP domain aaaa)
  | CCNAME target => (Green, arrow_line nsName nsIP domain target)
  | COther ty text =>
      (Yellow, "[" +:+ nsName +:+ " (" +:+ nsIP +:+ ")] " +:+ domain +:+ LF
               +:+ "%!(EXTRA " +:+ (ty +:+ "=" +:+ text) +:+ ")")
  end.

(** The line that reaches the console for a record by its tag, when no
    field contains a percent sign. *)
Definition printed_line (nsName nsIP domain : string) (c : Classified) : Color * string :=
  match c with
  | CA a => (Green, arrow_line nsName nsIP domain a)
  | CAAAA aaaa => (Green, arrow_line nsName nsIP domain aaaa)
  | CCNAME target => (Green, arrow_line nsName nsIP domain target)
  | COther ty text =>
      (Yellow, "[" +:+ nsName +:+ " (" +:+ nsIP +:+ ")] " +:+ domain +:+ LF
               +:+ "%!!(MISSING)(EXTRA " +:+ (ty +:+ "=" +:+ text) +:+ ")")
  end.

(** The fields of a record that are printed. *)
Definition tag_fields (c : Classified) : list string :=
  match c with
  | CA a => [a]
  | CAAAA aaaa => [aaaa]
  | CCNAME target => [target]
  | COther ty text => [ty; text]
  end.

(** ** The calls of [net.LookupIP] made in a run *)

(** What the resolver returned for a host name. *)
Definition Lookup : Type := string * (list IP * option string).

(** The call a step makes: a worker that holds a host name looks it up. *)
Definition lookup_of (e : REvent) (s : RState) : list Lookup :=
  match e with
  | RWorker i LookupIP =>
      match workers s !! i with
      | Some (Resolving ns) => [(ns, LookupIP ns)]
      | _ => []
      end
  | _ => []
  end.

(** The calls made along a schedule, in order. *)
Fixpoint lookups (sched : list REvent) (s : RState) : list Lookup :=
  match sched with
  | [] => []
  | e :: sched' =>
      match rstep e s with
      | Some s' => lookup_of e s ++ lookups sched' s'
      | None => []
      end
  end.

(** A lookup failed: the resolver returned an error, or no address.  A
    lookup found [ip]: no error, and [ip] is the first address. *)
Definition lookup_failed (out : list IP * option string) : Prop :=
  out.2 ≠ None ∨ out.1 = [].

Definition lookup_found (out : list IP * option string) (ip : IP) : Prop :=
  ∃ ips, out = (ip :: ips, None).

(** The address that belongs to the outcome of a lookup: the first address
    found, and the empty string for a failed lookup. *)
Definition address_of (out : list IP * option string) : string :=
  match out with
  | (ip :: _, None) => ip
  | _ => ""
  end.


(** ** Concrete scenarios, used to exercise the statements *)

Definition flags_one : Flags :=
  {| cloudProvider := "ns.txt"; domain := "a.test"; domainsFile := "";
     numWorkers := 1; quietMode := true; verboseMode := true;
     outputFile := "out.txt" |}.

Definition flags_no_worker : Flags :=
  {| cloudProvider := "ns.txt"; domain := "a.test"; domainsFile := "";
     numWorkers := 0; quietMode := false; verboseMode := false;
     outputFile := "" |}.

(** A file system whose only list file is [ns.txt], with the given lines. *)
Definition fs_with (lines : list string) : FS :=
  {| os_Open := λ name,
       if bool_decide (name = "ns.txt") then Scanned lines None
       else OpenError "open: no such file or directory";
     os_OpenFile := λ _, None |}.

(** Resolvers: one that finds an address, one that fails. *)
Definition lookup_ok (ip : IP) : Resolver := λ _, ([ip], None).
Definition lookup_fail : Resolver := λ _, ([], Some "no such host").

(** Networks: a response with the given code and answer section, and a
    timeout. *)
Definition respond (code : Z) (records : list RR) : Network :=
  λ m _, Responded {| Rcode := code; Question := Question m; Answer := records |}.
Definition timeout : Network := λ _ _, Failed None "i/o timeout".

(** A state of the query phase with one worker holding the query
    [a.test|203.0.113.5]. *)
Definition holding_query : DState :=
  {| dispatcher := Dispatching [];
     qworkers := [QQuerying "a.test|203.0.113.5"];
     progress := 0; total := 1; sink_done := false;
     output := []; issued := []; delivered := [] |}.

Definition shared_one : Shared :=
  {| mappedNameservers := {["203.0.113.5" := "ns1.example"]};
     verbose := true; fHandle := true |}.

(** A state of the query phase before any query, with both counters zero. *)
Definition idle_zero : DState :=
  {| dispatcher := Dispatching []; qworkers := [QReceiving];
     progress := 0; total := 0; sink_done := false;
     output := []; issued := []; delivered := [] |}.

(** Two host names with the same address, one worker: a complete schedule of
    the resolution phase. *)
Definition two_names : list string := ["ns1.example"; "ns2.example"].

Definition sched_two : list REvent :=
  [RCaller; RCaller; RCaller;
   RWorker 0 (lookup_ok "203.0.113.5"); RWorker 0 (lookup_ok "203.0.113.5");
   RWorker 0 (lookup_ok "203.0.113.5");
   RWorker 0 (lookup_ok "203.0.113.5"); RWorker 0 (lookup_ok "203.0.113.5");
   RWorker 0 (lookup_ok "203.0.113.5");
   RWorker 0 (lookup_ok "203.0.113.5"); RCloser;
   RCaller; RCaller; RCaller].

(** One host name that does not resolve, one worker. *)
Definition sched_fail : list REvent :=
  [RCaller; RCaller;
   RWorker 0 lookup_fail; RWorker 0 lookup_fail; RWorker 0 lookup_fail;
   RWorker 0 lookup_fail; RCloser; RCaller; RCaller].

(** One host name that resolves, one worker. *)
Definition sched_one : list REvent :=
  [RCaller; RCaller;
   RWorker 0 (lookup_ok "203.0.113.5"); RWorker 0 (lookup_ok "203.0.113.5");
   RWorker 0 (lookup_ok "203.0.113.5"); RWorker 0 (lookup_ok "203.0.113.5");
   RCloser; RCaller; RCaller].

(** Schedules of the query phase with one worker: no query at all, and one
    query answered by the given network. *)
Definition sched_idle : list DEvent :=
  [DMain; DWorker 0 timeout; DMain; DSink; DMain].

Definition sched_query (Exchange : Network) : list DEvent :=
  [DSend 0; DMain; DWorker 0 Exchange; DWorker 0 Exchange; DWorker 0 Exchange;
   DMain; DSink; DMain].

Definition sched_failed_query : list DEvent :=
  [DSend 0; DMain; DWorker 0 timeout; DWorker 0 timeout; DMain; DSink; DMain].

(** An empty list of name servers, and the operator pressing enter. *)
Definition sched_enter : list DEvent :=
  [DEnter; DMain; DWorker 0 timeout; DMain; DSink; DMain].

Definition sched_none : list REvent :=
  [RCaller; RWorker 0 lookup_fail; RCloser; RCaller].

(** Two keys and two domains, one of each with a bar in it, one worker: only
    [a.test|203.0.113.5] is taken as a query. *)
Definition keys_barred : list string := ["203.0.113.5"; "x|y"].
Definition domains_barred : list string := ["a|b"; "a.test"].

Definition sched_barred_start (Exchange : Network) : list DEvent :=
  [DSend 0; DWorker 0 Exchange;
   DSend 0; DWorker 0 Exchange; DWorker 0 Exchange].

Definition sched_barred_end (Exchange : Network) : list DEvent :=
  [DSend 0; DWorker 0 Exchange;
   DSend 0; DWorker 0 Exchange;
   DMain; DWorker 0 Exchange; DMain; DSink; DMain].

Definition sched_barred (Exchange : Network) : list DEvent :=
  sched_barred_start Exchange ++ sched_barred_end Exchange.

(** A file system with the list files [ns.txt] and [domains.txt], where the
    output file cannot be created. *)
Definition fs_read_only : FS :=
  {| os_Open := λ name,
       if bool_decide (name = "ns.txt") then Scanned ["ns1.example"] None
       else if bool_decide (name = "domains.txt") then Scanned ["a.test"; "b.test"] None
       else OpenError "open: no such file or directory";
     os_OpenFile := λ _, Some "open out.txt: permission denied" |}.

Definition flags_list : Flags :=
  {| cloudProvider := "ns.txt"; domain := "ignored.test"; domainsFile := "domains.txt";
     numWorkers := 2; quietMode := false; verboseMode := false;
     outputFile := "" |}.

(** Two host names and one worker, with the resolver given; a resolver for
    which [bad.example] does not resolve, and one that gives the two host
    names of [two_names] different addresses. *)
Definition sched_pair (LookupIP : Resolver) : list REvent :=
  [RCaller; RCaller; RCaller;
   RWorker 0 LookupIP; RWorker 0 LookupIP; RWorker 0 LookupIP;
   RWorker 0 LookupIP; RWorker 0 LookupIP; RWorker 0 LookupIP;
   RWorker 0 LookupIP; RCloser;
   RCaller; RCaller; RCaller].

Definition lookup_mixed : Resolver :=
  λ ns, if bool_decide (ns = "bad.example") then ([], Some "no such host")
        else (["203.0.113.5"], None).

Definition lookup_apart : Resolver :=
  λ ns, if bool_decide (ns = "ns1.example") then (["203.0.113.5"], None)
        else (["203.0.113.6"], None).

Definition mixed_names : list string := ["bad.example"; "ns1.example"].

(** One worker, a domain list of two domains, no output file. *)
Definition flags_list_one : Flags :=
  {| cloudProvider := "ns.txt"; domain := "ignored.test"; domainsFile := "domains.txt";
     numWorkers := 1; quietMode := false; verboseMode := false;
     outputFile := "" |}.

Definition sched_two_queries (Exchange : Network) : list DEvent :=
  [DSend 0; DWorker 0 Exchange; DWorker 0 Exchange;
   DSend 0; DMain; DWorker 0 Exchange; DWorker 0 Exchange; DWorker 0 Exchange;
   DMain; DSink; DMain].

(** * Properties *)

(** ** Formatting *)

Lemma has_byte_app c s1 s2 :
  has_byte c (s1 +:+ s2) = has_byte c s1 || has_byte c s2.
Proof.
  induction s1 as [|x s1 IH]; [done|].
  change (bool_decide (x = c) || has_byte c (s1 +:+ s2)
          = bool_decide (x = c) || has_byte c s1 || has_byte c s2).
  rewrite IH. by rewrite orb_assoc.
Qed.

(** A format without a percent sign is printed as it is. *)
Lemma doPrintf_plain (s : string) :
  has_byte "%" s = false → doPrintf s [] = Some s.
Proof.
  induction s as [|x s IH]; simpl; [done|].
  intros H. apply orb_false_iff in H as [Hx Hs].
  apply bool_decide_eq_false in Hx.
  rewrite (IH Hs). simpl.
  destruct x as [[] [] [] [] [] [] [] []]; try done.
Qed.

Lemma Sprintf_arrow (nsName nsIP domain value ty : string) :
  Sprintf ("[%s (%s)] %s => %s" +:+ LF)
    [ArgString "string" nsName; ArgString "string" nsIP; ArgString "string" domain;
     ArgString ty value]
  = Some (arrow_line nsName nsIP domain value).
Proof.
  unfold Sprintf, arrow_line, str. simpl. reflexivity.
Qed.

Lemma append_empty_r (s : string) : s +:+ "" = s.
Proof.
  induction s as [|x s IH]; [done|].
  change (String x (s +:+ "") = String x s). by rewrite IH.
Qed.

Lemma Sprintf_query (domain nsIP : string) :
  Sprintf "%s|%s" [str domain; str nsIP] = Some (domain +:+ "|" +:+ nsIP).
Proof.
  change (Some (domain +:+ "|" +:+ nsIP +:+ "") = Some (domain +:+ "|" +:+ nsIP)).
  by rewrite append_empty_r.
Qed.

Lemma arrow_line_plain (nsName nsIP domain value : string) :
  has_byte "%" nsName = false → has_byte "%" nsIP = false →
  has_byte "%" domain = false → has_byte "%" value = false →
  has_byte "%" (arrow_line nsName nsIP domain value) = false.
Proof.
  intros H1 H2 H3 H4. unfold arrow_line.
  rewrite !has_byte_app, H1, H2, H3, H4. reflexivity.
Qed.

(** With no percent sign in the name, the address, the domain and the value,
    a record of one of the three recognised types is printed as the line
    [[nsName (nsIP)] domain => value], and the same text goes to the output
    file when it is open. *)
Lemma show_record_plain (fHandle : bool) (nsName nsIP domain : string) (rr : RR)
  (value : string) :
  (rr = dns_A value ∨ rr = dns_AAAA value ∨ rr = dns_CNAME value) →
  has_byte "%" nsName = false → has_byte "%" nsIP = false →
  has_byte "%" domain = false → has_byte "%" value = false →
  show_record fHandle nsName nsIP domain rr =
  (if fHandle then [ToFile (Some (arrow_line nsName nsIP domain value))] else [])
    ++ [ToConsole Green (Some (arrow_line nsName nsIP domain value))].
Proof.
  intros Hrr H1 H2 H3 H4.
  pose proof (arrow_line_plain _ _ _ _ H1 H2 H3 H4) as Hplain.
  unfold show_record.
  destruct Hrr as [-> | [-> | ->]]; cbn [classify outputStr]; unfold str;
    rewrite Sprintf_arrow; cbn [mbind option_bind];
    unfold Sprintf; rewrite (doPrintf_plain _ Hplain); reflexivity.
Qed.

(** ** The line built for a record, and the line printed from it *)

Lemma doPrintf_app_plain (s1 s2 : string) (a : list Arg) :
  has_byte "%" s1 = false →
  doPrintf (s1 +:+ s2) a = (λ out, s1 +:+ out) <$> doPrintf s2 a.
Proof.
  induction s1 as [|x s1 IH]; intros H.
  - change (doPrintf s2 a = (λ out, out) <$> doPrintf s2 a).
    by destruct (doPrintf s2 a).
  - simpl in H. apply orb_false_iff in H as [Hx Hs].
    apply bool_decide_eq_false in Hx.
    change (String x s1 +:+ s2) with (String x (s1 +:+ s2)).
    assert (doPrintf (String x (s1 +:+ s2)) a = String x <$> doPrintf (s1 +:+ s2) a) as ->.
    { simpl. destruct x as [[] [] [] [] [] [] [] []]; try reflexivity. by destruct Hx. }
    rewrite (IH Hs). by destruct (doPrintf s2 a).
Qed.

Lemma built_line_printed (nsName nsIP domain : string) (c : Classified) :
  has_byte "%" nsName = false → has_byte "%" nsIP = false →
  has_byte "%" domain = false →
  Forall (λ field, has_byte "%" field = false) (tag_fields c) →
  Sprintf (built_line nsName nsIP domain c).2 []
  = Some (printed_line nsName nsIP domain c).2.
Proof.
  intros H1 H2 H3 Hfields. unfold Sprintf.
  destruct c as [a|aaaa|target|ty text];
    cbn [built_line printed_line snd tag_fields] in *.
  1-3: apply Forall_cons in Hfields as [Hfield _];
       apply doPrintf_plain; by apply arrow_line_plain.
  apply Forall_cons in Hfields as [Hty Htext].
  apply Forall_cons in Htext as [Htext _].
  assert (∀ s1 s2 s3, (s1 +:+ s2) +:+ s3 = s1 +:+ (s2 +:+ s3)) as Hassoc.
  { intros s1 s2 s3. induction s1 as [|x s1 IH]; [done|].
    change (String x ((s1 +:+ s2) +:+ s3) = String x (s1 +:+ (s2 +:+ s3))).
    by rewrite IH. }
  set (prefix := "[" +:+ nsName +:+ " (" +:+ nsIP +:+ ")] " +:+ domain +:+ LF).
  set (rest := "(EXTRA " +:+ (ty +:+ "=" +:+ text) +:+ ")").
  assert (has_byte "%" prefix = false) as Hprefix.
  { subst prefix. by rewrite !has_byte_app, H1, H2, H3. }
  assert (has_byte "%" rest = false) as Hrest.
  { subst rest. by rewrite !has_byte_app, Hty, Htext. }
  change ("[" +:+ nsName +:+ " (" +:+ nsIP +:+ ")] " +:+ domain +:+ LF
          +:+ "%!(EXTRA " +:+ (ty +:+ "=" +:+ text) +:+ ")")
    with ("[" +:+ nsName +:+ " (" +:+ nsIP +:+ ")] " +:+ domain +:+ LF
          +:+ String "%" (String "!" rest)).
  change ("[" +:+ nsName +:+ " (" +:+ nsIP +:+ ")] " +:+ domain +:+ LF
          +:+ "%!!(MISSING)(EXTRA " +:+ (ty +:+ "=" +:+ text) +:+ ")")
    with ("[" +:+ nsName +:+ " (" +:+ nsIP +:+ ")] " +:+ domain +:+ LF
          +:+ "%!!(MISSING)" +:+ rest).
  assert (∀ tail, "[" +:+ nsName +:+ " (" +:+ nsIP +:+ ")] " +:+ domain +:+ LF +:+ tail
                  = prefix +:+ tail) as Hsplit.
  { intros tail. subst prefix.
    change ("[" +:+ nsName +:+ " (" +:+ nsIP +:+ ")] " +:+ domain +:+ LF +:+ tail)
      with (String "[" (nsName +:+ (" (" +:+ (nsIP +:+ (")] " +:+ (domain +:+ (LF +:+ tail))))))).
    change ("[" +:+ nsName +:+ " (" +:+ nsIP +:+ ")] " +:+ domain +:+ LF)
      with (String "[" (nsName +:+ (" (" +:+ (nsIP +:+ (")] " +:+ (domain +:+ LF)))))).
    change (String "[" (nsName +:+ " (" +:+ nsIP +:+ ")] " +:+ domain +:+ LF) +:+ tail)
      with (String "[" ((nsName +:+ " (" +:+ nsIP +:+ ")] " +:+ domain +:+ LF) +:+ tail)).
    by rewrite !Hassoc. }
  rewrite !Hsplit, doPrintf_app_plain by done.
  assert (doPrintf (String "%" (String "!" rest)) [] = Some ("%!!(MISSING)" +:+ rest)) as ->;
    [|done].
  change (doPrintf (String "%" (String "!" rest)) [])
    with ((λ out, "%!" +:+ String "!" "(MISSING)" +:+ out) <$> doPrintf rest []).
  by rewrite (doPrintf_plain _ Hrest).
Qed.

Lemma outputStr_built (nsName nsIP domain : string) (c : Classified) :
  outputStr nsName nsIP domain c
  = ((built_line nsName nsIP domain c).1, Some (built_line nsName nsIP domain c).2).
Proof.
  destruct c as [a|aaaa|target|ty text]; cbn [outputStr built_line fst snd]; unfold str;
    rewrite ?Sprintf_arrow; reflexivity.
Qed.

(** ** [queryDNS] *)

Lemma Error_no_answer (nameserver : string) :
  Error (Errorf "No answer from nameserver: %s" [ArgString "string" nameserver])
  = Some ("No answer from nameserver: " +:+ nameserver).
Proof.
  change (Some ("No answer from nameserver: " +:+ nameserver +:+ "")
          = Some ("No answer from nameserver: " +:+ nameserver)).
  by rewrite append_empty_r.
Qed.

(** [queryDNS] never returns both a message and an error, nor neither. *)
Lemma queryDNS_one_of (Exchange : Network) (domain nameserver : string) :
  (∃ r, queryDNS Exchange domain nameserver = (Some r, None)) ∨
  (∃ e, queryDNS Exchange domain nameserver = (None, Some e)).
Proof.
  unfold queryDNS. destruct (Exchange _ _) as [r|partial err]; [|eauto].
  case_bool_decide; eauto.
Qed.

(** C4: [queryDNS] returns an answer exactly when the exchange succeeds and
    the response code is success; an error of the exchange is returned as
    that error; a response with another code gives the error
    [No answer from nameserver: <nameserver>]; in both failure cases no
    answer is returned. *)
Theorem queryDNS_answer_iff_exchange_success
  (Exchange : Network) (domain nameserver : string) :
  let sent := Exchange (SetQuestion (Fqdn domain) TypeA) nameserver in
  let got := queryDNS Exchange domain nameserver in
  (∀ r, got.1 = Some r ↔ sent = Responded r ∧ Rcode r = RcodeSuccess)
  ∧ (∀ r, got.1 = Some r → got.2 = None)
  ∧ (∀ partial err, sent = Failed partial err → got = (None, Some (New err)))
  ∧ (∀ r, sent = Responded r → Rcode r ≠ RcodeSuccess →
       ∃ e, got = (None, Some e)
            ∧ Error e = Some ("No answer from nameserver: " +:+ nameserver)).
Proof.
  cbv zeta. unfold queryDNS.
  destruct (Exchange _ _) as [r0|partial0 err0].
  - case_bool_decide as Hcode; simpl; split_and!.
    + intros r; split; [intros H; discriminate H | intros [[= <-] Hok]; contradiction].
    + intros r H; discriminate H.
    + intros partial err H; discriminate H.
    + intros r [= <-] _. eexists; split; [reflexivity | apply Error_no_answer].
    + intros r; split.
      * intros [= <-]. split; [reflexivity | unfold RcodeSuccess in *; lia].
      * by intros [[= <-] _].
    + reflexivity.
    + intros partial err H; discriminate H.
    + intros r [= <-] Hne. unfold RcodeSuccess in *; lia.
  - simpl; split_and!.
    + intros r; split; [intros H; discriminate H | intros [H _]; discriminate H].
    + intros r H; discriminate H.
    + by intros partial err [= _ <-].
    + intros r H; discriminate H.
Qed.

(** ** The result consumer *)

Lemma console_lines_app (out1 out2 : list Print) :
  console_lines (out1 ++ out2) = console_lines out1 ++ console_lines out2.
Proof. apply omap_app. Qed.

Lemma file_lines_app (out1 out2 : list Print) :
  file_lines (out1 ++ out2) = file_lines out1 ++ file_lines out2.
Proof. apply omap_app. Qed.

Lemma console_lines_show_record (fHandle : bool) (nsName nsIP domain : string) (rr : RR) :
  console_lines (show_record fHandle nsName nsIP domain rr) =
  [let '(colour, out) := outputStr nsName nsIP domain (classify rr) in
   (colour, format ← out; Sprintf format [])].
Proof.
  unfold show_record.
  destruct (outputStr nsName nsIP domain (classify rr)) as [colour out].
  by destruct fHandle.
Qed.

Lemma show_result_concat (mapped : gmap string string) (fHandle : bool)
  (result : wrappedAnswer) :
  show_result mapped fHandle result =
  concat (show_record fHandle (default "" (mapped !! nsIP result)) (nsIP result)
            (domain_ result) <$> Answer (answer result)).
Proof.
  unfold show_result. case_bool_decide as Hlen; [done|].
  destruct (Answer (answer result)); [done|]. simpl in Hlen. lia.
Qed.

(** C3: the consumer goes through the answer section in the order of the
    response; an address record is taken as A, a quad-A record as AAAA, a
    canonical-name record as CNAME with its target, any other record as
    Other with its rendering.  Every record gives one console line, at its
    position: the line built for its tag (green with the address or the
    target after the arrow for A, AAAA and CNAME, yellow with the rendering
    for Other), printed by using it as a format; with no percent sign in
    the fields that is the arrow line itself for A, AAAA and CNAME, and for
    Other the yellow line followed by the rendering in the form [fmt] gives
    an operand without a verb. *)
Theorem classification_follows_answer_order
  (mapped : gmap string string) (fHandle : bool) (result : wrappedAnswer) :
  let records := Answer (answer result) in
  let nsName := default "" (mapped !! nsIP result) in
  let built rr := built_line nsName (nsIP result) (domain_ result) (classify rr) in
  let printed rr := printed_line nsName (nsIP result) (domain_ result) (classify rr) in
  (∀ a, classify (dns_A a) = CA a)
  ∧ (∀ aaaa, classify (dns_AAAA aaaa) = CAAAA aaaa)
  ∧ (∀ target, classify (dns_CNAME target) = CCNAME target)
  ∧ (∀ ty text, classify (dns_other ty text) = COther ty text)
  ∧ console_lines (show_result mapped fHandle result)
    = (λ rr, ((built rr).1, Sprintf (built rr).2 [])) <$> records
  ∧ length (console_lines (show_result mapped fHandle result)) = length records
  ∧ (∀ i, console_lines (show_result mapped fHandle result) !! i
          = (λ rr, ((built rr).1, Sprintf (built rr).2 [])) <$> (records !! i))
  ∧ (percent_free nsName → percent_free (nsIP result) → percent_free (domain_ result) →
     Forall (λ rr, Forall percent_free (tag_fields (classify rr))) records →
     console_lines (show_result mapped fHandle result)
     = (λ rr, ((printed rr).1, Some (printed rr).2)) <$> records).
Proof.
  cbv zeta.
  assert (console_lines (show_result mapped fHandle result) =
          (λ rr, ((built_line (default "" (mapped !! nsIP result)) (nsIP result)
                     (domain_ result) (classify rr)).1,
                  Sprintf (built_line (default "" (mapped !! nsIP result)) (nsIP result)
                             (domain_ result) (classify rr)).2 []))
            <$> Answer (answer result)) as Heq.
  { rewrite show_result_concat.
    induction (Answer (answer result)) as [|rr records IH]; [done|].
    rewrite fmap_cons. simpl concat. rewrite console_lines_app, IH.
    by rewrite console_lines_show_record, outputStr_built. }
  split_and!; try done.
  - by rewrite Heq, length_fmap.
  - intros i. by rewrite Heq, list_lookup_fmap.
  - intros Hname Hip Hdomain Hclean. rewrite Heq. clear Heq.
    induction Hclean as [|rr records Hrr _ IH]; [done|].
    rewrite !fmap_cons, IH. f_equal.
    rewrite (built_line_printed _ _ _ _ Hname Hip Hdomain Hrr).
    by destruct (classify rr).
Qed.

(** Whatever is printed, the output file, when it is open, gets the same
    texts as the console, in the same order. *)
Lemma file_duplicates_console (mapped : gmap string string) (result : wrappedAnswer) :
  file_lines (show_result mapped true result)
  = snd <$> console_lines (show_result mapped true result).
Proof.
  rewrite show_result_concat.
  induction (Answer (answer result)) as [|rr records IH]; [done|].
  rewrite fmap_cons. simpl concat.
  rewrite file_lines_app, console_lines_app, fmap_app, IH. f_equal.
  unfold show_record. by destruct (outputStr _ _ _ _).
Qed.

(** C8: on the domain [a%sb.test] the line printed for an A record is not
    [[ns1.example (203.0.113.5)] a%sb.test => 198.51.100.9]: the text built
    by [Sprintf] is used as a format again, for the console and for the
    file.  For a record of another type the operand has no verb in the
    format, and the line is followed by [%!!(MISSING)(EXTRA ...)]. *)
Theorem rendered_line_is_reformatted :
  show_result {["203.0.113.5" := "ns1.example"]} true
    {| nsIP := "203.0.113.5"; domain_ := "a%sb.test";
       answer := {| Rcode := 0; Question := []; Answer := [dns_A "198.51.100.9"] |} |}
  = [ToFile (Some ("[ns1.example (203.0.113.5)] a%!s(MISSING)b.test => 198.51.100.9" +:+ LF));
     ToConsole Green
       (Some ("[ns1.example (203.0.113.5)] a%!s(MISSING)b.test => 198.51.100.9" +:+ LF))]
  ∧ show_result {["203.0.113.5" := "ns1.example"]} true
      {| nsIP := "203.0.113.5"; domain_ := "a.test";
         answer := {| Rcode := 0; Question := [];
                      Answer := [dns_other "*dns.MX" "a.test.	3600	IN	MX	10 mail.a.test."] |} |}
    = [ToFile (Some ("[ns1.example (203.0.113.5)] a.test" +:+ LF +:+
                     "%!!(MISSING)(EXTRA *dns.MX=a.test.	3600	IN	MX	10 mail.a.test.)"));
       ToConsole Yellow
         (Some ("[ns1.example (203.0.113.5)] a.test" +:+ LF +:+
                "%!!(MISSING)(EXTRA *dns.MX=a.test.	3600	IN	MX	10 mail.a.test.)"))].
Proof. split; vm_compute; reflexivity. Qed.

(** ** Splitting a query *)

Lemma Split_no_sep (sep : ascii) (s : string) :
  has_byte sep s = false → Split s sep = [s].
Proof.
  induction s as [|x s IH]; simpl; [done|].
  intros H. apply orb_false_iff in H as [Hx Hs].
  rewrite Hx, (IH Hs). done.
Qed.

Lemma Split_app_sep (sep : ascii) (s1 s2 : string) :
  has_byte sep s1 = false →
  Split (s1 +:+ String sep s2) sep = s1 :: Split s2 sep.
Proof.
  induction s1 as [|x s1 IH]; intros H.
  - change (Split (String sep s2) sep = "" :: Split s2 sep).
    simpl. by rewrite bool_decide_eq_true_2.
  - simpl in H. apply orb_false_iff in H as [Hx Hs].
    change (Split (String x (s1 +:+ String sep s2)) sep = String x s1 :: Split s2 sep).
    simpl. rewrite Hx, (IH Hs). done.
Qed.

Lemma Split_query (domain nsIP : string) :
  has_byte "|" domain = false → has_byte "|" nsIP = false →
  Split (domain +:+ "|" +:+ nsIP) "|" = [domain; nsIP].
Proof.
  intros Hd Hip.
  change (Split (domain +:+ String "|" nsIP) "|" = [domain; nsIP]).
  by rewrite (Split_app_sep _ _ _ Hd), (Split_no_sep _ _ Hip).
Qed.

(** C10: a worker holding a query whose response has the success code and an
    empty answer section forwards the response to the consumer, and the
    consumer writes nothing for it, neither on the console nor in the output
    file. *)
Theorem empty_answer_forwarded_but_silent
  (sh : Shared) (i : nat) (Exchange : Network) (s : DState)
  (domain nsIP : string) (r : Msg) :
  qworkers s !! i = Some (QQuerying (domain +:+ "|" +:+ nsIP)) →
  has_byte "|" domain = false → has_byte "|" nsIP = false →
  Exchange (SetQuestion (Fqdn domain) TypeA) (nsIP +:+ ":53") = Responded r →
  Rcode r = RcodeSuccess → Answer r = [] →
  let result := {| nsIP := nsIP; domain_ := domain; answer := r |} in
  queryDNS Exchange domain (nsIP +:+ ":53") = (Some r, None)
  ∧ show_result (mappedNameservers sh) (fHandle sh) result = []
  ∧ ∃ s1 s2,
      dstep sh (DWorker i Exchange) s = Some s1
      ∧ qworkers s1 !! i = Some (QSending result)
      ∧ dstep sh (DWorker i Exchange) s1 = Some s2
      ∧ delivered s2 = delivered s ++ [result]
      ∧ output s2 = output s.
Proof.
  intros Hw Hd Hip Hex Hcode Hempty result.
  assert (queryDNS Exchange domain (nsIP +:+ ":53") = (Some r, None)) as Hq.
  { unfold queryDNS. rewrite Hex. by rewrite bool_decide_eq_false_2 by (intros H; by apply H). }
  assert (show_result (mappedNameservers sh) (fHandle sh) result = []) as Hshow.
  { unfold show_result, result. simpl. by rewrite Hempty. }
  split; [done|]. split; [done|].
  pose proof (lookup_lt_Some _ _ _ Hw) as Hlt.
  eexists _, _. split.
  { simpl. unfold qworker_step. rewrite Hw, (Split_query _ _ Hd Hip), Hq. reflexivity. }
  simpl. rewrite list_lookup_insert_eq by done. split; [done|].
  split.
  { unfold qworker_step. simpl. rewrite list_lookup_insert_eq by done. reflexivity. }
  simpl. fold result. rewrite Hshow. split; [done|]. by rewrite app_nil_r.
Qed.

Lemma empty_answer_forwarded_but_silent_witness :
  ∃ s1 s2,
    dstep shared_one (DWorker 0 (respond 0 [])) holding_query = Some s1
    ∧ dstep shared_one (DWorker 0 (respond 0 [])) s1 = Some s2
    ∧ length (delivered s2) = 1%nat
    ∧ output s2 = [].
Proof.
  destruct (empty_answer_forwarded_but_silent shared_one 0 (respond 0 []) holding_query
              "a.test" "203.0.113.5"
              {| Rcode := 0; Question := [("a.test.", 1)]; Answer := [] |})
    as (_ & _ & s1 & s2 & H1 & _ & H2 & Hd & Ho);
    [reflexivity | reflexivity | reflexivity | reflexivity | reflexivity | reflexivity |].
  exists s1, s2. rewrite Hd, Ho. repeat split; assumption || reflexivity.
Defined.

(** ** The progress reporter *)

(** C5 (as the program has it): with a stored total of zero the reporter
    still prints its line; the percentage is the quotient of the unguarded
    floating-point division by zero, which is not a number when the
    completed counter is zero as well. *)
Theorem reporter_divides_unguarded (sh : Shared) (s : DState) :
  total s = 0 →
  ∃ s',
    dstep sh DEnter s = Some s'
    ∧ output s' =
        output s ++
        [ToLog (progress s) 0
           (PrimFloat.div (PrimFloat.mul (float64 (progress s)) (float64 100)) (float64 0))]
    ∧ (progress s = 0 → output s' = output s ++ [ToLog 0 0 PrimFloat.nan]).
Proof.
  intros Htotal. eexists. split; [reflexivity|]. simpl. unfold report.
  rewrite Htotal. split; [done|]. intros ->. reflexivity.
Qed.

Lemma reporter_divides_unguarded_witness :
  ∃ s', dstep shared_one DEnter idle_zero = Some s'
        ∧ output s' = [ToLog 0 0 PrimFloat.nan].
Proof.
  destruct (reporter_divides_unguarded shared_one idle_zero) as (s' & Hs & _ & Hnan);
    [reflexivity|].
  exists s'. split; [assumption|]. apply Hnan. reflexivity.
Defined.

(** The claim of C5 fails: with an empty list of name servers the stored
    total is zero; when the operator presses enter the reporter prints its
    line, and the percentage is not a number. *)
Lemma reporter_zero_total_prints_nan :
  ∃ run d,
    main flags_one (fs_with []) sched_none [] sched_enter = Some run
    ∧ querying run = Some d
    ∧ total d = 0
    ∧ output d = [ToLog 0 0 PrimFloat.nan]
    ∧ PrimFloat.is_nan PrimFloat.nan = true.
Proof.
  eexists _, _. split; [vm_compute; reflexivity|]. repeat split; reflexivity.
Qed.

(** ** Start-up *)

(** C9 (as the program has it): with a worker count of zero or less [main]
    ends in the fatal error naming the count, before any list file is
    opened, any name server is resolved and any query is issued; the only
    effect before it is the banner with the version, printed on standard
    output unless quiet mode is on. *)
Theorem nonpositive_workers_rejected_first
  (flags : Flags) (fs : FS) (rsched : list REvent) (order : list string)
  (dsched : list DEvent) :
  numWorkers flags ≤ 0 →
  main flags fs rsched order dsched =
  Some {| effects :=
            (if quietMode flags then []
             else [Println banner; Printf (Some ("[v1.0.1]" +:+ LF +:+ LF))])
            ++ [Fatalf (Some ("Invalid number of workers: " +:+ pretty (numWorkers flags)
                              +:+ ". It must be a positive integer."))];
          resolution := None;
          querying := None |}.
Proof.
  intros Hw. unfold main, startup.
  rewrite bool_decide_eq_true_2 by done.
  reflexivity.
Qed.

Lemma nonpositive_workers_rejected_first_witness :
  main flags_no_worker (fs_with ["ns1.example"]) [] [] [] =
  Some {| effects :=
            [Println banner; Printf (Some ("[v1.0.1]" +:+ LF +:+ LF));
             Fatalf (Some "Invalid number of workers: 0. It must be a positive integer.")];
          resolution := None; querying := None |}.
Proof.
  apply (nonpositive_workers_rejected_first flags_no_worker (fs_with ["ns1.example"]) [] [] []).
  simpl. lia.
Defined.

(** The claim of C9 fails: with a worker count of zero and without the quiet
    flag, the banner and the version are written to standard output before
    the fatal error. *)
Lemma banner_precedes_rejection :
  ∃ run eff,
    main flags_no_worker (fs_with ["ns1.example"]) [] [] [] = Some run
    ∧ quietMode flags_no_worker = false
    ∧ effects run = Println banner :: Printf (Some ("[v1.0.1]" +:+ LF +:+ LF)) :: eff
    ∧ last (effects run)
      = Some (Fatalf (Some "Invalid number of workers: 0. It must be a positive integer.")).
Proof.
  eexists _, _. split; [vm_compute; reflexivity|]. repeat split; reflexivity.
Qed.

(** ** The resolution phase: invariant *)

Lemma concat_fmap_insert {A B} (f : A → list B) (ws : list A) (i : nat) (old new : A) :
  ws !! i = Some old →
  f old ++ concat (f <$> <[i := new]> ws) ≡ₚ f new ++ concat (f <$> ws).
Proof.
  revert i. induction ws as [|w ws IH]; intros [|i] H; simplify_eq/=.
  - solve_Permutation.
  - specialize (IH i H).
    transitivity (f w ++ (f old ++ concat (f <$> <[i := new]> ws))); [solve_Permutation|].
    rewrite IH. solve_Permutation.
Qed.

Lemma sum_list_fmap_insert {A} (g : A → nat) (ws : list A) (i : nat) (old new : A) :
  ws !! i = Some old →
  (sum_list (g <$> <[i := new]> ws) + g old = sum_list (g <$> ws) + g new)%nat.
Proof.
  revert i. induction ws as [|w ws IH]; intros [|i] H; simplify_eq/=; [lia|].
  specialize (IH i H). lia.
Qed.

Lemma elem_of_insert_inv {A} (ws : list A) (i : nat) (x new : A) :
  x ∈ <[i := new]> ws → x = new ∨ x ∈ ws.
Proof.
  intros [j Hj]%list_elem_of_lookup_1.
  apply list_lookup_insert_Some in Hj as [(_ & -> & _) | (_ & Hj)]; [by left|].
  right. by eapply list_elem_of_lookup_2.
Qed.

Lemma forallb_exited (ws : list Worker) :
  forallb exited ws = true ↔ ∀ w, w ∈ ws → w = Exited.
Proof.
  rewrite forallb_forall. split; intros H w Hw.
  - apply list_elem_of_In, H in Hw. by destruct w.
  - apply list_elem_of_In, H in Hw. by subst.
Qed.

Lemma forallb_exited_idle (ws : list Worker) :
  forallb exited ws = true → concat (resolving_of <$> ws) = [] ∧ concat (sending_of <$> ws) = [].
Proof.
  induction ws as [|w ws IH]; simpl; [done|].
  intros [Hw Hws]%andb_true_iff. destruct w; try done.
  simpl. by apply IH.
Qed.

Lemma RInv_init (nameservers : list string) (numWorkers : Z) :
  RInv nameservers numWorkers (rinit nameservers numWorkers).
Proof.
  assert (∀ n, concat (resolving_of <$> replicate n Receiving) = []
               ∧ concat (sending_of <$> replicate n Receiving) = []
               ∧ Exited ∉ replicate n Receiving) as Hrep.
  { induction n as [|n (IH1 & IH2 & IH3)]; simpl.
    - split_and!; try done. by intros H%elem_of_nil.
    - split_and!; try done. rewrite elem_of_cons. intros [H|H]; [done | by apply IH3]. }
  destruct (Hrep (Z.to_nat numWorkers)) as (H1 & H2 & H3).
  constructor; unfold resolving, sending, to_feed; simpl; rewrite ?H1, ?H2; simpl;
    try done.
  - by rewrite length_replicate.
  - by rewrite !app_nil_r.
Qed.

Lemma writes_snoc (l : list (string * string)) (ns ip : string) :
  writes (l ++ [(ns, ip)]) = <[ip := ns]> (writes l).
Proof. unfold writes. by rewrite foldl_app. Qed.

Lemma forallb_exited_lookup (ws : list Worker) (i : nat) (w : Worker) :
  forallb exited ws = true → ws !! i = Some w → w = Exited.
Proof.
  intros Hall Hw. eapply forallb_exited; [exact Hall|]. by eapply list_elem_of_lookup_2.
Qed.

Ltac inv_field :=
  first
    [ done
    | by rewrite length_insert
    | congruence
    | by intros; congruence
    | by intros [? | ?]%elem_of_insert_inv; [done | auto] ].

Ltac inv_fields :=
  constructor; unfold to_feed, resolving, sending; simpl; try inv_field.

(** Every step keeps the invariant. *)
Lemma RInv_step (N : list string) (w : Z) (e : REvent) (s s' : RState) :
  RInv N w s → rstep e s = Some s' → RInv N w s'.
Proof.
  intros [Hcap Hlen Hhosts Hres Hmap Hjc Hex Hcl Hret] Hstep.
  unfold to_feed, resolving, sending in *.
  destruct e as [|i LookupIP|]; simpl in Hstep.
  - unfold caller_step in Hstep.
    destruct (caller s) as [[|ns rest]| |] eqn:Hc.
    + simplify_eq. inv_fields.
      intros H. split; [by apply Hex | done].
    + case_bool_decide as Hroom; [|done]. simplify_eq. inv_fields.
      * rewrite <- Hhosts. solve_Permutation.
      * intros H. destruct (Hex H) as [_ Hclosed]. congruence.
    + destruct (results s) as [|[ns ip] rest] eqn:Hr.
      * destruct (results_closed s) eqn:Hrc; [|done]. simplify_eq. inv_fields.
      * simplify_eq. inv_fields.
        -- rewrite <- Hres. solve_Permutation.
        -- by rewrite writes_snoc, Hmap.
    + done.
  - unfold worker_step in Hstep.
    destruct (workers s !! i) as [old|] eqn:Hw; [|done].
    pose proof (λ new, concat_fmap_insert resolving_of (workers s) i old new Hw) as Hr1.
    pose proof (λ new, concat_fmap_insert sending_of (workers s) i old new Hw) as Hs1.
    assert (old ≠ Exited → results_closed s = false) as Hopen.
    { intros Hne. destruct (results_closed s) eqn:Hrc; [|done].
      destruct Hne. eapply forallb_exited_lookup; [by apply Hcl | done]. }
    destruct old as [|ns|ns ip|]; [| | |done];
      (assert (results_closed s = false) as Hrco by (by apply Hopen); clear Hopen).
    + destruct (jobs s) as [|ns rest] eqn:Hj.
      * destruct (jobs_closed s) eqn:Hjcl; [|done]. simplify_eq.
        specialize (Hr1 Exited). specialize (Hs1 Exited). simpl in Hr1, Hs1.
        inv_fields.
        -- by rewrite Hr1, Hj.
        -- by rewrite Hs1.
      * simplify_eq.
        specialize (Hr1 (Resolving ns)). specialize (Hs1 (Resolving ns)).
        simpl in Hr1, Hs1.
        inv_fields.
        -- rewrite Hr1, <- Hhosts. solve_Permutation.
        -- by rewrite Hs1.
        -- intros [H|H]%elem_of_insert_inv; [done|]. by destruct (Hex H).
    + destruct (resolveNameserver LookupIP ns) as [ip err]. simplify_eq.
      set (sent := match err with Some _ => "" | None => ip end).
      specialize (Hr1 (Sending ns sent)). specialize (Hs1 (Sending ns sent)).
      simpl in Hr1, Hs1.
      inv_fields.
      * rewrite fmap_app. simpl. rewrite <- Hhosts, <- Hr1. solve_Permutation.
      * rewrite Hs1, <- Hres. solve_Permutation.
    + case_bool_decide as Hroom; [|done]. simplify_eq.
      specialize (Hr1 Receiving). specialize (Hs1 Receiving).
      simpl in Hr1, Hs1.
      inv_fields.
      * by rewrite Hr1.
      * rewrite <- Hres, <- Hs1. solve_Permutation.
      * intros Hc. destruct (Hret Hc). congruence.
  - unfold closer_step in Hstep.
    destruct (caller s) eqn:Hc; [done| |].
    all: destruct (forallb exited (workers s)) eqn:Hall; [|done];
      destruct (results_closed s) eqn:Hrc; [done|]; simpl in Hstep; simplify_eq;
      inv_fields.
    intros _. by destruct Hret.
Qed.

Lemma RInv_run (N : list string) (w : Z) (sched : list REvent) (s s' : RState) :
  RInv N w s → rrun sched s = Some s' → RInv N w s'.
Proof.
  revert s. induction sched as [|e sched IH]; intros s Hinv Hrun; simpl in Hrun.
  - by simplify_eq.
  - destruct (rstep e s) as [s1|] eqn:Hstep; [|done]. simpl in Hrun.
    eapply IH; [|exact Hrun]. by eapply RInv_step.
Qed.

Lemma RInv_reachable (N : list string) (w : Z) (sched : list REvent) (s : RState) :
  rrun sched (rinit N w) = Some s → RInv N w s.
Proof. apply RInv_run, RInv_init. Qed.
(** ** The resolution phase: termination *)

Lemma rmeasure_step (e : REvent) (s s' : RState) :
  rstep e s = Some s' → rmeasure s = S (rmeasure s').
Proof.
  intros Hstep. unfold rmeasure.
  destruct e as [|i LookupIP|]; simpl in Hstep.
  - unfold caller_step in Hstep.
    destruct (caller s) as [[|ns rest]| |] eqn:Hc.
    + simplify_eq. simpl. rewrite ?Hc. simpl. lia.
    + case_bool_decide; [|done]. simplify_eq. simpl. rewrite ?Hc, ?length_app. simpl. lia.
    + destruct (results s) as [|[ns ip] rest] eqn:Hr.
      * destruct (results_closed s) eqn:Hrc; [|done]. simplify_eq. simpl.
        rewrite ?Hc, ?Hr, ?Hrc. simpl. lia.
      * simplify_eq. simpl. rewrite ?Hc, ?Hr. simpl. lia.
    + done.
  - unfold worker_step in Hstep.
    destruct (workers s !! i) as [old|] eqn:Hw; [|done].
    pose proof (λ new, sum_list_fmap_insert worker_weight (workers s) i old new Hw) as Hsum.
    destruct old as [|ns|ns ip|]; [| | |done].
    + destruct (jobs s) as [|ns rest] eqn:Hj.
      * destruct (jobs_closed s); [|done]. simplify_eq. simpl.
        specialize (Hsum Exited). simpl in Hsum. rewrite ?Hj. simpl. lia.
      * simplify_eq. simpl. specialize (Hsum (Resolving ns)). simpl in Hsum. lia.
    + destruct (resolveNameserver LookupIP ns) as [ip err]. simplify_eq. simpl.
      specialize (Hsum (Sending ns match err with Some _ => "" | None => ip end)).
      simpl in Hsum. lia.
    + case_bool_decide; [|done]. simplify_eq. simpl.
      specialize (Hsum Receiving). simpl in Hsum. rewrite length_app. simpl. lia.
  - unfold closer_step in Hstep.
    destruct (caller s) eqn:Hc; [done| |].
    all: destruct (forallb exited (workers s)); [|done];
      destruct (results_closed s) eqn:Hrc; [done|]; simpl in Hstep; simplify_eq;
      simpl; rewrite ?Hc, ?Hrc; simpl; lia.
Qed.



(** ** The resolution phase: no deadlock *)

Lemma forallb_exited_false (ws : list Worker) :
  forallb exited ws = false → ∃ i w, ws !! i = Some w ∧ exited w = false.
Proof.
  induction ws as [|w ws IH]; simpl; [done|].
  destruct (exited w) eqn:Hw; simpl.
  - intros H. destruct (IH H) as (i & w' & Hi & Hw'). by exists (S i), w'.
  - intros _. by exists 0%nat, w.
Qed.

Lemma sending_nonempty (ws : list Worker) (i : nat) (ns ip : string) :
  ws !! i = Some (Sending ns ip) → (0 < length (concat (sending_of <$> ws)))%nat.
Proof.
  revert i. induction ws as [|w ws IH]; intros [|i] H; simplify_eq/=; [lia|].
  rewrite length_app. specialize (IH i H). lia.
Qed.

Lemma RInv_can_move (N : list string) (w : Z) (s : RState) :
  RInv N w s → returned s = false → can_move s.
Proof.
  intros [Hcap Hlen Hhosts Hres Hmap Hjc Hex Hcl Hret] Hnr.
  unfold to_feed, resolving, sending, returned, can_move in *.
  apply Permutation_length in Hhosts, Hres.
  repeat rewrite length_app in Hhosts. rewrite length_fmap in Hhosts.
  repeat rewrite length_app in Hres.
  destruct (caller s) as [[|ns rest]| |] eqn:Hc; [| | |done].
  - left. simpl. unfold caller_step. rewrite Hc. by eexists.
  - left. simpl. unfold caller_step. rewrite Hc.
    rewrite bool_decide_eq_true_2; [by eexists|]. simpl in Hhosts. lia.
  - destruct (results s) as [|[ns ip] rest] eqn:Hr.
    + destruct (results_closed s) eqn:Hrc.
      { left. simpl. unfold caller_step. rewrite Hc, Hr, Hrc. by eexists. }
      destruct (forallb exited (workers s)) eqn:Hall.
      { right; left. simpl. unfold closer_step. rewrite Hc, Hall, Hrc. simpl. by eexists. }
      right; right.
      destruct (forallb_exited_false _ Hall) as (i & w0 & Hw & Hw0).
      exists i. intros LookupIP. simpl. unfold worker_step. rewrite Hw.
      destruct w0 as [|ns|ns ip|]; [| | |done].
      * destruct (jobs s); [|by eexists]. rewrite Hjc. by eexists.
      * destruct (resolveNameserver LookupIP ns). by eexists.
      * rewrite bool_decide_eq_true_2; [by eexists|].
        pose proof (sending_nonempty _ _ _ _ Hw). rewrite Hr. simpl in *. lia.
    + left. simpl. unfold caller_step. rewrite Hc, Hr. by eexists.
Qed.

(** From every state of a run the phase can be brought to its [return]. *)
Lemma RInv_completes (N : list string) (w : Z) (s : RState) :
  RInv N w s → ∃ sched s', rrun sched s = Some s' ∧ returned s' = true.
Proof.
  remember (rmeasure s) as n eqn:Hn. revert s Hn.
  induction n as [|n IH]; intros s Hn Hinv.
  - destruct (returned s) eqn:Hr; [by exists [], s|].
    destruct (RInv_can_move _ _ _ Hinv Hr) as [[s1 H1] | [[s1 H1] | [i Hi]]].
    + apply rmeasure_step in H1. lia.
    + apply rmeasure_step in H1. lia.
    + destruct (Hi (λ _, ([], None))) as [s1 H1]. apply rmeasure_step in H1. lia.
  - destruct (returned s) eqn:Hr; [by exists [], s|].
    assert (∃ e s1, rstep e s = Some s1) as (e & s1 & H1).
    { destruct (RInv_can_move _ _ _ Hinv Hr) as [[s1 H1] | [[s1 H1] | [i Hi]]]; eauto.
      destruct (Hi (λ _, ([], None))) as [s1 H1]. eauto. }
    pose proof (rmeasure_step _ _ _ H1) as Hm.
    destruct (IH s1) as (sched & s' & Hrun & Hret); [lia | by eapply RInv_step |].
    exists (e :: sched), s'. simpl. rewrite H1. simpl. done.
Qed.

(** ** The resolution phase: what has happened at the [return] *)

Lemma RInv_returned (N : list string) (w : Z) (s : RState) :
  RInv N w s → returned s = true →
  written s ≡ₚ attempted s ∧ (0 < w → (attempted s).*1 ≡ₚ N).
Proof.
  intros [Hcap Hlen Hhosts Hres Hmap Hjc Hex Hcl Hret] Hr.
  unfold to_feed, resolving, sending, returned in *.
  destruct (caller s) eqn:Hc; try done.
  destruct (Hret eq_refl) as [Hempty Hclosed].
  pose proof (Hcl Hclosed) as Hall.
  destruct (forallb_exited_idle _ Hall) as [Hr0 Hs0].
  rewrite Hr0 in Hhosts. rewrite Hs0, Hempty in Hres. simpl in *.
  split; [done|]. intros Hw.
  destruct (workers s) as [|w0 ws] eqn:Hws; [simpl in Hlen; lia|].
  assert (w0 = Exited) as ->.
  { eapply (forallb_exited_lookup _ 0); [exact Hall | done]. }
  destruct Hex as [Hj _]; [by left|]. by rewrite Hj in Hhosts.
Qed.

Lemma writes_lookup (l : list (string * string)) (ip : string) :
  writes l !! ip = last_writer ip l.
Proof.
  induction l as [|[ns ip'] l IH] using rev_ind; [done|].
  rewrite writes_snoc. unfold last_writer in *. rewrite filter_app.
  destruct (decide (ip' = ip)) as [->|Hne].
  - rewrite lookup_insert_eq, filter_cons_True by done.
    rewrite filter_nil. by rewrite last_snoc.
  - rewrite lookup_insert_ne, filter_cons_False by done.
    rewrite filter_nil, app_nil_r. done.
Qed.
(** ** The log of the resolution phase and the calls of the resolver *)

Lemma address_of_cases (out : list IP * option string) :
  (lookup_found out (address_of out) ∧ ¬ lookup_failed out)
  ∨ (lookup_failed out ∧ address_of out = "").
Proof.
  destruct out as [[|ip ips] [err|]]; simpl.
  - right. split; [by left | done].
  - right. split; [by right | done].
  - right. split; [by left | done].
  - left. split; [by exists ips|]. by intros [?|?].
Qed.

Lemma address_of_failed (out : list IP * option string) :
  lookup_failed out → address_of out = "".
Proof. destruct (address_of_cases out) as [[_ ?]|[_ ?]]; [done|done]. Qed.

Lemma address_of_found (out : list IP * option string) (ip : IP) :
  lookup_found out ip → address_of out = ip.
Proof. by intros [ips ->]. Qed.

(** One step adds to the log the host name looked up, with the address
    that belongs to what the resolver returned. *)
Lemma attempted_step (e : REvent) (s s' : RState) :
  rstep e s = Some s' →
  attempted s' = attempted s ++ ((λ l : Lookup, (l.1, address_of l.2)) <$> lookup_of e s).
Proof.
  intros Hstep. destruct e as [|i LookupIP|]; simpl in *.
  - rewrite app_nil_r. unfold caller_step in Hstep.
    destruct (caller s) as [[|ns rest]| |]; try done.
    + by simplify_eq.
    + case_bool_decide; by simplify_eq.
    + destruct (results s) as [|[ns ip] rest]; [destruct (results_closed s)|];
        by simplify_eq.
  - unfold worker_step in Hstep.
    destruct (workers s !! i) as [[|ns|ns ip|]|]; try done; simpl.
    + rewrite app_nil_r. destruct (jobs s); [destruct (jobs_closed s)|]; by simplify_eq.
    + unfold resolveNameserver in Hstep.
      destruct (LookupIP ns) as [[|ip ips] [err|]]; by simplify_eq.
    + rewrite app_nil_r. case_bool_decide; by simplify_eq.
  - rewrite app_nil_r. unfold closer_step in Hstep.
    destruct (caller s); try done;
      destruct (forallb exited (workers s) && negb (results_closed s)); by simplify_eq.
Qed.

Lemma attempted_run (sched : list REvent) (s s' : RState) :
  rrun sched s = Some s' →
  attempted s' = attempted s ++ ((λ l : Lookup, (l.1, address_of l.2)) <$> lookups sched s).
Proof.
  revert s. induction sched as [|e sched IH]; intros s Hrun; simpl in *.
  - simplify_eq. by rewrite app_nil_r.
  - destruct (rstep e s) as [s1|] eqn:Hstep; [|done]. simpl in Hrun.
    rewrite (IH _ Hrun), (attempted_step _ _ _ Hstep), fmap_app. by rewrite app_assoc.
Qed.

Lemma attempted_lookups (nameservers : list string) (numWorkers : Z)
  (sched : list REvent) (s : RState) :
  rrun sched (rinit nameservers numWorkers) = Some s →
  attempted s
  = (λ l : Lookup, (l.1, address_of l.2)) <$> lookups sched (rinit nameservers numWorkers).
Proof. intros Hrun. by rewrite (attempted_run _ _ _ Hrun). Qed.

(** An entry of the log is a call, and the address logged is the first
    address found, or the empty string after a failed lookup. *)
Lemma attempted_call (nameservers : list string) (numWorkers : Z)
  (sched : list REvent) (s : RState) (ns ip : string) :
  rrun sched (rinit nameservers numWorkers) = Some s →
  (ns, ip) ∈ attempted s →
  ∃ out, (ns, out) ∈ lookups sched (rinit nameservers numWorkers)
         ∧ ((lookup_found out ip ∧ ¬ lookup_failed out)
            ∨ (lookup_failed out ∧ ip = "")).
Proof.
  intros Hrun Hin. rewrite (attempted_lookups _ _ _ _ Hrun) in Hin.
  apply list_elem_of_fmap in Hin as ([ns' out] & [= -> ->] & Hin).
  exists out. split; [done|]. apply address_of_cases.
Qed.

Lemma call_attempted (nameservers : list string) (numWorkers : Z)
  (sched : list REvent) (s : RState) (ns : string) (out : list IP * option string) :
  rrun sched (rinit nameservers numWorkers) = Some s →
  (ns, out) ∈ lookups sched (rinit nameservers numWorkers) →
  (ns, address_of out) ∈ attempted s.
Proof.
  intros Hrun Hin. rewrite (attempted_lookups _ _ _ _ Hrun).
  apply list_elem_of_fmap. by exists (ns, out).
Qed.

(** ** The resolution phase: the claims *)

Lemma rrun_app (sched1 sched2 : list REvent) (s : RState) :
  rrun (sched1 ++ sched2) s = s' ← rrun sched1 s; rrun sched2 s'.
Proof.
  revert s. induction sched1 as [|e sched1 IH]; intros s; simpl; [done|].
  destruct (rstep e s) as [s1|]; simpl; [apply IH | done].
Qed.

Lemma last_writer_elem (l : list (string * string)) (ns ip : string) :
  (ns, ip) ∈ l → ∃ ns', last_writer ip l = Some ns' ∧ (ns', ip) ∈ l.
Proof.
  intros Hin. unfold last_writer.
  assert ((ns, ip) ∈ filter (λ r, r.2 = ip) l) as Hf by (by apply list_elem_of_filter).
  destruct (last (filter (λ r, r.2 = ip) l)) as [[ns' ip']|] eqn:Hlast.
  - apply last_Some_elem_of, list_elem_of_filter in Hlast as [Hip Hl].
    simpl in Hip. subst. by exists ns'.
  - apply last_None in Hlast. rewrite Hlast in Hf. by apply elem_of_nil in Hf.
Qed.

(** At the [return], an address some lookup produced is a key of the map,
    mapped to a host name that produced it. *)
Lemma RInv_kept (N : list string) (w : Z) (s : RState) (ns ip : string) :
  RInv N w s → returned s = true → (ns, ip) ∈ attempted s →
  ∃ ns', resultsMap s !! ip = Some ns' ∧ (ns', ip) ∈ attempted s.
Proof.
  intros Hinv Hret Hin.
  destruct (RInv_returned _ _ _ Hinv Hret) as [Hwritten _].
  rewrite <- Hwritten in Hin.
  destruct (last_writer_elem _ _ _ Hin) as (ns' & Hns' & Hin').
  exists ns'. rewrite (inv_map _ _ _ Hinv), writes_lookup.
  split; [done|]. by rewrite <- Hwritten.
Qed.



(** C6: the keys of the map are unique, and each address present is mapped
    to the host name of the last message written for it; a run never gets
    stuck, and at the [return] every lookup has been written, so an address
    several host names resolved to keeps exactly one of them. *)
Theorem last_writer_wins
  (nameservers : list string) (numWorkers : Z) (sched : list REvent) (s : RState) :
  rrun sched (rinit nameservers numWorkers) = Some s →
  NoDup (map_to_list (resultsMap s)).*1
  ∧ (∀ ip, resultsMap s !! ip = last_writer ip (written s))
  ∧ (∃ sched' s',
        rrun (sched ++ sched') (rinit nameservers numWorkers) = Some s'
        ∧ returned s' = true)
  ∧ (returned s = true →
       written s ≡ₚ attempted s
       ∧ ∀ ns ip, (ns, ip) ∈ attempted s →
           ∃ ns', resultsMap s !! ip = Some ns' ∧ (ns', ip) ∈ attempted s).
Proof.
  intros Hrun.
  pose proof (RInv_reachable _ _ _ _ Hrun) as Hinv.
  assert (∀ ip, resultsMap s !! ip = last_writer ip (written s)) as Hlast.
  { intros ip. rewrite (inv_map _ _ _ Hinv). apply writes_lookup. }
  split_and!.
  - apply NoDup_fst_map_to_list.
  - done.
  - destruct (RInv_completes _ _ _ Hinv) as (sched' & s' & Hrun' & Hret).
    exists sched', s'. rewrite rrun_app, Hrun. done.
  - intros Hret.
    destruct (RInv_returned _ _ _ Hinv Hret) as [Hwritten _].
    split; [done|]. intros ns ip Hin. by eapply RInv_kept.
Qed.

Lemma last_writer_wins_witness :
  ∃ s, rrun sched_two (rinit two_names 1) = Some s
       ∧ resultsMap s !! "203.0.113.5" = Some "ns2.example"
       ∧ size (resultsMap s) = 1%nat.
Proof.
  destruct (rrun sched_two (rinit two_names 1)) as [s|] eqn:Hrun;
    [|by vm_compute in Hrun].
  exists s.
  destruct (last_writer_wins two_names 1 sched_two s Hrun) as (_ & Hlast & _ & _).
  split; [reflexivity|]. rewrite Hlast.
  vm_compute in Hrun. injection Hrun as <-. split; vm_compute; reflexivity.
Defined.

(** ** The query phase: invariant *)

Lemma int32_add_l (a b : Z) : int32 (int32 a + b) = int32 (a + b).
Proof.
  unfold int32. f_equal.
  replace ((a + 2 ^ 31) mod 2 ^ 32 - 2 ^ 31 + b + 2 ^ 31)
    with ((a + 2 ^ 31) mod 2 ^ 32 + b) by lia.
  rewrite Z.add_mod_idemp_l by lia. f_equal. lia.
Qed.

Lemma forallb_qexited_lookup (ws : list QWorker) (i : nat) (w : QWorker) :
  forallb qexited ws = true → ws !! i = Some w → w = QExited.
Proof.
  revert i. induction ws as [|w0 ws IH]; intros [|i] Hall Hw; simplify_eq/=.
  - apply andb_true_iff in Hall as [H _]. by destruct w.
  - apply andb_true_iff in Hall as [_ H]. by eapply IH.
Qed.

Lemma forallb_qexited_idle (ws : list QWorker) :
  forallb qexited ws = true → concat (querying_of <$> ws) = [].
Proof.
  induction ws as [|w ws IH]; simpl; [done|].
  intros [Hw Hws]%andb_true_iff. destruct w; try done. simpl. by apply IH.
Qed.

Lemma DInv_init (order domainsList : list string) (numWorkers sampleSize : Z) :
  DInv (dispatch_queries order domainsList)
    (dinit order domainsList numWorkers sampleSize).
Proof.
  assert (∀ n, concat (querying_of <$> replicate n QReceiving) = []) as Hrep.
  { induction n as [|n IH]; simpl; [done|]. done. }
  constructor; unfold pending, in_flight; simpl; try done.
  by rewrite Hrep, !app_nil_r.
Qed.

Ltac dinv_fields := constructor; unfold pending, in_flight; simpl; try done.

Lemma DInv_step (sh : Shared) (queries : list string) (e : DEvent) (s s' : DState) :
  DInv queries s → dstep sh e s = Some s' → DInv queries s'.
Proof.
  intros [Hiss Hprog Hdr] Hstep. unfold pending, in_flight in *.
  destruct e as [i| |i Exchange| |]; simpl in Hstep.
  - unfold send_step in Hstep.
    destruct (dispatcher s) as [[|query rest]| | |] eqn:Hd; try done.
    destruct (qworkers s !! i) as [[| | |]|] eqn:Hw; try done. simplify_eq.
    pose proof (concat_fmap_insert querying_of _ _ _ (QQuerying query) Hw) as Hq.
    simpl in Hq. dinv_fields.
    rewrite <- Hiss. f_equiv. f_equiv. rewrite Hq. solve_Permutation.
  - unfold main_step in Hstep.
    destruct (dispatcher s) as [[|query rest]| | |] eqn:Hd; try done.
    + simplify_eq. dinv_fields.
    + destruct (forallb qexited (qworkers s)) eqn:Hall; [|done]. simplify_eq.
      dinv_fields.
    + destruct (sink_done s); [|done]. simplify_eq. dinv_fields.
  - unfold qworker_step in Hstep.
    destruct (qworkers s !! i) as [old|] eqn:Hw; [|done].
    pose proof (λ new, concat_fmap_insert querying_of (qworkers s) i old new Hw) as Hq.
    assert (old ≠ QExited →
            match dispatcher s with WaitSink | Finished => False | _ => True end) as Hopen.
    { intros Hne. destruct (dispatcher s); try done.
      all: destruct Hne; by eapply forallb_qexited_lookup. }
    destruct old as [|query|result|]; [| | |done]; specialize (Hopen ltac:(done)).
    + destruct (dispatcher s) eqn:Hd; try done. simplify_eq.
      specialize (Hq QExited). simpl in Hq. dinv_fields. by rewrite Hq.
    + assert (∀ new, querying_of new = [] →
                omap parse_query
                  (match dispatcher s with Dispatching l => l | _ => [] end
                   ++ concat (querying_of <$> <[i := new]> (qworkers s)))
                ++ option_list (parse_query query) ++ issued s
                ≡ₚ omap parse_query queries) as Hnext.
      { intros new Hnew. specialize (Hq new). rewrite Hnew in Hq. simpl in Hq.
        rewrite <- Hiss, <- Hq.
        set (P := match dispatcher s with Dispatching l => l | _ => [] end).
        set (X := concat (querying_of <$> <[i := new]> (qworkers s))).
        assert (omap parse_query (P ++ query :: X)
                ≡ₚ option_list (parse_query query) ++ omap parse_query (P ++ X)) as ->.
        { rewrite <- Permutation_middle. simpl. by destruct (parse_query query). }
        solve_Permutation. }
      unfold parse_query in Hnext.
      destruct (Split query "|") as [|domain [|nsIP [|part parts]]] eqn:Hsplit.
      1, 2, 4: (simplify_eq; dinv_fields; [by apply (Hnext QReceiving) | by destruct (dispatcher s)]).
      destruct (queryDNS Exchange domain (nsIP +:+ ":53")) as [resp [err|]].
      * simplify_eq. dinv_fields.
        -- rewrite <- (Hnext QReceiving) by done. simpl. solve_Permutation.
        -- rewrite Hprog, int32_add_l, length_app. simpl. f_equal. lia.
        -- by destruct (dispatcher s).
      * destruct resp as [resp|]; [|done]. simplify_eq. dinv_fields.
        -- rewrite <- (Hnext (QSending {| nsIP := nsIP; domain_ := domain; answer := resp |}))
             by done.
           simpl. solve_Permutation.
        -- rewrite Hprog, int32_add_l, length_app. simpl. f_equal. lia.
        -- by destruct (dispatcher s).
    + simplify_eq. specialize (Hq QReceiving). simpl in Hq. dinv_fields.
      * by rewrite Hq.
      * by destruct (dispatcher s).
  - unfold sink_step in Hstep.
    destruct (dispatcher s) eqn:Hd; try done.
    destruct (sink_done s); [done|]. simplify_eq. dinv_fields.
  - unfold enter_step in Hstep. simplify_eq. dinv_fields.
Qed.

Lemma DInv_run (sh : Shared) (queries : list string) (sched : list DEvent)
  (s s' : DState) :
  DInv queries s → drun sh sched s = Some s' → DInv queries s'.
Proof.
  revert s. induction sched as [|e sched IH]; intros s Hinv Hrun; simpl in Hrun.
  - by simplify_eq.
  - destruct (dstep sh e s) as [s1|] eqn:Hstep; [|done]. simpl in Hrun.
    eapply IH; [|exact Hrun]. by eapply DInv_step.
Qed.

Lemma total_step (sh : Shared) (e : DEvent) (s s' : DState) :
  dstep sh e s = Some s' → total s' = total s.
Proof.
  destruct e as [i| |i Exchange| |]; simpl.
  - unfold send_step. destruct (dispatcher s) as [[|? ?]| | |]; try done.
    destruct (qworkers s !! i) as [[| | |]|]; try done. by intros [= <-].
  - unfold main_step. destruct (dispatcher s) as [[|? ?]| | |]; try done.
    + by intros [= <-].
    + destruct (forallb qexited (qworkers s)); [|done]. by intros [= <-].
    + destruct (sink_done s); [|done]. by intros [= <-].
  - unfold qworker_step. destruct (qworkers s !! i) as [[|query|result|]|]; try done.
    + destruct (dispatcher s); try done; by intros [= <-].
    + destruct (Split query "|") as [|domain [|nsIP [|part parts]]]; try by intros [= <-].
      destruct (queryDNS Exchange domain (nsIP +:+ ":53")) as [[resp|] [err|]];
        try done; by intros [= <-].
    + by intros [= <-].
  - unfold sink_step. destruct (dispatcher s); try done.
    destruct (sink_done s); [done|]. by intros [= <-].
  - unfold enter_step. by intros [= <-].
Qed.

Lemma total_run (sh : Shared) (sched : list DEvent) (s s' : DState) :
  drun sh sched s = Some s' → total s' = total s.
Proof.
  revert s. induction sched as [|e sched IH]; intros s Hrun; simpl in Hrun.
  - by simplify_eq.
  - destruct (dstep sh e s) as [s1|] eqn:Hstep; [|done]. simpl in Hrun.
    rewrite (IH _ Hrun). by eapply total_step.
Qed.

(** Once the query phase is over, the calls of [queryDNS] are the queries of
    the dispatch loop that split in two, each made once. *)
Lemma DInv_finished (queries : list string) (s : DState) :
  DInv queries s → finished s = true → issued s ≡ₚ omap parse_query queries.
Proof.
  intros [Hiss _ Hdr] Hfin. unfold finished, pending, in_flight in *.
  destruct (dispatcher s); try done.
  by rewrite (forallb_qexited_idle _ Hdr) in Hiss.
Qed.

(** ** The queries of the dispatch loop *)

Lemma Split_nonempty (s : string) (sep : ascii) : Split s sep ≠ [].
Proof.
  destruct s as [|c s]; simpl; [done|].
  case_bool_decide; [done|]. by destruct (Split s sep).
Qed.

Lemma Split_one (s : string) (sep : ascii) (y : string) :
  Split s sep = [y] → y = s ∧ has_byte sep s = false.
Proof.
  revert y. induction s as [|c s IH]; intros y; simpl.
  - by intros [= <-].
  - case_bool_decide as Hc.
    + intros [= _ H]. by destruct (Split_nonempty s sep).
    + destruct (Split s sep) as [|p ps] eqn:Hs; [by destruct (Split_nonempty s sep)|].
      intros [= <- ->]. destruct (IH p eq_refl) as [-> Hno].
      by split.
Qed.

Lemma Split_two (a b : string) (sep : ascii) (x y : string) :
  Split (a +:+ String sep b) sep = [x; y] →
  x = a ∧ y = b ∧ has_byte sep a = false ∧ has_byte sep b = false.
Proof.
  revert x. induction a as [|c a IH]; intros x.
  - change ("" +:+ String sep b) with (String sep b). simpl.
    rewrite bool_decide_eq_true_2 by done. intros [= <- H].
    by destruct (Split_one _ _ _ H) as [-> ?].
  - change (String c a +:+ String sep b) with (String c (a +:+ String sep b)). simpl.
    case_bool_decide as Hc.
    + intros [= _ H]. destruct (Split_one _ _ _ H) as [_ Hno].
      rewrite has_byte_app in Hno. simpl in Hno.
      rewrite bool_decide_eq_true_2 in Hno by done.
      by rewrite orb_true_r in Hno.
    + destruct (Split (a +:+ String sep b) sep) as [|p ps] eqn:Hs; [done|].
      intros [= <- ->]. destruct (IH p eq_refl) as (-> & -> & Ha & Hb).
      by split_and!.
Qed.

Lemma parse_query_Some (domain nsIP : string) (pair : string * string) :
  parse_query (domain +:+ "|" +:+ nsIP) = Some pair →
  pair = (domain, nsIP +:+ ":53")
  ∧ has_byte "|" domain = false ∧ has_byte "|" nsIP = false.
Proof.
  unfold parse_query.
  change (domain +:+ "|" +:+ nsIP) with (domain +:+ String "|" nsIP).
  destruct (Split _ _) as [|x [|y [|z zs]]] eqn:Hs; try done.
  intros [= <-]. by destruct (Split_two _ _ _ _ _ Hs) as (-> & -> & ? & ?).
Qed.

Lemma parse_query_plain (domain nsIP : string) :
  has_byte "|" domain = false → has_byte "|" nsIP = false →
  parse_query (domain +:+ "|" +:+ nsIP) = Some (domain, nsIP +:+ ":53").
Proof. intros Hd Hip. unfold parse_query. by rewrite Split_query. Qed.

Lemma omap_Some_fmap {A B} (f : A → option B) (g : A → B) (l : list A) :
  (∀ x, f x = Some (g x)) → omap f l = g <$> l.
Proof.
  intros H. induction l as [|x l IH]; [done|].
  csimpl. by rewrite H, IH.
Qed.

Lemma queries_for_eq (domainsList : list string) (nsIP : string) :
  queries_for domainsList nsIP =
  if bool_decide (nsIP = "") then []
  else (λ domain, domain +:+ "|" +:+ nsIP) <$> domainsList.
Proof.
  unfold queries_for. case_bool_decide; [done|].
  apply omap_Some_fmap. intros domain. apply Sprintf_query.
Qed.

Lemma elem_of_concat {A} (ls : list (list A)) (x : A) :
  x ∈ concat ls ↔ ∃ l, x ∈ l ∧ l ∈ ls.
Proof.
  induction ls as [|l0 ls IH]; simpl.
  - split; [by intros H%elem_of_nil | by intros (l & _ & H%elem_of_nil)].
  - rewrite elem_of_app, IH. split.
    + intros [H | (l & H1 & H2)]; [exists l0 | exists l]; split; try done.
      * by left.
      * by right.
    + intros (l & H1 & [-> | H2]%elem_of_cons); [by left | right; by exists l].
Qed.

Lemma elem_of_dispatch_queries (order domainsList : list string) (query : string) :
  query ∈ dispatch_queries order domainsList ↔
  ∃ domain nsIP, query = domain +:+ "|" +:+ nsIP
                 ∧ domain ∈ domainsList ∧ nsIP ∈ order ∧ nsIP ≠ "".
Proof.
  unfold dispatch_queries. rewrite elem_of_concat. split.
  - intros (l & Hq & Hl). apply list_elem_of_fmap in Hl as (nsIP & -> & Hin).
    rewrite queries_for_eq in Hq. case_bool_decide as Hempty; [by apply elem_of_nil in Hq|].
    apply list_elem_of_fmap in Hq as (domain & -> & Hd). by exists domain, nsIP.
  - intros (domain & nsIP & -> & Hd & Hin & Hne).
    exists (queries_for domainsList nsIP). split.
    + rewrite queries_for_eq, bool_decide_eq_false_2 by done.
      apply list_elem_of_fmap. by exists domain.
    + apply list_elem_of_fmap. by exists nsIP.
Qed.

Lemma length_dispatch_queries (order domainsList : list string) :
  length (dispatch_queries order domainsList)
  = (length domainsList * length (filter (λ nsIP, nsIP ≠ "") order))%nat.
Proof.
  unfold dispatch_queries. induction order as [|nsIP order IH]; [simpl; lia|].
  rewrite fmap_cons. cbn [concat]. rewrite length_app, IH, queries_for_eq.
  case_bool_decide as Hempty.
  - by rewrite filter_cons_False by (by intros H; apply H).
  - rewrite filter_cons_True by done. rewrite length_fmap. simpl length.
    rewrite Nat.mul_succ_r. lia.
Qed.

Lemma length_omap_le {A B} (f : A → option B) (l : list A) :
  (length (omap f l) ≤ length l)%nat.
Proof. induction l as [|x l IH]; csimpl; [lia|]. destruct (f x); csimpl; lia. Qed.

(** With no bar in the domains and in the keys, the queries that split in
    two are the whole cross product. *)
Lemma parse_dispatch_queries (order domainsList : list string) :
  (∀ x, x ∈ domainsList ++ order → has_byte "|" x = false) →
  omap parse_query (dispatch_queries order domainsList)
  = cross_product order domainsList.
Proof.
  intros Hbar. unfold dispatch_queries, cross_product.
  induction order as [|nsIP order IH]; [done|].
  rewrite fmap_cons. cbn [concat]. rewrite omap_app, IH, queries_for_eq.
  2: { intros x Hx. apply Hbar.
       apply elem_of_app in Hx as [Hx|Hx]; apply elem_of_app; [by left | right; by right]. }
  case_bool_decide as Hempty.
  - by rewrite filter_cons_False by (by intros H; apply H).
  - rewrite filter_cons_True by done. simpl. f_equal.
    assert (has_byte "|" nsIP = false) as Hip by (apply Hbar; set_solver).
    assert (∀ d, d ∈ domainsList → has_byte "|" d = false) as Hd
      by (intros d Hin; apply Hbar; set_solver).
    clear -Hip Hd. induction domainsList as [|d ds IHd]; [done|].
    simpl. rewrite parse_query_plain by (done || apply Hd; set_solver).
    f_equal. apply IHd. intros d' Hin. apply Hd. set_solver.
Qed.

(** ** The whole program *)

Lemma startup_Some (flags : Flags) (fs : FS) (eff : list Effect)
  (lists : list string * list string) :
  startup flags fs = (eff, Some lists) → 0 < numWorkers flags.
Proof.
  unfold startup. case_bool_decide as Hw; [done|]. intros _. lia.
Qed.

(** A run of [main] that reached the resolution phase. *)
Lemma main_resolution (flags : Flags) (fs : FS) (rsched : list REvent)
  (order : list string) (dsched : list DEvent) (run : Run) (r : RState) :
  main flags fs rsched order dsched = Some run → resolution run = Some r →
  ∃ eff nameservers domainsList,
    startup flags fs = (eff, Some (nameservers, domainsList))
    ∧ 0 < numWorkers flags
    ∧ rrun rsched (rinit nameservers (numWorkers flags)) = Some r.
Proof.
  unfold main. intros Hmain Hres.
  destruct (startup flags fs) as [eff [[nameservers domainsList]|]] eqn:Hstart;
    [|by simplify_eq].
  exists eff, nameservers, domainsList.
  split; [done|]. split; [by eapply startup_Some|].
  destruct (rrun rsched (rinit nameservers (numWorkers flags))) as [r'|]; [|done].
  simpl in Hmain. destruct (returned r').
  - case_bool_decide; destruct (os_OpenFile fs (outputFile flags));
      try (by simplify_eq);
      (case_bool_decide; [|done];
       destruct (drun _ dsched _); simpl in Hmain; by simplify_eq).
  - by simplify_eq.
Qed.

(** A run of [main] that reached the query phase. *)
Lemma main_querying (flags : Flags) (fs : FS) (rsched : list REvent)
  (order : list string) (dsched : list DEvent) (run : Run) (d : DState) :
  main flags fs rsched order dsched = Some run → querying run = Some d →
  ∃ eff nameservers domainsList r,
    startup flags fs = (eff, Some (nameservers, domainsList))
    ∧ rrun rsched (rinit nameservers (numWorkers flags)) = Some r
    ∧ returned r = true
    ∧ resolution run = Some r
    ∧ order ≡ₚ (map_to_list (resultsMap r)).*1
    ∧ drun {| mappedNameservers := resultsMap r;
              verbose := verboseMode flags;
              fHandle := bool_decide (outputFile flags ≠ "") |}
        dsched
        (dinit order domainsList (numWorkers flags)
           (sampleSize (length domainsList) (length nameservers))) = Some d.
Proof.
  unfold main. intros Hmain Hq.
  destruct (startup flags fs) as [eff [[nameservers domainsList]|]] eqn:Hstart;
    [|by simplify_eq].
  exists eff, nameservers, domainsList.
  destruct (rrun rsched (rinit nameservers (numWorkers flags))) as [r|]; [|done].
  simpl in Hmain. exists r. destruct (returned r); [|by simplify_eq].
  destruct (if bool_decide (outputFile flags ≠ "")
            then ([OpenFile (outputFile flags)], os_OpenFile fs (outputFile flags))
            else ([], None)) as [eff3 [err|]]; [by simplify_eq|].
  case_bool_decide as Horder; [|done].
  destruct (drun _ dsched _) as [d'|] eqn:Hrun; simpl in Hmain; [|done].
  simplify_eq. simpl in Hq. by simplify_eq.
Qed.

Lemma size_writes_le (l : list (string * string)) : (size (writes l) ≤ length l)%nat.
Proof.
  induction l as [|[ns ip] l IH] using rev_ind;
    [unfold writes; simpl; by rewrite map_size_empty|].
  rewrite writes_snoc, length_app. simpl.
  destruct (writes l !! ip) eqn:Hl.
  - rewrite map_size_insert_Some by done. lia.
  - rewrite map_size_insert_None by done. lia.
Qed.

Lemma writes_lookup_elem (l : list (string * string)) (ns ip : string) :
  writes l !! ip = Some ns → (ns, ip) ∈ l.
Proof.
  rewrite writes_lookup. unfold last_writer.
  destruct (last (filter (λ r, r.2 = ip) l)) as [[ns' ip']|] eqn:Hlast; [|done].
  intros [= <-].
  apply last_Some_elem_of, list_elem_of_filter in Hlast as [Hip Hl].
  simpl in Hip. by subst.
Qed.

Lemma RInv_written_attempted (N : list string) (w : Z) (s : RState) (x : string * string) :
  RInv N w s → x ∈ written s → x ∈ attempted s.
Proof.
  intros Hinv Hx. rewrite <- (inv_results _ _ _ Hinv).
  apply elem_of_app. right. apply elem_of_app. by right.
Qed.

(** The keys of the map are at most as many as the name servers. *)
Lemma RInv_keys_le (N : list string) (w : Z) (s : RState) :
  RInv N w s → (size (resultsMap s) ≤ length N)%nat.
Proof.
  intros Hinv. rewrite (inv_map _ _ _ Hinv).
  pose proof (size_writes_le (written s)) as H1.
  pose proof (Permutation_length (inv_results _ _ _ Hinv)) as H2.
  pose proof (Permutation_length (inv_hosts _ _ _ Hinv)) as H3.
  repeat rewrite length_app in H2. repeat rewrite length_app in H3.
  rewrite length_fmap in H3. lia.
Qed.

Lemma length_cross_product (order domainsList : list string) :
  length (cross_product order domainsList)
  = (length domainsList * length (filter (λ nsIP, nsIP ≠ "") order))%nat.
Proof.
  unfold cross_product.
  induction (filter (λ nsIP, nsIP ≠ "") order) as [|nsIP l IH]; csimpl; [lia|].
  rewrite length_app, length_fmap, IH, Nat.mul_succ_r. lia.
Qed.

(** A worker holding a query that splits in two adds one to the completed
    counter, whether the query succeeds or fails. *)
Lemma query_counts_once (sh : Shared) (i : nat) (Exchange : Network) (s : DState)
  (query domain nsIP : string) :
  qworkers s !! i = Some (QQuerying query) →
  Split query "|" = [domain; nsIP] →
  ∃ s', dstep sh (DWorker i Exchange) s = Some s'
        ∧ progress s' = int32 (progress s + 1)
        ∧ issued s' = issued s ++ [(domain, nsIP +:+ ":53")].
Proof.
  intros Hw Hsplit. simpl. unfold qworker_step. rewrite Hw, Hsplit.
  destruct (queryDNS_one_of Exchange domain (nsIP +:+ ":53")) as [[r ->] | [e ->]];
    by eexists.
Qed.

Lemma size_writes_NoDup (l : list (string * string)) :
  NoDup l.*2 → size (writes l) = length l.
Proof.
  induction l as [|[ns ip] l IH] using rev_ind;
    [intros _; unfold writes; simpl; by rewrite map_size_empty|].
  rewrite fmap_app. simpl. intros Hnd. apply NoDup_app in Hnd as (Hl & Hnot & _).
  rewrite writes_snoc, length_app. simpl.
  assert (writes l !! ip = None) as Hnone.
  { destruct (writes l !! ip) as [ns'|] eqn:Hlook; [|done].
    apply writes_lookup_elem in Hlook. destruct (Hnot ip).
    - apply list_elem_of_fmap. by exists (ns', ip).
    - by left. }
  rewrite (map_size_insert_None _ _ _ Hnone), (IH Hl). lia.
Qed.

Lemma writes_lookup_is_Some (l : list (string * string)) (ns ip : string) :
  (ns, ip) ∈ l → is_Some (writes l !! ip).
Proof.
  intros Hin. rewrite writes_lookup.
  destruct (last_writer_elem _ _ _ Hin) as (ns' & -> & _). by eexists.
Qed.

(** A map with as many keys as writes got pairwise different addresses. *)
Lemma size_writes_eq_NoDup (l : list (string * string)) :
  size (writes l) = length l → NoDup l.*2.
Proof.
  induction l as [|[ns ip] l IH] using rev_ind; [intros _; constructor|].
  rewrite writes_snoc, length_app, fmap_app. simpl. intros Hsize.
  pose proof (size_writes_le l) as Hle.
  destruct (writes l !! ip) as [ns'|] eqn:Hlook.
  - rewrite map_size_insert_Some in Hsize by done. lia.
  - rewrite map_size_insert_None in Hsize by done.
    apply NoDup_app. split; [apply IH; lia|]. split; [|apply NoDup_singleton].
    intros ip' Hin ->%list_elem_of_singleton.
    apply list_elem_of_fmap in Hin as ([ns' ip''] & Heq & Hin). simpl in Heq. subst.
    destruct (writes_lookup_is_Some _ _ _ Hin) as [? Hsome]. by rewrite Hlook in Hsome.
Qed.

Lemma length_filter_lt {A} (P : A → Prop) `{∀ x, Decision (P x)} (l : list A) (x : A) :
  x ∈ l → ¬ P x → (length (filter P l) < length l)%nat.
Proof.
  induction l as [|y l IH]; [by intros ?%elem_of_nil|].
  intros [->|Hin]%elem_of_cons Hnot.
  - rewrite filter_cons_False by done. pose proof (length_filter P l). simpl. lia.
  - specialize (IH Hin Hnot). destruct (decide (P y)).
    + rewrite filter_cons_True by done. simpl. lia.
    + rewrite filter_cons_False by done. simpl. lia.
Qed.

Lemma length_filter_all {A} (P : A → Prop) `{∀ x, Decision (P x)} (l : list A) :
  (∀ x, x ∈ l → P x) → filter P l = l.
Proof.
  induction l as [|y l IH]; [done|]. intros Hall.
  rewrite filter_cons_True by (apply Hall; by left).
  f_equal. apply IH. intros x Hx. apply Hall. by right.
Qed.

Lemma lookup_found_not_failed (out : list IP * option string) (ip : IP) :
  lookup_found out ip → ¬ lookup_failed out.
Proof. intros [ips ->] [?|?]; done. Qed.

(** The keys of the map returned against the calls of the resolver: a
    failed lookup leaves the empty-string key; two lookups that found the
    same address leave fewer keys than host names; lookups that all found
    pairwise different addresses leave one key per host name. *)
Lemma RInv_failed_key (N : list string) (w : Z) (sched : list REvent) (s : RState)
  (ns : string) (out : list IP * option string) :
  rrun sched (rinit N w) = Some s → returned s = true →
  (ns, out) ∈ lookups sched (rinit N w) → lookup_failed out →
  ∃ ns' out', resultsMap s !! "" = Some ns'
              ∧ (ns', out') ∈ lookups sched (rinit N w)
              ∧ (lookup_failed out' ∨ lookup_found out' "").
Proof.
  intros Hrun Hret Hin Hfail.
  pose proof (RInv_reachable _ _ _ _ Hrun) as Hinv.
  pose proof (call_attempted _ _ _ _ _ _ Hrun Hin) as Hatt.
  rewrite (address_of_failed _ Hfail) in Hatt.
  destruct (RInv_kept _ _ _ _ _ Hinv Hret Hatt) as (ns' & Hlook & Hatt').
  destruct (attempted_call _ _ _ _ _ _ Hrun Hatt') as (out' & Hin' & Hout').
  exists ns', out'. split; [done|]. split; [done|].
  destruct Hout' as [[? _]|[? _]]; by auto.
Qed.

Lemma RInv_shared_address (N : list string) (w : Z) (sched : list REvent) (s : RState)
  (i j : nat) (l1 l2 : Lookup) :
  rrun sched (rinit N w) = Some s → returned s = true → 0 < w →
  i ≠ j →
  lookups sched (rinit N w) !! i = Some l1 →
  lookups sched (rinit N w) !! j = Some l2 →
  address_of l1.2 = address_of l2.2 →
  (size (resultsMap s) < length N)%nat.
Proof.
  intros Hrun Hret Hw Hne H1 H2 Heq.
  pose proof (RInv_reachable _ _ _ _ Hrun) as Hinv.
  destruct (RInv_returned _ _ _ Hinv Hret) as [Hwritten Hhosts].
  pose proof (Permutation_length (Hhosts Hw)) as Hlen. rewrite length_fmap in Hlen.
  pose proof (Permutation_length Hwritten) as Hlen'.
  pose proof (size_writes_le (written s)) as Hle.
  rewrite (inv_map _ _ _ Hinv).
  destruct (decide (size (writes (written s)) = length (written s))) as [Hsize|]; [|lia].
  apply size_writes_eq_NoDup in Hsize. rewrite Hwritten in Hsize.
  rewrite (attempted_lookups _ _ _ _ Hrun), <- list_fmap_compose in Hsize.
  destruct Hne. eapply (NoDup_lookup _ i j (address_of l1.2) Hsize).
  - by rewrite list_lookup_fmap, H1.
  - by rewrite list_lookup_fmap, H2, Heq.
Qed.

Lemma RInv_all_found (N : list string) (w : Z) (sched : list REvent) (s : RState) :
  rrun sched (rinit N w) = Some s → returned s = true → 0 < w →
  NoDup ((λ l : Lookup, address_of l.2) <$> lookups sched (rinit N w)) →
  (∀ ns out, (ns, out) ∈ lookups sched (rinit N w) →
     ∃ ip, lookup_found out ip ∧ ip ≠ "") →
  size (resultsMap s) = length N ∧ resultsMap s !! "" = None.
Proof.
  intros Hrun Hret Hw Hnd Hfound.
  pose proof (RInv_reachable _ _ _ _ Hrun) as Hinv.
  destruct (RInv_returned _ _ _ Hinv Hret) as [Hwritten Hhosts].
  pose proof (Permutation_length (Hhosts Hw)) as Hlen. rewrite length_fmap in Hlen.
  split.
  - rewrite (inv_map _ _ _ Hinv), size_writes_NoDup, (Permutation_length Hwritten); [done|].
    rewrite Hwritten, (attempted_lookups _ _ _ _ Hrun), <- list_fmap_compose. exact Hnd.
  - destruct (resultsMap s !! "") as [ns|] eqn:Hlook; [|done].
    rewrite (inv_map _ _ _ Hinv) in Hlook. apply writes_lookup_elem in Hlook.
    rewrite Hwritten in Hlook.
    destruct (attempted_call _ _ _ _ _ _ Hrun Hlook) as (out & Hin & Hout).
    destruct (Hfound _ _ Hin) as (ip & Hip & Hne).
    destruct Hout as [[Hempty _]|[Hfail _]].
    + destruct Hempty as [ips ->], Hip as [ips' [= <- _]]. done.
    + by destruct (lookup_found_not_failed _ _ Hip).
Qed.

(** C1 (as the program has it): when the query phase is over, the calls of
    [queryDNS] are the dispatched queries that split at the bar in two, one
    call each, and the completed counter is their number, whether they
    succeeded or failed; with no bar in the domains and the keys that is
    every pair of the cross product of the domains with the keys that are
    not the empty string.  The stored total is the number of domains times
    the number of name servers of the input.  The number of calls never
    exceeds that product; with at least one domain it is smaller as soon as
    a lookup failed or two lookups found the same address; and it is that
    product when no bar occurs and the lookups all found addresses that are
    pairwise different and not empty. *)
Theorem completed_counts_every_query
  (flags : Flags) (fs : FS) (rsched : list REvent) (order : list string)
  (dsched : list DEvent) (run : Run) (d : DState) :
  main flags fs rsched order dsched = Some run →
  querying run = Some d →
  finished d = true →
  ∃ eff nameservers domainsList,
    startup flags fs = (eff, Some (nameservers, domainsList))
    ∧ issued d ≡ₚ omap parse_query (dispatch_queries order domainsList)
    ∧ progress d = int32 (Z.of_nat (length (issued d)))
    ∧ total d = int32 (sampleSize (length domainsList) (length nameservers))
    ∧ (length (issued d) ≤ length domainsList * length nameservers)%nat
    ∧ ((∀ x, x ∈ domainsList ++ order → has_byte "|" x = false) →
         issued d ≡ₚ cross_product order domainsList
         ∧ length (issued d)
           = (length domainsList * length (filter (λ nsIP, nsIP ≠ "") order))%nat)
    ∧ let calls := lookups rsched (rinit nameservers (numWorkers flags)) in
      (domainsList ≠ [] →
       (∃ ns out, (ns, out) ∈ calls ∧ lookup_failed out)
       ∨ (∃ i j l1 l2 ip,
            i ≠ j ∧ calls !! i = Some l1 ∧ calls !! j = Some l2
            ∧ lookup_found l1.2 ip ∧ lookup_found l2.2 ip) →
       (length (issued d) < length domainsList * length nameservers)%nat)
      ∧ ((∀ x, x ∈ domainsList ++ order → has_byte "|" x = false) →
         (∀ ns out, (ns, out) ∈ calls → ∃ ip, lookup_found out ip ∧ ip ≠ "") →
         NoDup ((λ l : Lookup, address_of l.2) <$> calls) →
         length (issued d) = (length domainsList * length nameservers)%nat).
Proof.
  intros Hmain Hq Hfin.
  destruct (main_querying _ _ _ _ _ _ _ Hmain Hq)
    as (eff & nameservers & domainsList & r & Hstart & Hrrun & Hret & _ & Horder & Hdrun).
  exists eff, nameservers, domainsList.
  pose proof (startup_Some _ _ _ _ Hstart) as Hworkers.
  pose proof (DInv_run _ _ _ _ _ (DInv_init _ _ _ _) Hdrun) as Hinv.
  pose proof (DInv_finished _ _ Hinv Hfin) as Hissued.
  pose proof (RInv_keys_le _ _ _ (RInv_reachable _ _ _ _ Hrrun)) as Hkeys.
  assert (length order = size (resultsMap r)) as Hsize.
  { by rewrite (Permutation_length Horder), length_fmap, length_map_to_list. }
  assert (length (issued d)
          ≤ length domainsList * length (filter (λ nsIP, nsIP ≠ "") order))%nat as Hle.
  { rewrite (Permutation_length Hissued), <- length_dispatch_queries.
    apply length_omap_le. }
  pose proof (length_filter (λ nsIP, nsIP ≠ "") order) as Hle'.
  assert ((∀ x, x ∈ domainsList ++ order → has_byte "|" x = false) →
          issued d ≡ₚ cross_product order domainsList
          ∧ length (issued d)
            = (length domainsList * length (filter (λ nsIP, nsIP ≠ "") order))%nat)
    as Hplain.
  { intros Hbar. rewrite parse_dispatch_queries in Hissued by done.
    split; [done|].
    rewrite (Permutation_length Hissued). apply length_cross_product. }
  cbv zeta. split_and!; try done.
  - apply (dinv_progress _ _ Hinv).
  - by rewrite (total_run _ _ _ _ Hdrun).
  - etrans; [exact Hle|]. apply Nat.mul_le_mono_l. lia.
  - intros Hdomains Hshort.
    assert (0 < length domainsList)%nat as Hnd.
    { destruct domainsList; [done | simpl; lia]. }
    assert (length (filter (λ nsIP, nsIP ≠ "") order) < length nameservers)%nat
      as Hlt; [|nia].
    destruct Hshort as [(ns & out & Hin & Hfail)
                       | (i & j & l1 & l2 & ip & Hne & H1 & H2 & Hf1 & Hf2)].
    + destruct (RInv_failed_key _ _ _ _ _ _ Hrrun Hret Hin Hfail)
        as (ns' & _ & Hlook & _).
      assert ("" ∈ order) as Hempty.
      { rewrite Horder. apply list_elem_of_fmap. exists ("", ns').
        split; [done|]. by apply elem_of_map_to_list. }
      pose proof (length_filter_lt (λ nsIP, nsIP ≠ "") order "" Hempty) as Hlt.
      specialize (Hlt ltac:(by intros H; apply H)). lia.
    + assert (size (resultsMap r) < length nameservers)%nat; [|lia].
      eapply (RInv_shared_address _ _ _ _ i j l1 l2); try done.
      by rewrite (address_of_found _ _ Hf1), (address_of_found _ _ Hf2).
  - intros Hbar Hfound Hnd.
    destruct (RInv_all_found _ _ _ _ Hrrun Hret Hworkers Hnd Hfound) as [Hall Hnone].
    destruct (Hplain Hbar) as [_ ->]. f_equal.
    rewrite length_filter_all; [lia|].
    intros nsIP Hin ->. rewrite Horder in Hin.
    apply list_elem_of_fmap in Hin as ([nsIP ns] & Heq & Hin). simpl in Heq. subst.
    apply elem_of_map_to_list in Hin. by rewrite Hnone in Hin.
Qed.

Lemma completed_counts_every_query_witness :
  ∃ run d,
    main flags_one (fs_with mixed_names) (sched_pair lookup_mixed) [""; "203.0.113.5"]
      (sched_query (respond 0 [dns_A "198.51.100.9"])) = Some run
    ∧ querying run = Some d
    ∧ progress d = int32 (Z.of_nat (length (issued d)))
    ∧ total d = 2
    ∧ (length (issued d) < 1 * 2)%nat.
Proof.
  assert (∃ run d,
            main flags_one (fs_with mixed_names) (sched_pair lookup_mixed)
              [""; "203.0.113.5"]
              (sched_query (respond 0 [dns_A "198.51.100.9"])) = Some run
            ∧ querying run = Some d ∧ finished d = true)
    as (run & d & Hmain & Hq & Hfin).
  { eexists _, _. split; [vm_compute; reflexivity|]. split; reflexivity. }
  exists run, d.
  destruct (completed_counts_every_query _ _ _ _ _ _ _ Hmain Hq Hfin)
    as (eff & nameservers & domainsList & Hstart & _ & Hprog & Htotal & _ & _ & Hshort & _).
  vm_compute in Hstart. injection Hstart as _ <- <-.
  split; [exact Hmain|]. split; [exact Hq|]. split; [exact Hprog|].
  split; [exact Htotal|].
  apply Hshort; [discriminate|]. left.
  exists "bad.example", ([], Some "no such host"). split.
  - apply list_elem_of_lookup. exists 0%nat. vm_compute. reflexivity.
  - left. simpl. discriminate.
Defined.

(** The claim of C1 fails: one name server that does not resolve and one
    domain; the query phase ends with the completed counter at 0 and the
    total at 1. *)
Lemma completed_stays_below_total :
  ∃ run d,
    main flags_one (fs_with ["bad.example"]) sched_fail [""] sched_idle = Some run
    ∧ querying run = Some d
    ∧ finished d = true
    ∧ progress d = 0
    ∧ total d = 1.
Proof.
  eexists _, _. split; [vm_compute; reflexivity|].
  split; [reflexivity|]. repeat split; reflexivity.
Qed.

(** C2 (as the program has it): a lookup that failed leaves the
    empty-string key in the map returned by [resolveNameservers], mapped to
    a host name whose lookup sent the empty string (it failed, or it found
    an address with the empty text); the dispatch loop skips that key, so
    every call of [queryDNS] goes to an address that is a key of the map
    other than the empty string, found by a lookup that succeeded for the
    host name the map holds for it. *)
Theorem failed_nameservers_never_queried
  (flags : Flags) (fs : FS) (rsched : list REvent) (order : list string)
  (dsched : list DEvent) (run : Run) (r : RState) :
  main flags fs rsched order dsched = Some run →
  resolution run = Some r →
  returned r = true →
  ∃ eff nameservers domainsList,
    startup flags fs = (eff, Some (nameservers, domainsList))
    ∧ let calls := lookups rsched (rinit nameservers (numWorkers flags)) in
      (∀ ns out, (ns, out) ∈ calls → lookup_failed out →
         ∃ ns' out',
           resultsMap r !! "" = Some ns' ∧ (ns', out') ∈ calls
           ∧ (lookup_failed out' ∨ lookup_found out' ""))
      ∧ (∀ d domain nameserver,
           querying run = Some d → (domain, nameserver) ∈ issued d →
           ∃ nsIP ns out,
             nameserver = nsIP +:+ ":53" ∧ nsIP ≠ ""
             ∧ resultsMap r !! nsIP = Some ns
             ∧ (ns, out) ∈ calls ∧ lookup_found out nsIP ∧ ¬ lookup_failed out).
Proof.
  intros Hmain Hres Hret.
  destruct (main_resolution _ _ _ _ _ _ _ Hmain Hres)
    as (eff & nameservers & domainsList & Hstart & Hw & Hrrun).
  exists eff, nameservers, domainsList. split; [done|]. cbv zeta.
  pose proof (RInv_reachable _ _ _ _ Hrrun) as Hinv.
  split.
  - intros ns out Hin Hfail. by eapply RInv_failed_key.
  - intros d domain nameserver Hq Hin.
    destruct (main_querying _ _ _ _ _ _ _ Hmain Hq)
      as (eff' & nameservers' & domainsList' & r' & _ & _ & _ & Hres' & Horder & Hdrun).
    rewrite Hres in Hres'. injection Hres' as <-.
    pose proof (DInv_run _ _ _ _ _ (DInv_init _ _ _ _) Hdrun) as Hdinv.
    assert ((domain, nameserver) ∈ omap parse_query (dispatch_queries order domainsList'))
      as Hparsed.
    { rewrite <- (dinv_issued _ _ Hdinv). apply elem_of_app. by right. }
    apply list_elem_of_omap in Hparsed as (query & Hquery & Hparse).
    apply elem_of_dispatch_queries in Hquery as (domain0 & nsIP & -> & _ & Hkey & Hne).
    apply parse_query_Some in Hparse as ([= -> ->] & _ & _).
    rewrite Horder in Hkey.
    apply list_elem_of_fmap in Hkey as ([nsIP' ns] & -> & Hkey). simpl in *.
    apply elem_of_map_to_list in Hkey.
    assert ((ns, nsIP') ∈ attempted r) as Hatt.
    { eapply RInv_written_attempted; [exact Hinv|].
      apply writes_lookup_elem. by rewrite <- (inv_map _ _ _ Hinv). }
    destruct (attempted_call _ _ _ _ _ _ Hrrun Hatt) as (out & Hcall & Hout).
    exists nsIP', ns, out. split_and!; try done.
    + by destruct Hout as [[? _]|[_ ?]].
    + by destruct Hout as [[_ ?]|[_ ?]].
Qed.

Lemma failed_nameservers_never_queried_witness :
  ∃ run r d,
    main flags_one (fs_with mixed_names) (sched_pair lookup_mixed) [""; "203.0.113.5"]
      (sched_query (respond 0 [dns_A "198.51.100.9"])) = Some run
    ∧ resolution run = Some r
    ∧ querying run = Some d
    ∧ is_Some (resultsMap r !! "")
    ∧ ∀ domain nameserver, (domain, nameserver) ∈ issued d →
        ∃ nsIP ns out,
          nameserver = nsIP +:+ ":53" ∧ nsIP ≠ ""
          ∧ resultsMap r !! nsIP = Some ns
          ∧ (ns, out) ∈ lookups (sched_pair lookup_mixed) (rinit mixed_names 1)
          ∧ lookup_found out nsIP ∧ ¬ lookup_failed out.
Proof.
  assert (∃ run r d,
            main flags_one (fs_with mixed_names) (sched_pair lookup_mixed)
              [""; "203.0.113.5"]
              (sched_query (respond 0 [dns_A "198.51.100.9"])) = Some run
            ∧ resolution run = Some r ∧ querying run = Some d ∧ returned r = true)
    as (run & r & d & Hmain & Hres & Hq & Hret).
  { eexists _, _, _. split; [vm_compute; reflexivity|]. repeat split; reflexivity. }
  exists run, r, d.
  destruct (failed_nameservers_never_queried _ _ _ _ _ _ _ Hmain Hres Hret)
    as (eff & nameservers & domainsList & Hstart & Hkey & Hqueries).
  vm_compute in Hstart. injection Hstart as _ <- <-.
  split; [exact Hmain|]. split; [exact Hres|]. split; [exact Hq|]. split.
  - destruct (Hkey "bad.example" ([], Some "no such host")) as (ns' & _ & Hlook & _).
    + apply list_elem_of_lookup. exists 0%nat. vm_compute. reflexivity.
    + left. simpl. discriminate.
    + by exists ns'.
  - intros domain nameserver. apply Hqueries. exact Hq.
Defined.

(** The claim of C2 fails: after the resolution of one host name that does
    not resolve, the map returned has the empty-string key, mapped to that
    host name. *)
Lemma failed_nameserver_leaves_empty_key :
  ∃ m, resolveNameservers ["bad.example"] 1 sched_fail = Some m
       ∧ m !! "" = Some "bad.example"
       ∧ resolveNameserver lookup_fail "bad.example"
         = ("", Some (Errorf "Failed to resolve nameserver: %v"
                        [ArgString "error" "no such host"])).
Proof.
  eexists. split; [vm_compute; reflexivity|]. split; reflexivity.
Qed.

(** ** More on the resolution phase *)

(** X1: [resolveNameserver] gives the first address found; a lookup error
    and an empty list of addresses both give the empty string with an error
    naming the cause. *)
Theorem resolveNameserver_first_address (LookupIP : Resolver) (ns : string) :
  let got := resolveNameserver LookupIP ns in
  (got.2 = None ↔ ∃ ip ips, LookupIP ns = (ip :: ips, None))
  ∧ (∀ ip ips, LookupIP ns = (ip :: ips, None) → got = (ip, None))
  ∧ (∀ ips err, LookupIP ns = (ips, Some err) →
       ∃ e, got = ("", Some e)
            ∧ Error e = Some ("Failed to resolve nameserver: " +:+ err))
  ∧ (LookupIP ns = ([], None) →
       ∃ e, got = ("", Some e)
            ∧ Error e = Some ("No IP addresses found for nameserver: " +:+ ns)).
Proof.
  cbv zeta. unfold resolveNameserver.
  destruct (LookupIP ns) as [[|ip ips] [err|]]; simpl; split_and!.
  all: try (intros; simplify_eq; done).
  all: try (split; [done | by intros (? & ? & ?)]).
  all: try (split; [intros _; by eexists _, _ | done]).
  all: intros; simplify_eq; eexists; (split; [reflexivity|]).
  all: simpl; unfold Sprintf; simpl; by rewrite append_empty_r.
Qed.

(** X2: neither buffer ever holds more than its capacity, and no send on
    [jobs] or [results] ever blocks. *)
Theorem sends_never_block
  (nameservers : list string) (numWorkers : Z) (sched : list REvent) (s : RState) :
  rrun sched (rinit nameservers numWorkers) = Some s →
  (length (jobs s) ≤ capacity s)%nat
  ∧ (length (results s) ≤ capacity s)%nat
  ∧ (∀ ns rest, caller s = Feeding (ns :: rest) → is_Some (rstep RCaller s))
  ∧ (∀ i ns ip LookupIP,
       workers s !! i = Some (Sending ns ip) →
       is_Some (rstep (RWorker i LookupIP) s)).
Proof.
  intros Hrun. destruct (RInv_reachable _ _ _ _ Hrun)
    as [Hcap Hlen Hhosts Hres Hmap Hjc Hex Hcl Hret].
  unfold to_feed, resolving, sending in *.
  apply Permutation_length in Hhosts, Hres.
  repeat rewrite length_app in Hhosts. rewrite length_fmap in Hhosts.
  repeat rewrite length_app in Hres.
  split_and!.
  - lia.
  - lia.
  - intros ns rest Hc. simpl. unfold caller_step. rewrite Hc in *.
    rewrite bool_decide_eq_true_2; [by eexists|]. simpl in Hhosts. lia.
  - intros i ns ip LookupIP Hw. simpl. unfold worker_step. rewrite Hw.
    pose proof (sending_nonempty _ _ _ _ Hw).
    rewrite bool_decide_eq_true_2; [by eexists|]. lia.
Qed.

Lemma no_workers_step (e : REvent) (s s' : RState) :
  workers s = [] → attempted s = [] → results s = [] →
  rstep e s = Some s' →
  workers s' = [] ∧ attempted s' = [] ∧ results s' = [].
Proof.
  intros Hw Ha Hr Hstep. destruct e as [|i LookupIP|]; simpl in Hstep.
  - unfold caller_step in Hstep. rewrite Hr in Hstep.
    destruct (caller s) as [[|ns rest]| |]; try done.
    + by simplify_eq.
    + case_bool_decide; [|done]. by simplify_eq.
    + destruct (results_closed s); [|done]. by simplify_eq.
  - unfold worker_step in Hstep. by rewrite Hw in Hstep.
  - unfold closer_step in Hstep. destruct (caller s); try done.
    all: destruct (forallb exited (workers s) && negb (results_closed s)); [|done];
      by simplify_eq.
Qed.

Lemma no_workers_run (sched : list REvent) (s s' : RState) :
  workers s = [] → attempted s = [] → results s = [] →
  rrun sched s = Some s' →
  workers s' = [] ∧ attempted s' = [] ∧ results s' = [].
Proof.
  revert s. induction sched as [|e sched IH]; intros s Hw Ha Hr Hrun; simpl in Hrun.
  - by simplify_eq.
  - destruct (rstep e s) as [s1|] eqn:Hstep; [|done]. simpl in Hrun.
    destruct (no_workers_step _ _ _ Hw Ha Hr Hstep) as (? & ? & ?).
    by eapply IH.
Qed.

(** X3: with a worker count of zero or less no lookup is ever made and the
    map stays empty; at the [return] the host names are still in the [jobs]
    buffer. *)
Theorem no_workers_no_lookup
  (nameservers : list string) (numWorkers : Z) (sched : list REvent) (s : RState) :
  numWorkers ≤ 0 →
  rrun sched (rinit nameservers numWorkers) = Some s →
  attempted s = [] ∧ resultsMap s = ∅
  ∧ (returned s = true →
       resolveNameservers nameservers numWorkers sched = Some ∅
       ∧ jobs s ≡ₚ nameservers).
Proof.
  intros Hw Hrun.
  pose proof (RInv_reachable _ _ _ _ Hrun) as Hinv.
  assert (workers s = [] ∧ attempted s = [] ∧ results s = []) as (Hws & Ha & Hr).
  { eapply no_workers_run; [| | |exact Hrun]; try done.
    simpl. by replace (Z.to_nat numWorkers) with 0%nat by lia. }
  assert (resultsMap s = ∅) as Hmap.
  { pose proof (inv_results _ _ _ Hinv) as Hres. unfold sending in Hres.
    rewrite Hws, Hr, Ha in Hres. simpl in Hres. apply Permutation_nil_r in Hres.
    by rewrite (inv_map _ _ _ Hinv), Hres. }
  split_and!; try done.
  intros Hret. split.
  - unfold resolveNameservers. rewrite Hrun. simpl. by rewrite Hret, Hmap.
  - pose proof (inv_hosts _ _ _ Hinv) as Hhosts.
    unfold to_feed, resolving, returned in *. rewrite Hws, Ha in Hhosts.
    destruct (caller s); try done. simpl in Hhosts. by rewrite !app_nil_r in Hhosts.
Qed.

Lemma no_workers_no_lookup_witness :
  ∃ s, rrun [RCaller; RCaller; RCloser; RCaller] (rinit ["ns1.example"] 0) = Some s
       ∧ returned s = true ∧ attempted s = [] ∧ resultsMap s = ∅.
Proof.
  destruct (rrun [RCaller; RCaller; RCloser; RCaller] (rinit ["ns1.example"] 0))
    as [s|] eqn:Hrun; [|by vm_compute in Hrun].
  exists s.
  destruct (no_workers_no_lookup ["ns1.example"] 0 _ s ltac:(lia) Hrun) as (Ha & Hm & _).
  split; [reflexivity|]. split; [|by split].
  vm_compute in Hrun. injection Hrun as <-. reflexivity.
Defined.

(** ** One worker: the order of the input decides *)

Lemma single_worker_step (N : list string) (e : REvent) (s s' : RState) (w0 : Worker) :
  workers s = [w0] →
  (attempted s).*1 ++ resolving_of w0 ++ jobs s ++ to_feed s = N →
  written s ++ results s ++ sending_of w0 = attempted s →
  rstep e s = Some s' →
  ∃ w1, workers s' = [w1]
        ∧ (attempted s').*1 ++ resolving_of w1 ++ jobs s' ++ to_feed s' = N
        ∧ written s' ++ results s' ++ sending_of w1 = attempted s'.
Proof.
  intros Hw H1 H2 Hstep. unfold to_feed in *.
  destruct e as [|i LookupIP|]; simpl in Hstep.
  - unfold caller_step in Hstep.
    destruct (caller s) as [[|ns rest]| |] eqn:Hc.
    + simplify_eq. exists w0. simpl. done.
    + case_bool_decide; [|done]. simplify_eq. exists w0. simpl.
      split; [done|]. split; [|done]. by rewrite <- !app_assoc.
    + destruct (results s) as [|[ns ip] rest] eqn:Hr.
      * destruct (results_closed s); [|done]. simplify_eq. exists w0. simpl.
        done.
      * simplify_eq. exists w0. simpl. split; [done|].
        split; [done|]. rewrite <- H2. by rewrite <- !app_assoc.
    + done.
  - unfold worker_step in Hstep. rewrite Hw in Hstep.
    destruct i as [|i]; [|done]. simpl in Hstep.
    destruct w0 as [|ns|ns ip|]; [| | |done].
    + destruct (jobs s) as [|ns rest] eqn:Hj.
      * destruct (jobs_closed s); [|done]. simplify_eq. exists Exited.
        simpl. rewrite ?Hw, ?Hj. done.
      * simplify_eq. exists (Resolving ns). simpl. by rewrite ?Hw.
    + destruct (resolveNameserver LookupIP ns) as [ip err]. simplify_eq.
      eexists. simpl. rewrite ?Hw. simpl. rewrite fmap_app. simpl.
      split_and!; try done.
      * by rewrite <- !app_assoc.
      * rewrite <- H2. simpl. by rewrite app_nil_r, <- !app_assoc.
    + case_bool_decide; [|done]. simplify_eq. exists Receiving.
      simpl. rewrite ?Hw. simpl. split; [done|]. split; [done|].
      rewrite <- H2. simpl. by rewrite app_nil_r.
  - unfold closer_step in Hstep. destruct (caller s) eqn:Hc; try done.
    all: destruct (forallb exited (workers s) && negb (results_closed s)); [|done];
      simplify_eq; exists w0; simpl; by rewrite ?Hc.
Qed.

Lemma single_worker_run (N : list string) (sched : list REvent) (s s' : RState)
  (w0 : Worker) :
  workers s = [w0] →
  (attempted s).*1 ++ resolving_of w0 ++ jobs s ++ to_feed s = N →
  written s ++ results s ++ sending_of w0 = attempted s →
  rrun sched s = Some s' →
  ∃ w1, workers s' = [w1]
        ∧ (attempted s').*1 ++ resolving_of w1 ++ jobs s' ++ to_feed s' = N
        ∧ written s' ++ results s' ++ sending_of w1 = attempted s'.
Proof.
  revert s w0. induction sched as [|e sched IH]; intros s w0 Hw H1 H2 Hrun;
    simpl in Hrun.
  - simplify_eq. by exists w0.
  - destruct (rstep e s) as [s1|] eqn:Hstep; [|done]. simpl in Hrun.
    destruct (single_worker_step _ _ _ _ _ Hw H1 H2 Hstep) as (w1 & ? & ? & ?).
    by eapply IH.
Qed.

(** X4: with one worker the host names are looked up in the order of the
    input and the messages are written in that order, so at the [return] an
    address is mapped to the last host name of the input that resolved to
    it. *)
Theorem single_worker_keeps_input_order
  (nameservers : list string) (sched : list REvent) (s : RState) :
  rrun sched (rinit nameservers 1) = Some s →
  (attempted s).*1 `prefix_of` nameservers
  ∧ written s `prefix_of` attempted s
  ∧ (returned s = true →
       (attempted s).*1 = nameservers
       ∧ written s = attempted s
       ∧ ∀ ip, resultsMap s !! ip = last_writer ip (attempted s)).
Proof.
  intros Hrun.
  pose proof (RInv_reachable _ _ _ _ Hrun) as Hinv.
  destruct (single_worker_run nameservers sched (rinit nameservers 1) s Receiving)
    as (w1 & Hw & H1 & H2); try done.
  split_and!.
  - rewrite <- H1. by eexists.
  - rewrite <- H2. by eexists.
  - intros Hret.
    pose proof (inv_returned _ _ _ Hinv) as Hr.
    pose proof (inv_closed _ _ _ Hinv) as Hcl.
    pose proof (inv_exited _ _ _ Hinv) as Hex.
    unfold returned, to_feed in *. destruct (caller s); try done.
    destruct Hr as [Hres Hclosed]; [done|]. specialize (Hcl Hclosed).
    rewrite Hw in Hcl, Hex. simpl in Hcl. destruct w1; try done.
    destruct Hex as [Hj _]; [by left|].
    rewrite Hj in H1. rewrite Hres in H2. simpl in *. rewrite !app_nil_r in *.
    split_and!; try done.
    intros ip. by rewrite (inv_map _ _ _ Hinv), writes_lookup, H2.
Qed.

Lemma single_worker_keeps_input_order_witness :
  ∃ s, rrun sched_two (rinit two_names 1) = Some s
       ∧ (attempted s).*1 = two_names
       ∧ resultsMap s !! "203.0.113.5" = Some "ns2.example".
Proof.
  destruct (rrun sched_two (rinit two_names 1)) as [s|] eqn:Hrun;
    [|by vm_compute in Hrun].
  exists s.
  assert (returned s = true) as Hret.
  { vm_compute in Hrun. injection Hrun as <-. reflexivity. }
  destruct (single_worker_keeps_input_order two_names sched_two s Hrun) as (_ & _ & H).
  destruct (H Hret) as (Hatt & _ & Hlast).
  split; [reflexivity|]. split; [exact Hatt|]. rewrite Hlast.
  vm_compute in Hrun. injection Hrun as <-. vm_compute. reflexivity.
Defined.

(** ** What the map holds *)

Lemma attempted_host_in_input (N : list string) (w : Z) (s : RState) (ns ip : string) :
  RInv N w s → (ns, ip) ∈ attempted s → ns ∈ N.
Proof.
  intros Hinv Hin. rewrite <- (inv_hosts _ _ _ Hinv).
  apply elem_of_app; right. apply elem_of_app; right. apply elem_of_app; right.
  apply list_elem_of_fmap. by exists (ns, ip).
Qed.

(** X5: every entry of the map comes from a lookup: its value is a host
    name of the input, and its key is the first address a lookup of that
    host name found, or the empty string, and then a lookup of that host
    name failed. *)
Theorem map_entries_come_from_lookups
  (nameservers : list string) (numWorkers : Z) (sched : list REvent) (s : RState) :
  rrun sched (rinit nameservers numWorkers) = Some s →
  (size (resultsMap s) ≤ length nameservers)%nat
  ∧ ∀ ip ns, resultsMap s !! ip = Some ns →
      ns ∈ nameservers ∧ (ns, ip) ∈ written s ∧ (ns, ip) ∈ attempted s
      ∧ ∃ out, (ns, out) ∈ lookups sched (rinit nameservers numWorkers)
               ∧ ((lookup_found out ip ∧ ¬ lookup_failed out)
                  ∨ (lookup_failed out ∧ ip = "")).
Proof.
  intros Hrun. pose proof (RInv_reachable _ _ _ _ Hrun) as Hinv.
  split; [by eapply RInv_keys_le|].
  intros ip ns Hlook.
  assert ((ns, ip) ∈ written s) as Hw.
  { apply writes_lookup_elem. by rewrite <- (inv_map _ _ _ Hinv). }
  pose proof (RInv_written_attempted _ _ _ _ Hinv Hw) as Ha.
  split_and!; try done; [by eapply attempted_host_in_input|].
  by apply (attempted_call _ _ _ _ _ _ Hrun).
Qed.

Lemma map_entries_come_from_lookups_witness :
  ∃ s, rrun (sched_pair lookup_mixed) (rinit mixed_names 1) = Some s
       ∧ (∃ out, ("bad.example", out)
                   ∈ lookups (sched_pair lookup_mixed) (rinit mixed_names 1)
                 ∧ ((lookup_found out "" ∧ ¬ lookup_failed out)
                    ∨ (lookup_failed out ∧ "" = "")))
       ∧ ∃ out, ("ns1.example", out)
                  ∈ lookups (sched_pair lookup_mixed) (rinit mixed_names 1)
                ∧ ((lookup_found out "203.0.113.5" ∧ ¬ lookup_failed out)
                   ∨ (lookup_failed out ∧ "203.0.113.5" = "")).
Proof.
  assert (∃ s, rrun (sched_pair lookup_mixed) (rinit mixed_names 1) = Some s
               ∧ resultsMap s !! "" = Some "bad.example"
               ∧ resultsMap s !! "203.0.113.5" = Some "ns1.example")
    as (s & Hrun & Hbad & Hgood).
  { eexists. split; [vm_compute; reflexivity|]. split; reflexivity. }
  exists s. split; [exact Hrun|].
  destruct (map_entries_come_from_lookups mixed_names 1 (sched_pair lookup_mixed) s Hrun)
    as [_ H].
  destruct (H "" "bad.example" Hbad) as (_ & _ & _ & Hcall).
  destruct (H "203.0.113.5" "ns1.example" Hgood) as (_ & _ & _ & Hcall').
  split; [exact Hcall | exact Hcall'].
Defined.

Lemma NoDup_snd_unique (l : list (string * string)) (a b ip : string) :
  NoDup l.*2 → (a, ip) ∈ l → (b, ip) ∈ l → a = b.
Proof.
  induction l as [|[x y] l IH]; simpl; [by intros _ H%elem_of_nil|].
  intros [Hnot Hnd]%NoDup_cons [Ha|Ha]%elem_of_cons [Hb|Hb]%elem_of_cons.
  - by simplify_eq.
  - simplify_eq. destruct Hnot. apply list_elem_of_fmap. by exists (b, y).
  - simplify_eq. destruct Hnot. apply list_elem_of_fmap. by exists (a, y).
  - by apply IH.
Qed.

(** X6: when the lookups produced pairwise different addresses, so that at
    most one of them failed, the map returned has one entry per lookup, and
    looking up the address of a host name gives that host name back. *)
Theorem distinct_addresses_all_kept
  (nameservers : list string) (numWorkers : Z) (sched : list REvent) (s : RState) :
  rrun sched (rinit nameservers numWorkers) = Some s →
  returned s = true →
  NoDup (attempted s).*2 →
  size (resultsMap s) = length (attempted s)
  ∧ (∀ ns ip, (ns, ip) ∈ attempted s → resultsMap s !! ip = Some ns)
  ∧ (0 < numWorkers → size (resultsMap s) = length nameservers)
  ∧ (∀ i j (l1 l2 : Lookup),
       lookups sched (rinit nameservers numWorkers) !! i = Some l1 →
       lookups sched (rinit nameservers numWorkers) !! j = Some l2 →
       lookup_failed l1.2 → lookup_failed l2.2 → i = j)
  ∧ (∀ ns out ip,
       (ns, out) ∈ lookups sched (rinit nameservers numWorkers) →
       lookup_found out ip → resultsMap s !! ip = Some ns).
Proof.
  intros Hrun Hret Hnd. pose proof (RInv_reachable _ _ _ _ Hrun) as Hinv.
  destruct (RInv_returned _ _ _ Hinv Hret) as [Hwritten Hhosts].
  assert (size (resultsMap s) = length (attempted s)) as Hsize.
  { rewrite (inv_map _ _ _ Hinv), size_writes_NoDup; [by rewrite Hwritten|].
    by rewrite Hwritten. }
  assert (∀ ns ip, (ns, ip) ∈ attempted s → resultsMap s !! ip = Some ns) as Hall.
  { intros ns ip Hin.
    destruct (RInv_kept _ _ _ _ _ Hinv Hret Hin) as (ns' & Hlook & Hin').
    by rewrite (NoDup_snd_unique _ _ _ _ Hnd Hin Hin'). }
  split_and!; [done|done| | |].
  - intros Hw. rewrite Hsize, <- (Permutation_length (Hhosts Hw)). by rewrite length_fmap.
  - intros i j l1 l2 H1 H2 Hf1 Hf2.
    rewrite (attempted_lookups _ _ _ _ Hrun), <- list_fmap_compose in Hnd.
    apply (NoDup_lookup _ i j "" Hnd); rewrite list_lookup_fmap.
    + rewrite H1. simpl. by rewrite (address_of_failed _ Hf1).
    + rewrite H2. simpl. by rewrite (address_of_failed _ Hf2).
  - intros ns out ip Hin Hfound. apply Hall.
    rewrite <- (address_of_found _ _ Hfound). by apply (call_attempted _ _ _ _ _ _ Hrun).
Qed.

Lemma distinct_addresses_all_kept_witness :
  ∃ s, rrun (sched_pair lookup_apart) (rinit two_names 1) = Some s
       ∧ resultsMap s !! "203.0.113.5" = Some "ns1.example"
       ∧ resultsMap s !! "203.0.113.6" = Some "ns2.example"
       ∧ size (resultsMap s) = 2%nat.
Proof.
  assert (∃ s, rrun (sched_pair lookup_apart) (rinit two_names 1) = Some s
               ∧ returned s = true
               ∧ attempted s = [("ns1.example", "203.0.113.5");
                                ("ns2.example", "203.0.113.6")])
    as (s & Hrun & Hret & Hatt).
  { eexists. split; [vm_compute; reflexivity|]. split; reflexivity. }
  exists s.
  destruct (distinct_addresses_all_kept two_names 1 (sched_pair lookup_apart) s Hrun Hret)
    as (Hsize & Hall & _).
  { rewrite Hatt. simpl. apply NoDup_cons. split; [|apply NoDup_singleton].
    intros Hin. apply list_elem_of_singleton in Hin. discriminate Hin. }
  split; [exact Hrun|]. split; [|split].
  - apply Hall. rewrite Hatt. by left.
  - apply Hall. rewrite Hatt. right. by left.
  - rewrite Hsize, Hatt. reflexivity.
Defined.

Lemma sends_never_block_witness :
  ∃ s, rrun [RCaller] (rinit two_names 1) = Some s
       ∧ is_Some (rstep RCaller s).
Proof.
  destruct (rrun [RCaller] (rinit two_names 1)) as [s|] eqn:Hrun;
    [|by vm_compute in Hrun].
  exists s. split; [reflexivity|].
  destruct (sends_never_block two_names 1 [RCaller] s Hrun) as (_ & _ & H & _).
  apply (H "ns2.example" []).
  vm_compute in Hrun. injection Hrun as <-. reflexivity.
Defined.
(** ** Building and splitting a query *)

Lemma parse_query_barred (domain nsIP : string) :
  ¬ (bar_free domain ∧ bar_free nsIP) →
  parse_query (domain +:+ "|" +:+ nsIP) = None.
Proof.
  intros Hbar. destruct (parse_query _) as [pair|] eqn:Hparse; [|done].
  destruct Hbar. by apply parse_query_Some in Hparse as (_ & ? & ?).
Qed.

(** X7: the query text built by the dispatch loop is read back by the
    worker as the same domain and address exactly when neither contains a
    bar; otherwise the worker does not take it as a query at all. *)
Theorem query_text_round_trip (domain nsIP : string) :
  ∃ query,
    Sprintf "%s|%s" [str domain; str nsIP] = Some query
    ∧ (bar_free domain ∧ bar_free nsIP →
         parse_query query = Some (domain, nsIP +:+ ":53"))
    ∧ (¬ (bar_free domain ∧ bar_free nsIP) → parse_query query = None)
    ∧ (∀ pair, parse_query query = Some pair → pair = (domain, nsIP +:+ ":53")).
Proof.
  exists (domain +:+ "|" +:+ nsIP). split_and!.
  - apply Sprintf_query.
  - intros [Hd Hip]. by apply parse_query_plain.
  - apply parse_query_barred.
  - intros pair Hparse. by apply parse_query_Some in Hparse as (-> & _).
Qed.

Lemma omap_parse_domains (domainsList : list string) (nsIP : string) :
  omap parse_query ((λ domain, domain +:+ "|" +:+ nsIP) <$> domainsList)
  = if bool_decide (bar_free nsIP)
    then (λ domain, (domain, nsIP +:+ ":53")) <$> filter bar_free domainsList
    else [].
Proof.
  induction domainsList as [|d ds IH]; [by case_bool_decide|].
  rewrite fmap_cons. csimpl. rewrite IH. clear IH.
  case_bool_decide as Hip.
  - destruct (decide (bar_free d)) as [Hd|Hd].
    + rewrite parse_query_plain, filter_cons_True by done. done.
    + rewrite parse_query_barred, filter_cons_False by (done || by intros [? ?]). done.
  - by rewrite parse_query_barred by (by intros [? ?]).
Qed.

(** The queries that split in two are the cross product of the domains and
    the keys that contain no bar. *)
Lemma parse_dispatch_queries_bar_free (order domainsList : list string) :
  omap parse_query (dispatch_queries order domainsList)
  = cross_product (filter bar_free order) (filter bar_free domainsList).
Proof.
  unfold dispatch_queries, cross_product.
  induction order as [|nsIP order IH]; [done|].
  rewrite fmap_cons. cbn [concat]. rewrite omap_app, IH, queries_for_eq. clear IH.
  destruct (decide (bar_free nsIP)) as [Hip|Hip].
  - rewrite (filter_cons_True bar_free) by done.
    case_bool_decide as Hempty.
    + by rewrite filter_cons_False by (by intros H; apply H).
    + rewrite filter_cons_True by done. csimpl.
      by rewrite omap_parse_domains, bool_decide_eq_true_2 by done.
  - rewrite (filter_cons_False bar_free) by done.
    case_bool_decide as Hempty; [done|].
    by rewrite omap_parse_domains, bool_decide_eq_false_2 by done.
Qed.

Lemma DInv_reachable (sh : Shared) (order domainsList : list string)
  (numWorkers sampleSize : Z) (sched : list DEvent) (s : DState) :
  drun sh sched (dinit order domainsList numWorkers sampleSize) = Some s →
  DInv (dispatch_queries order domainsList) s.
Proof. intros Hrun. eapply DInv_run; [apply DInv_init | exact Hrun]. Qed.

Lemma issued_origin (queries : list string) (order domainsList : list string)
  (s : DState) (domain nameserver : string) :
  DInv (dispatch_queries order domainsList) s →
  (domain, nameserver) ∈ issued s →
  domain ∈ domainsList ∧ bar_free domain
  ∧ ∃ nsIP, nameserver = nsIP +:+ ":53" ∧ nsIP ∈ order ∧ nsIP ≠ "" ∧ bar_free nsIP.
Proof.
  intros Hinv Hin.
  assert ((domain, nameserver) ∈ omap parse_query (dispatch_queries order domainsList))
    as Hparsed.
  { rewrite <- (dinv_issued _ _ Hinv). apply elem_of_app. by right. }
  apply list_elem_of_omap in Hparsed as (query & Hquery & Hparse).
  apply elem_of_dispatch_queries in Hquery as (domain0 & nsIP & -> & Hd & Hkey & Hne).
  apply parse_query_Some in Hparse as ([= -> ->] & Hbd & Hbip).
  split_and!; try done. by exists nsIP.
Qed.

(** X8: a domain or a key that contains a bar is never queried: the calls
    of [queryDNS] are for domains of the list and keys of the map without a
    bar, and when the phase is over they are exactly the cross product of
    those, which is what the completed counter counts. *)
Theorem barred_queries_are_dropped
  (sh : Shared) (order domainsList : list string) (numWorkers sampleSize : Z)
  (sched : list DEvent) (s : DState) :
  drun sh sched (dinit order domainsList numWorkers sampleSize) = Some s →
  (∀ domain nameserver, (domain, nameserver) ∈ issued s →
     domain ∈ domainsList ∧ bar_free domain
     ∧ ∃ nsIP, nameserver = nsIP +:+ ":53" ∧ nsIP ∈ order ∧ nsIP ≠ "" ∧ bar_free nsIP)
  ∧ (finished s = true →
       issued s ≡ₚ cross_product (filter bar_free order) (filter bar_free domainsList)
       ∧ progress s
         = int32 (Z.of_nat (length (filter bar_free domainsList)
                            * length (filter (λ nsIP, nsIP ≠ "") (filter bar_free order))))).
Proof.
  intros Hrun. pose proof (DInv_reachable _ _ _ _ _ _ _ Hrun) as Hinv.
  split.
  - intros domain nameserver Hin. by eapply (issued_origin []).
  - intros Hfin. pose proof (DInv_finished _ _ Hinv Hfin) as Hissued.
    rewrite parse_dispatch_queries_bar_free in Hissued. split; [done|].
    rewrite (dinv_progress _ _ Hinv), (Permutation_length Hissued).
    by rewrite length_cross_product.
Qed.

(** ** What one step of the query phase does to the history *)

Lemma queryDNS_Some (Exchange : Network) (domain nameserver : string)
  (r : Msg) (e : option error) :
  queryDNS Exchange domain nameserver = (Some r, e) →
  Rcode r = RcodeSuccess ∧ e = None.
Proof.
  unfold queryDNS. destruct (Exchange _ _) as [r0|? ?]; [|done].
  case_bool_decide as Hcode; [done|]. intros [= <- <-].
  split; [|done]. unfold RcodeSuccess in *. lia.
Qed.

(** A step is silent (possibly a progress line), or a failed query, or a
    successful query, or the delivery of an answer to the consumer. *)
Lemma dstep_effect (sh : Shared) (e : DEvent) (s s' : DState) :
  dstep sh e s = Some s' →
  total s' = total s
  ∧ ((issued s' = issued s ∧ delivered s' = delivered s
      ∧ handing_over s' ≡ₚ handing_over s ∧ progress s' = progress s
      ∧ (output s' = output s ∨ output s' = output s ++ report (progress s) (total s)))
     ∨ (∃ domain nsIP err,
          issued s' = issued s ++ [(domain, nsIP +:+ ":53")]
          ∧ delivered s' = delivered s
          ∧ handing_over s' ≡ₚ handing_over s
          ∧ progress s' = int32 (progress s + 1)
          ∧ output s' = output s ++ (if verbose sh then show_failure err else []))
     ∨ (∃ domain nsIP resp,
          Rcode resp = RcodeSuccess
          ∧ issued s' = issued s ++ [(domain, nsIP +:+ ":53")]
          ∧ delivered s' = delivered s
          ∧ handing_over s'
            ≡ₚ {| nsIP := nsIP; domain_ := domain; answer := resp |} :: handing_over s
          ∧ progress s' = int32 (progress s + 1)
          ∧ output s' = output s)
     ∨ (∃ result,
          issued s' = issued s
          ∧ delivered s' = delivered s ++ [result]
          ∧ handing_over s ≡ₚ result :: handing_over s'
          ∧ progress s' = progress s
          ∧ output s'
            = output s ++ show_result (mappedNameservers sh) (fHandle sh) result)).
Proof.
  intros Hstep. split; [by eapply total_step|]. unfold handing_over.
  destruct e as [i| |i Exchange| |]; simpl in Hstep.
  - unfold send_step in Hstep.
    destruct (dispatcher s) as [[|query rest]| | |]; try done.
    destruct (qworkers s !! i) as [[| | |]|] eqn:Hw; try done. simplify_eq.
    pose proof (concat_fmap_insert qsending_of _ _ _ (QQuerying query) Hw) as Hq.
    left. simpl. split_and!; try done. by left.
  - unfold main_step in Hstep. left.
    destruct (dispatcher s) as [[|query rest]| | |]; try done.
    + simplify_eq. simpl. split_and!; try done. by left.
    + destruct (forallb qexited (qworkers s)); [|done]. simplify_eq.
      simpl. split_and!; try done. by left.
    + destruct (sink_done s); [|done]. simplify_eq.
      simpl. split_and!; try done. by left.
  - unfold qworker_step in Hstep.
    destruct (qworkers s !! i) as [old|] eqn:Hw; [|done].
    pose proof (λ new, concat_fmap_insert qsending_of (qworkers s) i old new Hw) as Hq.
    destruct old as [|query|result|]; [| | |done].
    + destruct (dispatcher s); try done; simplify_eq.
      all: left; simpl; split_and!; try done; try by left.
      all: exact (Hq QExited).
    + destruct (Split query "|") as [|domain [|nsIP [|part parts]]] eqn:Hsplit.
      1, 2, 4: (simplify_eq; left; simpl; split_and!; try done; try (by left);
                exact (Hq QReceiving)).
      destruct (queryDNS Exchange domain (nsIP +:+ ":53")) as [resp [err|]] eqn:Hquery.
      * simplify_eq. right; left. exists domain, nsIP, err.
        simpl. split_and!; try done. exact (Hq QReceiving).
      * destruct resp as [resp|]; [|done]. simplify_eq.
        right; right; left. exists domain, nsIP, resp.
        destruct (queryDNS_Some _ _ _ _ _ Hquery) as [Hcode _].
        simpl. split_and!; try done.
        exact (Hq (QSending {| nsIP := nsIP; domain_ := domain; answer := resp |})).
    + simplify_eq. right; right; right. exists result.
      simpl. split_and!; try done. symmetry. exact (Hq QReceiving).
  - unfold sink_step in Hstep. destruct (dispatcher s); try done.
    destruct (sink_done s); [done|]. simplify_eq.
    left. simpl. split_and!; try done. by left.
  - unfold enter_step in Hstep. simplify_eq.
    left. simpl. split_and!; try done. by right.
Qed.

(** ** What the consumer and the workers write *)

Lemma failure_lines_app (out1 out2 : list Print) :
  failure_lines (out1 ++ out2) = failure_lines out1 ++ failure_lines out2.
Proof. unfold failure_lines. by rewrite console_lines_app, filter_app. Qed.

Lemma answer_lines_app (out1 out2 : list Print) :
  answer_lines (out1 ++ out2) = answer_lines out1 ++ answer_lines out2.
Proof. unfold answer_lines. by rewrite console_lines_app, filter_app. Qed.

Lemma show_record_colours (fHandle : bool) (nsName nsIP domain : string) (rr : RR) :
  failure_lines (show_record fHandle nsName nsIP domain rr) = []
  ∧ answer_lines (show_record fHandle nsName nsIP domain rr)
    = console_lines (show_record fHandle nsName nsIP domain rr).
Proof.
  unfold failure_lines, answer_lines. rewrite console_lines_show_record.
  by destruct rr.
Qed.

Lemma show_result_colours (mapped : gmap string string) (fHandle : bool)
  (result : wrappedAnswer) :
  failure_lines (show_result mapped fHandle result) = []
  ∧ answer_lines (show_result mapped fHandle result)
    = console_lines (show_result mapped fHandle result).
Proof.
  rewrite show_result_concat.
  induction (Answer (answer result)) as [|rr records [IH1 IH2]]; [done|].
  rewrite fmap_cons. cbn [concat].
  rewrite failure_lines_app, answer_lines_app, console_lines_app, IH1, IH2.
  by destruct (show_record_colours fHandle (default "" (mapped !! nsIP result))
                 (nsIP result) (domain_ result) rr) as [-> ->].
Qed.

Lemma show_result_no_file (mapped : gmap string string) (result : wrappedAnswer) :
  file_lines (show_result mapped false result) = [].
Proof.
  rewrite show_result_concat.
  induction (Answer (answer result)) as [|rr records IH]; [done|].
  rewrite fmap_cons. cbn [concat]. rewrite file_lines_app, IH.
  unfold show_record. by destruct (outputStr _ _ _ _).
Qed.

Lemma answers_output_snoc (sh : Shared) (answers : list wrappedAnswer)
  (result : wrappedAnswer) :
  answers_output sh (answers ++ [result])
  = answers_output sh answers
    ++ show_result (mappedNameservers sh) (fHandle sh) result.
Proof.
  unfold answers_output. rewrite fmap_app, concat_app. simpl. by rewrite app_nil_r.
Qed.

Lemma from_successful_query_mono (s s' : DState) (more : list (string * string))
  (l : list wrappedAnswer) :
  issued s' = issued s ++ more →
  Forall (from_successful_query s) l → Forall (from_successful_query s') l.
Proof.
  intros Hiss H. eapply Forall_impl; [exact H|]. intros result [Hcode Hin].
  split; [done|]. rewrite Hiss. apply elem_of_app. by left.
Qed.

Lemma SinkInv_init (sh : Shared) (order domainsList : list string)
  (numWorkers sampleSize : Z) :
  SinkInv sh (dinit order domainsList numWorkers sampleSize).
Proof.
  assert (∀ n, concat (qsending_of <$> replicate n QReceiving) = []) as Hrep.
  { induction n as [|n IH]; simpl; done. }
  constructor; unfold handing_over; simpl; rewrite ?Hrep; try done.
Qed.

Lemma SinkInv_step (sh : Shared) (e : DEvent) (s s' : DState) :
  SinkInv sh s → dstep sh e s = Some s' → SinkInv sh s'.
Proof.
  intros [Hfile Hcons Hquiet Hverb Hcount Hsucc] Hstep.
  destruct (dstep_effect _ _ _ _ Hstep) as [_ Heff].
  destruct Heff as [(Hi & Hd & Hh & Hp & Ho)
                   | [(domain & nsIP & err & Hi & Hd & Hh & Hp & Ho)
                     | [(domain & nsIP & resp & Hcode & Hi & Hd & Hh & Hp & Ho)
                       | (result & Hi & Hd & Hh & Hp & Ho)]]].
  - assert (file_lines (output s') = file_lines (output s)
            ∧ console_lines (output s') = console_lines (output s)) as [Hf Hc].
    { destruct Ho as [-> | ->]; [done|].
      by rewrite file_lines_app, console_lines_app, !app_nil_r. }
    constructor; unfold failure_lines, answer_lines in *;
      rewrite ?Hf, ?Hc, ?Hi, ?Hd, ?Hh; try done.
    eapply (from_successful_query_mono s s' []); [by rewrite Hi, app_nil_r | done].
  - constructor; rewrite ?Ho, ?Hd.
    + rewrite file_lines_app, Hfile. destruct (verbose sh); by rewrite app_nil_r.
    + rewrite answer_lines_app, Hcons. destruct (verbose sh); by rewrite app_nil_r.
    + intros Hv. rewrite Hv, app_nil_r. by apply Hquiet.
    + intros Hv. rewrite Hv, failure_lines_app, Hi, Hh, !length_app. simpl.
      specialize (Hverb Hv). lia.
    + rewrite Hi, Hh, length_app. simpl. lia.
    + rewrite Hh. by eapply from_successful_query_mono.
  - constructor; rewrite ?Ho, ?Hd; try done.
    + intros Hv. rewrite Hi, Hh, !length_app. simpl. specialize (Hverb Hv). lia.
    + rewrite Hi, Hh, length_app. simpl. lia.
    + rewrite Hh, <- Permutation_middle. apply Forall_cons. split.
      * split; [done|]. rewrite Hi. simpl. apply elem_of_app. right. by left.
      * by eapply from_successful_query_mono.
  - destruct (show_result_colours (mappedNameservers sh) (fHandle sh) result)
      as [Hred Hans].
    constructor; rewrite ?Ho, ?Hd.
    + by rewrite file_lines_app, answers_output_snoc, file_lines_app, Hfile.
    + by rewrite answer_lines_app, answers_output_snoc, console_lines_app, Hcons, Hans.
    + intros Hv. rewrite failure_lines_app, Hred, app_nil_r. by apply Hquiet.
    + intros Hv. rewrite failure_lines_app, Hred, app_nil_r, Hi, length_app.
      specialize (Hverb Hv). rewrite Hh in Hverb. simpl in *. lia.
    + rewrite Hi, length_app. rewrite Hh in Hcount. simpl in *. lia.
    + rewrite Hh in Hsucc. rewrite <- Permutation_middle in Hsucc.
      rewrite <- app_assoc. simpl. rewrite <- Permutation_middle.
      eapply (from_successful_query_mono s s' []); [by rewrite Hi, app_nil_r | done].
Qed.

Lemma SinkInv_reachable (sh : Shared) (order domainsList : list string)
  (numWorkers sampleSize : Z) (sched : list DEvent) (s : DState) :
  drun sh sched (dinit order domainsList numWorkers sampleSize) = Some s →
  SinkInv sh s.
Proof.
  generalize (SinkInv_init sh order domainsList numWorkers sampleSize).
  generalize (dinit order domainsList numWorkers sampleSize) as s0.
  induction sched as [|e sched IH]; intros s0 Hinv Hrun; simpl in Hrun.
  - by simplify_eq.
  - destruct (dstep sh e s0) as [s1|] eqn:Hstep; [|done]. simpl in Hrun.
    eapply IH; [|exact Hrun]. by eapply SinkInv_step.
Qed.

Lemma length_append (s1 s2 : string) :
  String.length (s1 +:+ s2) = (String.length s1 + String.length s2)%nat.
Proof.
  induction s1 as [|c s1 IH]; [done|].
  change (S (String.length (s1 +:+ s2)) = S (String.length s1 + String.length s2)).
  by rewrite IH.
Qed.

Lemma append_inj_l (s1 s2 t : string) : s1 +:+ t = s2 +:+ t → s1 = s2.
Proof.
  revert s2. induction s1 as [|c s1 IH]; intros [|c2 s2] H.
  - done.
  - apply (f_equal String.length) in H.
    change (String c2 s2 +:+ t) with (String c2 (s2 +:+ t)) in H.
    simpl in H. rewrite !length_append in H. simpl in H. lia.
  - apply (f_equal String.length) in H.
    change (String c s1 +:+ t) with (String c (s1 +:+ t)) in H.
    simpl in H. rewrite !length_append in H. simpl in H. lia.
  - change (String c (s1 +:+ t) = String c2 (s2 +:+ t)) in H.
    injection H as -> H. f_equal. by apply IH.
Qed.

Lemma forallb_qexited_handing (ws : list QWorker) :
  forallb qexited ws = true → concat (qsending_of <$> ws) = [].
Proof.
  induction ws as [|w ws IH]; simpl; [done|].
  intros [Hw Hws]%andb_true_iff. destruct w; try done. simpl. by apply IH.
Qed.

Lemma answers_output_duplicated (sh : Shared) (answers : list wrappedAnswer) :
  fHandle sh = true →
  file_lines (answers_output sh answers)
  = snd <$> console_lines (answers_output sh answers).
Proof.
  intros Hfh. unfold answers_output. rewrite Hfh.
  induction answers as [|result answers IH]; [done|].
  rewrite fmap_cons. cbn [concat].
  by rewrite file_lines_app, console_lines_app, fmap_app, IH, file_duplicates_console.
Qed.

Lemma answers_output_no_file (sh : Shared) (answers : list wrappedAnswer) :
  fHandle sh = false → file_lines (answers_output sh answers) = [].
Proof.
  intros Hfh. unfold answers_output. rewrite Hfh.
  induction answers as [|result answers IH]; [done|].
  rewrite fmap_cons. cbn [concat].
  by rewrite file_lines_app, IH, show_result_no_file.
Qed.

(** X9: the output file receives the lines of the answers the consumer
    received, in the order it received them, and nothing else (no failure
    line, no progress line); when it is open it holds the same texts as the
    answer lines of the console, and without it nothing is written to a
    file. *)
Theorem output_file_holds_the_answers
  (sh : Shared) (order domainsList : list string) (numWorkers sampleSize : Z)
  (sched : list DEvent) (s : DState) :
  drun sh sched (dinit order domainsList numWorkers sampleSize) = Some s →
  file_lines (output s) = file_lines (answers_output sh (delivered s))
  ∧ answer_lines (output s) = console_lines (answers_output sh (delivered s))
  ∧ (fHandle sh = true → file_lines (output s) = snd <$> answer_lines (output s))
  ∧ (fHandle sh = false → file_lines (output s) = []).
Proof.
  intros Hrun. destruct (SinkInv_reachable _ _ _ _ _ _ _ Hrun) as [Hfile Hcons _ _ _ _].
  split_and!; try done.
  - intros Hfh. by rewrite Hfile, Hcons, answers_output_duplicated.
  - intros Hfh. by rewrite Hfile, answers_output_no_file.
Qed.

(** X10: a failed query writes one red line in verbose mode and nothing
    otherwise: without the verbose flag the console never shows a failure
    line, and with it, once the phase is over, every call of [queryDNS] is
    accounted for by an answer received by the consumer or by a failure
    line. *)
Theorem failures_logged_once_when_verbose
  (sh : Shared) (order domainsList : list string) (numWorkers sampleSize : Z)
  (sched : list DEvent) (s : DState) :
  drun sh sched (dinit order domainsList numWorkers sampleSize) = Some s →
  (verbose sh = false → failure_lines (output s) = [])
  ∧ (verbose sh = true → finished s = true →
       length (issued s)
       = (length (delivered s) + length (failure_lines (output s)))%nat).
Proof.
  intros Hrun. destruct (SinkInv_reachable _ _ _ _ _ _ _ Hrun) as [_ _ Hquiet Hverb _ _].
  split; [done|]. intros Hv Hfin. specialize (Hverb Hv).
  pose proof (dinv_drained _ _ (DInv_reachable _ _ _ _ _ _ _ Hrun)) as Hdr.
  unfold finished, handing_over in *. destruct (dispatcher s); try done.
  rewrite (forallb_qexited_handing _ Hdr) in Hverb. simpl in Hverb. lia.
Qed.

(** X11: the consumer only ever receives responses with the success code,
    each for a query that was made with that domain and address. *)
Theorem only_successful_answers_delivered
  (sh : Shared) (order domainsList : list string) (numWorkers sampleSize : Z)
  (sched : list DEvent) (s : DState) :
  drun sh sched (dinit order domainsList numWorkers sampleSize) = Some s →
  (length (delivered s) ≤ length (issued s))%nat
  ∧ ∀ result, result ∈ delivered s →
      Rcode (answer result) = RcodeSuccess
      ∧ (domain_ result, nsIP result +:+ ":53") ∈ issued s
      ∧ domain_ result ∈ domainsList ∧ nsIP result ∈ order ∧ nsIP result ≠ "".
Proof.
  intros Hrun. destruct (SinkInv_reachable _ _ _ _ _ _ _ Hrun) as [_ _ _ _ Hcount Hsucc].
  pose proof (DInv_reachable _ _ _ _ _ _ _ Hrun) as Hinv.
  split; [lia|]. intros result Hin.
  rewrite Forall_forall in Hsucc.
  destruct (Hsucc result) as [Hcode Hiss]; [apply elem_of_app; by left|].
  destruct (issued_origin [] _ _ _ _ _ Hinv Hiss) as (Hd & _ & nsIP' & Heq & Hkey & Hne & _).
  apply append_inj_l in Heq. subst nsIP'. done.
Qed.

Lemma issued_run (sh : Shared) (sched : list DEvent) (s s' : DState) :
  drun sh sched s = Some s' → ∃ more, issued s' = issued s ++ more.
Proof.
  revert s. induction sched as [|e sched IH]; intros s Hrun; simpl in Hrun.
  - simplify_eq. exists []. by rewrite app_nil_r.
  - destruct (dstep sh e s) as [s1|] eqn:Hstep; [|done]. simpl in Hrun.
    destruct (IH _ Hrun) as [more Hmore].
    destruct (dstep_effect _ _ _ _ Hstep) as [_ Heff].
    destruct Heff as [(Hi & _) | [(? & ? & ? & Hi & _)
                     | [(? & ? & ? & _ & Hi & _) | (? & Hi & _)]]];
      rewrite Hmore, Hi, <- ?app_assoc; by eexists.
Qed.

(** X12: the total is stored once and never changes during the query phase,
    and the completed counter only counts up: between two states of a run it
    grows by the number of calls of [queryDNS] made in between. *)
Theorem counters_only_count_up
  (sh : Shared) (order domainsList : list string) (numWorkers sampleSize : Z)
  (sched sched' : list DEvent) (s s' : DState) :
  drun sh sched (dinit order domainsList numWorkers sampleSize) = Some s →
  drun sh sched' s = Some s' →
  total s = int32 sampleSize ∧ total s' = int32 sampleSize
  ∧ ∃ more, issued s' = issued s ++ more
            ∧ progress s' = int32 (progress s + Z.of_nat (length more)).
Proof.
  intros Hrun Hrun'.
  assert (drun sh (sched ++ sched') (dinit order domainsList numWorkers sampleSize)
          = Some s') as Hboth.
  { revert Hrun. generalize (dinit order domainsList numWorkers sampleSize) as s0.
    induction sched as [|e sched IH]; intros s0 Hrun; simpl in *.
    - by simplify_eq.
    - destruct (dstep sh e s0) as [s1|]; [|done]. simpl in *. by apply IH. }
  pose proof (total_run _ _ _ _ Hrun) as Ht. pose proof (total_run _ _ _ _ Hboth) as Ht'.
  split; [done|]. split; [done|].
  destruct (issued_run _ _ _ _ Hrun') as [more Hmore]. exists more. split; [done|].
  rewrite (dinv_progress _ _ (DInv_reachable _ _ _ _ _ _ _ Hrun)).
  rewrite (dinv_progress _ _ (DInv_reachable _ _ _ _ _ _ _ Hboth)).
  rewrite int32_add_l, Hmore, length_app. f_equal. lia.
Qed.
(** ** The query phase: termination and no deadlock *)

Lemma DLive_init (order domainsList : list string) (numWorkers sampleSize : Z) :
  DLive numWorkers (dinit order domainsList numWorkers sampleSize).
Proof.
  constructor; simpl; try done.
  - by rewrite length_replicate.
  - by intros [H _]%elem_of_replicate.
Qed.

Lemma DLive_step (sh : Shared) (numWorkers : Z) (e : DEvent) (s s' : DState) :
  DLive numWorkers s → dstep sh e s = Some s' → DLive numWorkers s'.
Proof.
  intros [Hlen Halive Hdr] Hstep.
  destruct e as [i| |i Exchange| |]; simpl in Hstep.
  - unfold send_step in Hstep.
    destruct (dispatcher s) as [[|query rest]| | |]; try done.
    destruct (qworkers s !! i) as [[| | |]|] eqn:Hw; try done. simplify_eq.
    constructor; simpl; try done.
    + by rewrite length_insert.
    + by intros [H|H]%elem_of_insert_inv.
  - unfold main_step in Hstep.
    destruct (dispatcher s) as [[|query rest]| | |]; try done.
    + simplify_eq. by constructor.
    + destruct (forallb qexited (qworkers s)) eqn:Hall; [|done]. simplify_eq.
      by constructor.
    + destruct (sink_done s); [|done]. simplify_eq. by constructor.
  - unfold qworker_step in Hstep.
    destruct (qworkers s !! i) as [old|] eqn:Hw; [|done].
    assert (old ≠ QExited →
            match dispatcher s with WaitSink | Finished => False | _ => True end) as Hopen.
    { intros Hne. destruct (dispatcher s); try done.
      all: destruct Hne; by eapply forallb_qexited_lookup. }
    destruct old as [|query|result|]; [| | |done]; specialize (Hopen ltac:(done)).
    + destruct (dispatcher s) eqn:Hd; try done. simplify_eq.
      constructor; simpl; rewrite ?Hd; try done. by rewrite length_insert.
    + destruct (Split query "|") as [|domain [|nsIP [|part parts]]] eqn:Hsplit.
      3: destruct (queryDNS Exchange domain (nsIP +:+ ":53")) as [[resp|] [err|]];
           try done.
      all: simpl in Hstep; simplify_eq; constructor; simpl;
        try (by rewrite length_insert).
      all: destruct (dispatcher s); try done.
      all: by intros [H|H]%elem_of_insert_inv.
    + simplify_eq. constructor; simpl; try (by rewrite length_insert).
      all: destruct (dispatcher s); try done.
      by intros [H|H]%elem_of_insert_inv.
  - unfold sink_step in Hstep. destruct (dispatcher s) eqn:Hd; try done.
    destruct (sink_done s); [done|]. simplify_eq.
    constructor; simpl; rewrite ?Hd; done.
  - unfold enter_step in Hstep. simplify_eq. by constructor.
Qed.

Lemma DLive_reachable (sh : Shared) (order domainsList : list string)
  (numWorkers sampleSize : Z) (sched : list DEvent) (s : DState) :
  drun sh sched (dinit order domainsList numWorkers sampleSize) = Some s →
  DLive numWorkers s.
Proof.
  generalize (DLive_init order domainsList numWorkers sampleSize).
  generalize (dinit order domainsList numWorkers sampleSize) as s0.
  induction sched as [|e sched IH]; intros s0 Hinv Hrun; simpl in Hrun.
  - by simplify_eq.
  - destruct (dstep sh e s0) as [s1|] eqn:Hstep; [|done]. simpl in Hrun.
    eapply IH; [|exact Hrun]. by eapply DLive_step.
Qed.

Lemma dmeasure_step (sh : Shared) (e : DEvent) (s s' : DState) :
  dstep sh e s = Some s' →
  if is_enter e then dmeasure s' = dmeasure s else (dmeasure s' < dmeasure s)%nat.
Proof.
  intros Hstep. unfold dmeasure.
  destruct e as [i| |i Exchange| |]; simpl in Hstep; simpl is_enter; cbv iota.
  - unfold send_step in Hstep.
    destruct (dispatcher s) as [[|query rest]| | |]; try done.
    destruct (qworkers s !! i) as [[| | |]|] eqn:Hw; try done. simplify_eq.
    pose proof (sum_list_fmap_insert qworker_weight _ _ _ (QQuerying query) Hw) as Hsum.
    simpl in *. lia.
  - unfold main_step in Hstep.
    destruct (dispatcher s) as [[|query rest]| | |]; try done.
    + simplify_eq. simpl. lia.
    + destruct (forallb qexited (qworkers s)); [|done]. simplify_eq. simpl. lia.
    + destruct (sink_done s) eqn:Hsd; [|done]. simplify_eq. simpl. rewrite ?Hsd. lia.
  - unfold qworker_step in Hstep.
    destruct (qworkers s !! i) as [old|] eqn:Hw; [|done].
    pose proof (λ new, sum_list_fmap_insert qworker_weight (qworkers s) i old new Hw)
      as Hsum.
    destruct old as [|query|result|]; [| | |done].
    + destruct (dispatcher s); try done; simplify_eq.
      all: specialize (Hsum QExited); simpl in *; lia.
    + destruct (Split query "|") as [|domain [|nsIP [|part parts]]] eqn:Hsplit.
      3: destruct (queryDNS Exchange domain (nsIP +:+ ":53")) as [[resp|] [err|]];
           try done.
      all: simpl in Hstep; simplify_eq; simpl.
      all: try (specialize (Hsum QReceiving); simpl in Hsum; lia).
      specialize (Hsum (QSending {| nsIP := nsIP; domain_ := domain; answer := resp |})).
      simpl in Hsum. lia.
    + simplify_eq. specialize (Hsum QReceiving). simpl in *. lia.
  - unfold sink_step in Hstep. destruct (dispatcher s); try done.
    destruct (sink_done s) eqn:Hsd; [done|]. simplify_eq. simpl. lia.
  - unfold enter_step in Hstep. by simplify_eq.
Qed.

Lemma dmeasure_run (sh : Shared) (sched : list DEvent) (s s' : DState) :
  drun sh sched s = Some s' →
  (length (filter (λ e, is_enter e = false) sched) + dmeasure s' ≤ dmeasure s)%nat.
Proof.
  revert s. induction sched as [|e sched IH]; intros s Hrun; simpl in Hrun.
  - simplify_eq. simpl. lia.
  - destruct (dstep sh e s) as [s1|] eqn:Hstep; [|done]. simpl in Hrun.
    specialize (IH _ Hrun). pose proof (dmeasure_step _ _ _ _ Hstep) as Hm.
    destruct (is_enter e) eqn:He.
    + rewrite filter_cons_False by (by rewrite He). lia.
    + rewrite filter_cons_True by done. simpl. lia.
Qed.

Lemma dmeasure_init (order domainsList : list string) (numWorkers sampleSize : Z) :
  dmeasure (dinit order domainsList numWorkers sampleSize)
  = (3 * length (dispatch_queries order domainsList) + Z.to_nat numWorkers + 4)%nat.
Proof.
  unfold dmeasure, dinit.
  cbn [dispatcher qworkers sink_done dispatcher_weight].
  rewrite fmap_replicate, sum_list_replicate. simpl qworker_weight. lia.
Qed.

Lemma forallb_qexited_false (ws : list QWorker) :
  forallb qexited ws = false → ∃ i w, ws !! i = Some w ∧ qexited w = false.
Proof.
  induction ws as [|w ws IH]; simpl; [done|].
  destruct (qexited w) eqn:Hw; simpl.
  - intros H. destruct (IH H) as (i & w' & Hi & Hw'). by exists (S i), w'.
  - intros _. by exists 0%nat, w.
Qed.

Lemma qworker_can_step (sh : Shared) (i : nat) (s : DState) (w : QWorker) :
  qworkers s !! i = Some w →
  match w with
  | QReceiving => match dispatcher s with Dispatching _ => False | _ => True end
  | QExited => False
  | _ => True
  end →
  ∀ Exchange, is_Some (dstep sh (DWorker i Exchange) s).
Proof.
  intros Hw Hok Exchange. simpl. unfold qworker_step. rewrite Hw.
  destruct w as [|query|result|]; [| | |done].
  - destruct (dispatcher s); try done; by eexists.
  - destruct (Split query "|") as [|domain [|nsIP [|part parts]]]; try by eexists.
    destruct (queryDNS_one_of Exchange domain (nsIP +:+ ":53")) as [[r ->] | [e ->]];
      by eexists.
  - by eexists.
Qed.

Lemma DLive_can_proceed (sh : Shared) (numWorkers : Z) (s : DState) :
  0 < numWorkers → DLive numWorkers s → finished s = false → can_proceed sh s.
Proof.
  intros Hpos [Hlen Halive Hdr] Hfin. unfold can_proceed, finished in *.
  destruct (dispatcher s) as [[|query rest]| | |] eqn:Hd; [| | | |done].
  - left. simpl. unfold main_step. rewrite Hd. by eexists.
  - destruct (qworkers s) as [|w0 ws] eqn:Hws; [simpl in Hlen; lia|].
    destruct w0 as [|query0|result|].
    + right; right; left. exists 0%nat. simpl. unfold send_step.
      rewrite Hd, Hws. simpl. by eexists.
    + right; right; right. exists 0%nat.
      apply (qworker_can_step sh 0 s (QQuerying query0)); [by rewrite Hws | done].
    + right; right; right. exists 0%nat.
      apply (qworker_can_step sh 0 s (QSending result)); [by rewrite Hws | done].
    + destruct Halive. by left.
  - destruct (forallb qexited (qworkers s)) eqn:Hall.
    + left. simpl. unfold main_step. rewrite Hd, Hall. by eexists.
    + destruct (forallb_qexited_false _ Hall) as (i & w & Hw & Hne).
      right; right; right. exists i.
      apply (qworker_can_step sh i s w Hw). rewrite Hd. by destruct w.
  - destruct (sink_done s) eqn:Hsd.
    + left. simpl. unfold main_step. rewrite Hd, Hsd. by eexists.
    + right; left. simpl. unfold sink_step. rewrite Hd, Hsd. by eexists.
Qed.

Lemma DLive_completes (sh : Shared) (numWorkers : Z) (s : DState) :
  0 < numWorkers → DLive numWorkers s →
  ∃ sched s', drun sh sched s = Some s' ∧ finished s' = true.
Proof.
  intros Hpos. remember (dmeasure s) as n eqn:Hn. revert s Hn.
  induction n as [n IH] using lt_wf_ind. intros s Hn Hlive.
  destruct (finished s) eqn:Hfin; [by exists [], s|].
  assert (∃ e s1, is_enter e = false ∧ dstep sh e s = Some s1) as (e & s1 & He & H1).
  { destruct (DLive_can_proceed sh _ _ Hpos Hlive Hfin)
      as [[s1 H1] | [[s1 H1] | [[i [s1 H1]] | [i Hi]]]].
    - by exists DMain, s1.
    - by exists DSink, s1.
    - by exists (DSend i), s1.
    - destruct (Hi (λ _ _, Failed None "")) as [s1 H1].
      by exists (DWorker i (λ _ _, Failed None "")), s1. }
  pose proof (dmeasure_step _ _ _ _ H1) as Hm. rewrite He in Hm.
  destruct (IH (dmeasure s1)) with (s := s1) as (sched & s' & Hrun & Hdone);
    [lia | done | by eapply DLive_step |].
  exists (e :: sched), s'. simpl. rewrite H1. by simpl.
Qed.

Lemma drun_app (sh : Shared) (sched1 sched2 : list DEvent) (s : DState) :
  drun sh (sched1 ++ sched2) s = s' ← drun sh sched1 s; drun sh sched2 s'.
Proof.
  revert s. induction sched1 as [|e sched1 IH]; intros s; simpl; [done|].
  destruct (dstep sh e s) as [s1|]; simpl; [apply IH | done].
Qed.

(** X13: with a positive number of workers the query phase always comes to
    its end: apart from the operator pressing enter, a run has a bounded
    number of steps, is never stuck before [wg2.Wait()] returns whatever the
    network does, and can always be completed. *)
Theorem query_phase_always_finishes
  (sh : Shared) (order domainsList : list string) (numWorkers sampleSize : Z)
  (sched : list DEvent) (s : DState) :
  0 < numWorkers →
  drun sh sched (dinit order domainsList numWorkers sampleSize) = Some s →
  (length (filter (λ e, is_enter e = false) sched)
   ≤ 3 * length (dispatch_queries order domainsList) + Z.to_nat numWorkers + 4)%nat
  ∧ (finished s = false → can_proceed sh s)
  ∧ ∃ sched' s',
      drun sh (sched ++ sched') (dinit order domainsList numWorkers sampleSize) = Some s'
      ∧ finished s' = true.
Proof.
  intros Hpos Hrun. pose proof (DLive_reachable _ _ _ _ _ _ _ Hrun) as Hlive.
  split_and!.
  - pose proof (dmeasure_run _ _ _ _ Hrun) as Hm. rewrite dmeasure_init in Hm. lia.
  - by apply (DLive_can_proceed sh numWorkers).
  - destruct (DLive_completes sh _ _ Hpos Hlive) as (sched' & s' & Hrun' & Hfin).
    exists sched', s'. by rewrite drun_app, Hrun.
Qed.
(** ** The statements above on concrete runs of the query phase *)

Lemma barred_queries_are_dropped_witness :
  ∃ s,
    drun shared_one (sched_barred (respond 0 [dns_A "198.51.100.9"]))
      (dinit keys_barred domains_barred 1 4) = Some s
    ∧ issued s ≡ₚ [("a.test", "203.0.113.5:53")]
    ∧ progress s = 1.
Proof.
  assert (∃ s,
            drun shared_one (sched_barred (respond 0 [dns_A "198.51.100.9"]))
              (dinit keys_barred domains_barred 1 4) = Some s
            ∧ finished s = true) as (s & Hrun & Hfin).
  { eexists. split; [vm_compute; reflexivity | reflexivity]. }
  exists s.
  destruct (barred_queries_are_dropped _ _ _ _ _ _ _ Hrun) as [_ Hend].
  destruct (Hend Hfin) as [Hissued Hprog].
  split; [exact Hrun|]. split; [exact Hissued | exact Hprog].
Defined.

Lemma output_file_holds_the_answers_witness :
  ∃ s,
    drun shared_one (sched_barred (respond 0 [dns_A "198.51.100.9"]))
      (dinit keys_barred domains_barred 1 4) = Some s
    ∧ file_lines (output s) = snd <$> answer_lines (output s).
Proof.
  destruct (drun shared_one (sched_barred (respond 0 [dns_A "198.51.100.9"]))
              (dinit keys_barred domains_barred 1 4)) as [s|] eqn:Hrun;
    [|by vm_compute in Hrun].
  exists s. split; [reflexivity|].
  destruct (output_file_holds_the_answers _ _ _ _ _ _ _ Hrun) as (_ & _ & Hfile & _).
  apply Hfile. reflexivity.
Defined.

Lemma failures_logged_once_when_verbose_witness :
  ∃ s,
    drun shared_one sched_failed_query (dinit ["203.0.113.5"] ["a.test"] 1 1) = Some s
    ∧ length (issued s)
      = (length (delivered s) + length (failure_lines (output s)))%nat.
Proof.
  assert (∃ s,
            drun shared_one sched_failed_query
              (dinit ["203.0.113.5"] ["a.test"] 1 1) = Some s
            ∧ finished s = true) as (s & Hrun & Hfin).
  { eexists. split; [vm_compute; reflexivity | reflexivity]. }
  exists s. split; [exact Hrun|].
  destruct (failures_logged_once_when_verbose _ _ _ _ _ _ _ Hrun) as [_ Hverbose].
  apply Hverbose; [reflexivity | exact Hfin].
Defined.

Lemma only_successful_answers_delivered_witness :
  ∃ s,
    drun shared_one (sched_barred (respond 0 [dns_A "198.51.100.9"]))
      (dinit keys_barred domains_barred 1 4) = Some s
    ∧ (length (delivered s) ≤ length (issued s))%nat.
Proof.
  destruct (drun shared_one (sched_barred (respond 0 [dns_A "198.51.100.9"]))
              (dinit keys_barred domains_barred 1 4)) as [s|] eqn:Hrun;
    [|by vm_compute in Hrun].
  exists s. split; [reflexivity|].
  by destruct (only_successful_answers_delivered _ _ _ _ _ _ _ Hrun) as [Hle _].
Defined.

Lemma counters_only_count_up_witness :
  ∃ s s',
    drun shared_one (sched_barred_start (respond 0 [dns_A "198.51.100.9"]))
      (dinit keys_barred domains_barred 1 4) = Some s
    ∧ drun shared_one (sched_barred_end (respond 0 [dns_A "198.51.100.9"])) s = Some s'
    ∧ total s = 4 ∧ total s' = 4.
Proof.
  destruct (drun shared_one (sched_barred_start (respond 0 [dns_A "198.51.100.9"]))
              (dinit keys_barred domains_barred 1 4)) as [s|] eqn:Hrun;
    [|by vm_compute in Hrun].
  assert (∃ s', drun shared_one (sched_barred_end (respond 0 [dns_A "198.51.100.9"])) s
                = Some s') as [s' Hrun'].
  { vm_compute in Hrun. injection Hrun as <-. eexists. vm_compute. reflexivity. }
  exists s, s'. split; [reflexivity|]. split; [exact Hrun'|].
  destruct (counters_only_count_up _ _ _ _ _ _ _ _ _ Hrun Hrun') as (Ht & Ht' & _).
  split; [exact Ht | exact Ht'].
Defined.

Lemma query_phase_always_finishes_witness :
  ∃ s,
    drun shared_one (sched_barred_start (respond 0 [])) (dinit keys_barred domains_barred 1 4)
    = Some s
    ∧ (finished s = false → can_proceed shared_one s).
Proof.
  destruct (drun shared_one (sched_barred_start (respond 0 []))
              (dinit keys_barred domains_barred 1 4)) as [s|] eqn:Hrun;
    [|by vm_compute in Hrun].
  exists s. split; [reflexivity|].
  destruct (query_phase_always_finishes _ _ _ _ _ _ _ (eq_refl : 0 < 1) Hrun) as (_ & Hmove & _).
  exact Hmove.
Defined.
(** ** Start-up: the list files *)

Lemma read_file_spec (fs : FS) (name : string) (acc : list string) :
  opened (read_file fs name acc).1 = [name]
  ∧ Forall (λ e, is_print e = false) (read_file fs name acc).1
  ∧ match (read_file fs name acc).2 with
    | Some acc' =>
        readable fs name ∧ acc' = acc ++ lines_of fs name
        ∧ (read_file fs name acc).1 = [Open name]
    | None =>
        ¬ readable fs name
        ∧ ∃ msg, (read_file fs name acc).1 = [Open name; Fatalf msg]
    end.
Proof.
  unfold read_file, readable, lines_of.
  destruct (os_Open fs name) as [err|lines [err|]]; simpl.
  - split; [done|]. split; [by repeat constructor|].
    split; [by intros [? ?] | by eexists].
  - split; [done|]. split; [by repeat constructor|].
    split; [by intros [? ?] | by eexists].
  - split; [done|]. split; [by repeat constructor|]. split; [by eexists | done].
Qed.

Lemma read_files_spec (fs : FS) (names : list string) (acc : list string) :
  Forall (λ e, is_print e = false) (read_files fs names acc).1
  ∧ match (read_files fs names acc).2 with
    | Some acc' =>
        Forall (readable fs) names
        ∧ acc' = acc ++ concat (lines_of fs <$> names)
        ∧ opened (read_files fs names acc).1 = names
        ∧ Forall (λ e, is_fatal e = false) (read_files fs names acc).1
    | None =>
        ¬ Forall (readable fs) names
        ∧ opened (read_files fs names acc).1 `prefix_of` names
        ∧ ∃ eff msg,
            (read_files fs names acc).1 = eff ++ [Fatalf msg]
            ∧ Forall (λ e, is_fatal e = false) eff
    end.
Proof.
  revert acc. induction names as [|name names IH]; intros acc.
  - simpl. by rewrite app_nil_r.
  - cbn [read_files].
    destruct (read_file_spec fs name acc) as (Hopen & Hquiet & Hres).
    destruct (read_file fs name acc) as [eff [acc'|]]; simpl in *.
    + destruct Hres as (Hread & -> & ->).
      specialize (IH (acc ++ lines_of fs name)).
      destruct (read_files fs names (acc ++ lines_of fs name)) as [eff' r]; simpl in *.
      destruct IH as [Hquiet' IH]. split; [by constructor|].
      destruct r as [acc'|].
      * destruct IH as (Hall & -> & Hopened & Hharmless).
        split; [by constructor|]. rewrite <- app_assoc. split; [done|].
        split; [by rewrite Hopened | by constructor].
      * destruct IH as (Hnot & Hprefix & eff0 & msg & -> & Hharmless).
        split; [by intros [_ ?]%Forall_cons|].
        split; [by apply prefix_cons|].
        exists (Open name :: eff0), msg. split; [done | by constructor].
    + destruct Hres as (Hnot & msg & ->). split; [done|].
      split; [by intros [? _]%Forall_cons|].
      split; [by apply prefix_cons, prefix_nil|].
      exists [Open name], msg. split; [done | by repeat constructor].
Qed.

Ltac solve_Forall_app :=
  first [done | rewrite ?Forall_app; repeat split; (done || by repeat constructor)].

Lemma startup_spec (flags : Flags) (fs : FS) :
  (quietMode flags = true → Forall (λ e, is_print e = false) (startup flags fs).1)
  ∧ match (startup flags fs).2 with
    | Some (nameservers, domainsList) =>
        startup_ok flags fs
        ∧ nameservers = concat (lines_of fs <$> providerLists flags)
        ∧ domainsList = (if bool_decide (domainsFile flags ≠ "")
                         then lines_of fs (domainsFile flags) else [domain flags])
        ∧ opened (startup flags fs).1 = list_files flags
        ∧ Forall (λ e, is_fatal e = false) (startup flags fs).1
    | None =>
        ¬ startup_ok flags fs
        ∧ opened (startup flags fs).1 `prefix_of` list_files flags
        ∧ ∃ eff msg,
            (startup flags fs).1 = eff ++ [Fatalf msg]
            ∧ Forall (λ e, is_fatal e = false) eff
    end.
Proof.
  unfold startup, startup_ok, list_files. fold (providerLists flags).
  set (eff0 := if quietMode flags then [] else _).
  assert (opened eff0 = [] ∧ Forall (λ e, is_fatal e = false) eff0
          ∧ (quietMode flags = true → eff0 = [])) as (Ho0 & Hf0 & Hq0).
  { subst eff0. destruct (quietMode flags); by repeat constructor. }
  assert (∀ l1 l2, opened (l1 ++ l2) = opened l1 ++ opened l2) as Happ.
  { intros l1 l2. unfold opened. apply omap_app. }
  case_bool_decide as Hworkers.
  { simpl. split.
    - intros Hq. rewrite (Hq0 Hq). simpl. solve_Forall_app.
    - split; [intros [? _]; lia|]. rewrite Happ, Ho0. split; [apply prefix_nil|].
      by eexists _, _. }
  destruct (read_files_spec fs (providerLists flags) []) as [Hquiet1 Hres1].
  destruct (read_files fs (providerLists flags) []) as [eff1 [nameservers|]];
    simpl in Hquiet1, Hres1.
  2: { destruct Hres1 as (Hnot & Hprefix & eff & msg & -> & Hharmless). simpl. split.
       - intros Hq. rewrite (Hq0 Hq). simpl. solve_Forall_app.
       - split; [by intros (_ & [? _]%Forall_app & _)|].
         rewrite Happ, Ho0. split; [by apply prefix_app_r|].
         exists (eff0 ++ eff), msg. rewrite app_assoc. split; [done|].
         by apply Forall_app. }
  destruct Hres1 as (Hall1 & -> & Hopened1 & Hharmless1).
  case_bool_decide as Hfile.
  - destruct (read_file_spec fs (domainsFile flags) []) as (Hopen2 & Hquiet2 & Hres2).
    destruct (read_file fs (domainsFile flags) []) as [eff2 [domainsList|]];
      simpl in Hopen2, Hquiet2, Hres2; simpl.
    + destruct Hres2 as (Hread & -> & ->). split.
      { intros Hq. rewrite (Hq0 Hq). simpl. solve_Forall_app. }
      split; [|split; [done|]; split; [done|]; split].
      * split; [lia|]. split; [|done]. apply Forall_app. by repeat constructor.
      * by rewrite !Happ, Ho0, Hopened1.
      * apply Forall_app. split; [done|]. apply Forall_app. by repeat constructor.
    + destruct Hres2 as (Hnot & msg & ->). split.
      { intros Hq. rewrite (Hq0 Hq). simpl. solve_Forall_app. }
      split; [intros (_ & [_ [? _]%Forall_cons]%Forall_app & _); done|].
      split; [by rewrite !Happ, Ho0, Hopened1|].
      exists (eff0 ++ eff1 ++ [Open (domainsFile flags)]), msg.
      split; [by rewrite <- !app_assoc|].
      apply Forall_app. split; [done|]. apply Forall_app. by repeat constructor.
  - assert (domainsFile flags = "") as Hnofile.
    { destruct (decide (domainsFile flags = "")); [done|]. by destruct Hfile. }
    case_bool_decide as Hdomain; simpl.
    + split.
      { intros Hq. rewrite (Hq0 Hq). simpl. solve_Forall_app. }
      split; [intros (_ & _ & Hd); by apply Hd|].
      rewrite !Happ, Ho0, Hopened1. simpl. rewrite app_nil_r. split; [done|].
      eexists (eff0 ++ eff1), _. rewrite <- app_assoc. split; [done|]. by apply Forall_app.
    + split.
      { intros Hq. rewrite (Hq0 Hq). simpl. solve_Forall_app. }
      split; [|split; [done|]; split; [done|]; split].
      * split; [lia|]. by rewrite app_nil_r.
      * by rewrite !Happ, Ho0, Hopened1, app_nil_r.
      * by apply Forall_app.
Qed.

(** X14: start-up gets to the two lists exactly when the worker count is
    positive, every list file (those of the provider, then the domain list
    if one is given) opens and scans without error, and a domain is given
    when no domain list is. *)
Theorem startup_succeeds_iff (flags : Flags) (fs : FS) :
  is_Some (startup flags fs).2 ↔ startup_ok flags fs.
Proof.
  destruct (startup_spec flags fs) as [_ Hspec].
  destruct (startup flags fs).2 as [[nameservers domainsList]|].
  - destruct Hspec as [Hok _]. split; [done | by eexists].
  - destruct Hspec as [Hnot _]. split; [by intros [? ?] | done].
Qed.

(** X15: after a successful start-up the name servers are the lines of the
    provider's list files, file after file in the order of the provider's
    entry; the domains are the lines of the domain list if one is given and
    the single [-d] domain otherwise; and exactly those files were opened,
    in that order. *)
Theorem startup_lists (flags : Flags) (fs : FS) (eff : list Effect)
  (nameservers domainsList : list string) :
  startup flags fs = (eff, Some (nameservers, domainsList)) →
  nameservers = concat (lines_of fs <$> providerLists flags)
  ∧ domainsList = (if bool_decide (domainsFile flags ≠ "")
                   then lines_of fs (domainsFile flags) else [domain flags])
  ∧ opened eff = list_files flags.
Proof.
  intros Hstart. destruct (startup_spec flags fs) as [_ Hspec].
  rewrite Hstart in Hspec. simpl in Hspec.
  by destruct Hspec as (_ & ? & ? & ? & _).
Qed.

Lemma startup_with_domain (d : string) (flags : Flags) (fs : FS) :
  domainsFile flags ≠ "" → startup (with_domain d flags) fs = startup flags fs.
Proof.
  intros Hfile. unfold startup. simpl.
  by rewrite (bool_decide_eq_true_2 (domainsFile flags ≠ "")) by done.
Qed.

(** X16: when a domain list is given the [-d] flag is not looked at: the
    whole run is the same for any value of it. *)
Theorem domain_flag_ignored_with_list
  (d : string) (flags : Flags) (fs : FS)
  (rsched : list REvent) (order : list string) (dsched : list DEvent) :
  domainsFile flags ≠ "" →
  main (with_domain d flags) fs rsched order dsched
  = main flags fs rsched order dsched.
Proof.
  intros Hfile. unfold main. by rewrite startup_with_domain.
Qed.

Lemma main_effects (flags : Flags) (fs : FS)
  (rsched : list REvent) (order : list string) (dsched : list DEvent) (run : Run) :
  main flags fs rsched order dsched = Some run →
  (effects run = (startup flags fs).1 ∧ (startup flags fs).2 = None
   ∧ resolution run = None ∧ querying run = None)
  ∨ ∃ r prints,
      is_Some (startup flags fs).2
      ∧ resolution run = Some r
      ∧ Forall (λ e, ∃ text, e = Printf text) prints
      ∧ (quietMode flags = true → prints = [])
      ∧ ((effects run = (startup flags fs).1 ++ prints
          ∧ (returned r = false ∨ outputFile flags = "")
          ∧ (returned r = false → querying run = None))
         ∨ (returned r = true ∧ outputFile flags ≠ ""
            ∧ ((effects run = (startup flags fs).1 ++ prints ++ [OpenFile (outputFile flags)]
                ∧ os_OpenFile fs (outputFile flags) = None ∧ is_Some (querying run))
               ∨ ∃ err,
                   os_OpenFile fs (outputFile flags) = Some err
                   ∧ effects run
                     = (startup flags fs).1 ++ prints
                       ++ [OpenFile (outputFile flags);
                           Fatalf (Some ("[-] Could not create output file: " +:+ err))]
                   ∧ querying run = None))).
Proof.
  unfold main. destruct (startup flags fs) as [eff0 [[nameservers domainsList]|]]; simpl.
  2: { intros [= <-]. by left. }
  set (eff1 := if quietMode flags then [] else _).
  destruct (rrun rsched _) as [r|]; simpl; [|done].
  assert (Forall (λ e, ∃ text, e = Printf text) eff1 ∧ (quietMode flags = true → eff1 = []))
    as [Hp1 Hq1].
  { subst eff1. destruct (quietMode flags); split; try done; repeat constructor; by eexists. }
  destruct (returned r) eqn:Hret.
  2: { intros [= <-]. right. exists r, eff1. simpl. split; [by eexists|].
       split; [done|]. split; [done|]. split; [done|]. left. by auto. }
  set (eff2 := if quietMode flags then [] else _).
  assert (Forall (λ e, ∃ text, e = Printf text) eff2 ∧ (quietMode flags = true → eff2 = []))
    as [Hp2 Hq2].
  { subst eff2. destruct (quietMode flags); split; try done; repeat constructor; by eexists. }
  case_bool_decide as Hout.
  - destruct (os_OpenFile fs (outputFile flags)) as [err|] eqn:Hopen.
    + intros [= <-]. right. exists r, (eff1 ++ eff2). simpl.
      split; [by eexists|]. split; [done|]. split; [by apply Forall_app|].
      split; [by intros Hq; rewrite Hq1, Hq2|].
      right. split; [done|]. split; [done|]. right. exists err. split; [done|].
      split; [|done]. rewrite <- !app_assoc. do 3 f_equal.
      unfold Sprintf. simpl. by rewrite append_empty_r.
    + case_bool_decide as Horder; [|done].
      destruct (drun _ dsched _) as [d|]; simpl; [|done].
      intros [= <-]. right. exists r, (eff1 ++ eff2). simpl.
      split; [by eexists|]. split; [done|]. split; [by apply Forall_app|].
      split; [by intros Hq; rewrite Hq1, Hq2|].
      right. split; [done|]. split; [done|]. left.
      split; [by rewrite <- !app_assoc|]. split; [done | by eexists].
  - assert (outputFile flags = "") as Hnone.
    { destruct (decide (outputFile flags = "")); [done|]. by destruct Hout. }
    case_bool_decide as Horder; [|done].
    destruct (drun _ dsched _) as [d|]; simpl; [|done].
    intros [= <-]. right. exists r, (eff1 ++ eff2). simpl.
    split; [by eexists|]. split; [done|]. split; [by apply Forall_app|].
    split; [by intros Hq; rewrite Hq1, Hq2|].
    left. rewrite app_nil_r. split; [done|]. split; [by right | by rewrite Hret].
Qed.

(** X17: a fatal error is the last thing a run does, and no query is made in
    a run that has one; a run without one got through start-up. *)
Theorem fatal_error_ends_run (flags : Flags) (fs : FS)
  (rsched : list REvent) (order : list string) (dsched : list DEvent) (run : Run) :
  main flags fs rsched order dsched = Some run →
  (Forall (λ e, is_fatal e = false) (effects run) ∧ is_Some (resolution run))
  ∨ ∃ eff msg,
      effects run = eff ++ [Fatalf msg]
      ∧ Forall (λ e, is_fatal e = false) eff
      ∧ querying run = None.
Proof.
  intros Hmain. destruct (startup_spec flags fs) as [_ Hspec].
  assert (∀ prints, Forall (λ e, ∃ text, e = Printf text) prints →
                    Forall (λ e, is_fatal e = false) prints) as Hprints.
  { intros prints H. eapply Forall_impl; [exact H|]. by intros e [text ->]. }
  destruct (main_effects _ _ _ _ _ _ Hmain)
    as [(Heff & Hnone & _ & Hq)
       | (r & prints & [lists Hsome] & Hres & Hp & _ & Hcases)].
  - right. rewrite Hnone in Hspec. destruct Hspec as (_ & _ & eff & msg & Hlast & Hharmless).
    exists eff, msg. by rewrite Heff.
  - rewrite Hsome in Hspec. destruct lists as [nameservers domainsList].
    destruct Hspec as (_ & _ & _ & _ & Hharmless). apply Hprints in Hp.
    destruct Hcases as [(Heff & _) | (_ & _ & [(Heff & _) | (err & _ & Heff & Hq)])].
    + left. rewrite Heff, Hres. split; [by apply Forall_app | by eexists].
    + left. rewrite Heff, Hres. split; [|by eexists].
      apply Forall_app. split; [done|]. apply Forall_app. by repeat constructor.
    + right.
      exists ((startup flags fs).1 ++ prints ++ [OpenFile (outputFile flags)]),
             (Some ("[-] Could not create output file: " +:+ err)).
      rewrite Heff. split; [by rewrite <- !app_assoc|]. split; [|done].
      apply Forall_app. split; [done|]. apply Forall_app. by repeat constructor.
Qed.

(** X18: in quiet mode a run prints nothing on standard output: no banner, no
    summary and no phase message. *)
Theorem quiet_mode_prints_nothing (flags : Flags) (fs : FS)
  (rsched : list REvent) (order : list string) (dsched : list DEvent) (run : Run) :
  quietMode flags = true →
  main flags fs rsched order dsched = Some run →
  Forall (λ e, is_print e = false) (effects run).
Proof.
  intros Hquiet Hmain. destruct (startup_spec flags fs) as [Hsilent _].
  specialize (Hsilent Hquiet).
  destruct (main_effects _ _ _ _ _ _ Hmain)
    as [(Heff & _) | (r & prints & _ & _ & _ & Hnil & Hcases)].
  - by rewrite Heff.
  - rewrite (Hnil Hquiet) in Hcases. simpl in Hcases.
    destruct Hcases as [(Heff & _) | (_ & _ & [(Heff & _) | (err & _ & Heff & _)])];
      rewrite Heff, ?app_nil_r; [done| |];
      apply Forall_app; split; by repeat constructor.
Qed.

Lemma read_files_no_OpenFile (fs : FS) (names : list string) (acc : list string) :
  Forall (λ e, ∀ name, e ≠ OpenFile name) (read_files fs names acc).1.
Proof.
  revert acc. induction names as [|name names IH]; intros acc; [by constructor|].
  cbn [read_files].
  assert (Forall (λ e, ∀ name, e ≠ OpenFile name) (read_file fs name acc).1) as Hone.
  { unfold read_file. destruct (os_Open fs name) as [err|lines [err|]];
      by repeat constructor. }
  destruct (read_file fs name acc) as [eff [acc'|]]; simpl in *; [|done].
  specialize (IH acc'). destruct (read_files fs names acc') as [eff' r]; simpl in *.
  by apply Forall_app.
Qed.

Lemma startup_no_OpenFile (flags : Flags) (fs : FS) :
  Forall (λ e, ∀ name, e ≠ OpenFile name) (startup flags fs).1.
Proof.
  unfold startup. fold (providerLists flags).
  set (eff0 := if quietMode flags then [] else _).
  assert (Forall (λ e, ∀ name, e ≠ OpenFile name) eff0) as H0.
  { subst eff0. destruct (quietMode flags); by repeat constructor. }
  case_bool_decide; [apply Forall_app; by repeat constructor|].
  pose proof (read_files_no_OpenFile fs (providerLists flags) []) as H1.
  destruct (read_files fs (providerLists flags) []) as [eff1 [nameservers|]];
    simpl in H1; [|by apply Forall_app].
  case_bool_decide.
  - assert (Forall (λ e, ∀ name, e ≠ OpenFile name)
              (read_file fs (domainsFile flags) []).1) as Hdom.
    { unfold read_file. destruct (os_Open fs _) as [err|lines [err|]];
        by repeat constructor. }
    destruct (read_file fs (domainsFile flags) []) as [eff2 [domainsList|]];
      simpl in *; rewrite !Forall_app; by repeat split.
  - case_bool_decide; simpl; rewrite !Forall_app; repeat split; try done.
    by repeat constructor.
Qed.

(** X19: the output file is created only when one is asked for and only once
    every name server has been resolved; if it cannot be created the run
    ends there with a fatal error, the resolution is lost and no query is
    made. *)
Theorem output_file_failure_is_fatal (flags : Flags) (fs : FS)
  (rsched : list REvent) (order : list string) (dsched : list DEvent) (run : Run) :
  main flags fs rsched order dsched = Some run →
  (∀ name, OpenFile name ∈ effects run →
     name = outputFile flags ∧ name ≠ ""
     ∧ ∃ r, resolution run = Some r ∧ returned r = true)
  ∧ (∀ err, OpenFile (outputFile flags) ∈ effects run →
       os_OpenFile fs (outputFile flags) = Some err →
       querying run = None
       ∧ last (effects run)
         = Some (Fatalf (Some ("[-] Could not create output file: " +:+ err)))).
Proof.
  intros Hmain. pose proof (startup_no_OpenFile flags fs) as Hstart.
  assert (∀ name prints, Forall (λ e, ∃ text, e = Printf text) prints →
                         OpenFile name ∉ (startup flags fs).1 ++ prints) as Hnot.
  { intros name prints Hp [Hin|Hin]%elem_of_app.
    - rewrite Forall_forall in Hstart. by apply (Hstart _ Hin name).
    - rewrite Forall_forall in Hp. by destruct (Hp _ Hin). }
  destruct (main_effects _ _ _ _ _ _ Hmain)
    as [(Heff & _) | (r & prints & _ & Hres & Hp & _ & Hcases)].
  { assert (∀ name, OpenFile name ∉ effects run) as Hnone.
    { intros name Hin. rewrite Heff in Hin. apply (Hnot name []); [done|].
      by rewrite app_nil_r. }
    split; [intros name Hin | intros err Hin _]; by destruct (Hnone _ Hin). }
  destruct Hcases
    as [(Heff & _) | (Hret & Hout & [(Heff & Hopen & _) | (err & Hopen & Heff & Hq)])].
  - assert (∀ name, OpenFile name ∉ effects run) as Hnone.
    { intros name Hin. rewrite Heff in Hin. by apply (Hnot name prints). }
    split; [intros name Hin | intros err Hin _]; by destruct (Hnone _ Hin).
  - split.
    + intros name Hin. rewrite Heff, app_assoc in Hin.
      apply elem_of_app in Hin as [Hin|Hin]; [by destruct (Hnot name prints)|].
      apply list_elem_of_singleton in Hin as [= ->]. split_and!; [done..|by exists r].
    + intros err _ Herr. by rewrite Hopen in Herr.
  - split.
    + intros name Hin. rewrite Heff, app_assoc in Hin.
      apply elem_of_app in Hin as [Hin|Hin]; [by destruct (Hnot name prints)|].
      apply elem_of_cons in Hin as [[= ->]|Hin]; [|by apply list_elem_of_singleton in Hin].
      split_and!; [done..|by exists r].
    + intros err' _ Herr. rewrite Hopen in Herr. injection Herr as <-.
      split; [done|]. rewrite Heff, !app_assoc.
      change [OpenFile (outputFile flags);
              Fatalf (Some ("[-] Could not create output file: " +:+ err))]
        with ([OpenFile (outputFile flags)]
              ++ [Fatalf (Some ("[-] Could not create output file: " +:+ err))]).
      by rewrite app_assoc, last_snoc.
Qed.
(** ** The consumer with constant formats *)

Lemma show_record_direct_line (nsName nsIP domain : string) (rr : RR) :
  show_record_direct nsName nsIP domain rr = [direct_line nsName nsIP domain rr].
Proof.
  unfold show_record_direct.
  destruct rr as [a|aaaa|target|ty text]; cbn [classify outputStr direct_line];
    unfold str; rewrite ?Sprintf_arrow; try reflexivity.
Qed.

Lemma show_result_direct_concat (mapped : gmap string string) (result : wrappedAnswer) :
  show_result_direct mapped result =
  concat (show_record_direct (default "" (mapped !! nsIP result)) (nsIP result)
            (domain_ result) <$> Answer (answer result)).
Proof.
  unfold show_result_direct. case_bool_decide as Hlen; [done|].
  destruct (Answer (answer result)); [done|]. simpl in Hlen. lia.
Qed.

(** X20: with the constant formats every record of the answer section gives
    one console line, in the order of the section, and the fields are
    printed as they are whatever bytes they contain: the arrow line in green
    for the three recognised types, and for any other type the yellow line
    followed by the [EXTRA] text for the record, which has no verb in the
    format. *)
Theorem direct_consumer_prints_fields_verbatim
  (mapped : gmap string string) (result : wrappedAnswer) :
  show_result_direct mapped result
  = direct_line (default "" (mapped !! nsIP result)) (nsIP result) (domain_ result)
      <$> Answer (answer result).
Proof.
  rewrite show_result_direct_concat.
  induction (Answer (answer result)) as [|rr records IH]; [done|].
  rewrite !fmap_cons. cbn [concat]. by rewrite show_record_direct_line, IH.
Qed.

(** X21: when the name, the address, the domain and the values of the records
    contain no percent sign, and every record is of a recognised type, the
    consumer that reuses the built line as a format prints on the console
    exactly what the consumer with constant formats prints. *)
Theorem consumers_agree_on_clean_fields
  (mapped : gmap string string) (fHandle : bool) (result : wrappedAnswer) :
  percent_free (default "" (mapped !! nsIP result)) →
  percent_free (nsIP result) → percent_free (domain_ result) →
  Forall plain_record (Answer (answer result)) →
  console_lines (show_result mapped fHandle result)
  = console_lines (show_result_direct mapped result).
Proof.
  intros Hname Hip Hdomain Hplain.
  rewrite show_result_concat, show_result_direct_concat.
  induction Hplain as [|rr records (value & Hvalue & Hfree) _ IH]; [done|].
  rewrite !fmap_cons. cbn [concat]. rewrite !console_lines_app, IH.
  rewrite show_record_direct_line.
  rewrite (show_record_plain fHandle _ _ _ rr value); try done.
  - rewrite console_lines_app. destruct rr; simplify_eq/=; by destruct fHandle.
  - destruct rr; simplify_eq/=; auto.
Qed.

(** ** The stored total *)

Lemma int32_range (z : Z) : - 2 ^ 31 ≤ int32 z < 2 ^ 31.
Proof. unfold int32. pose proof (Z.mod_pos_bound (z + 2 ^ 31) (2 ^ 32)). lia. Qed.

Lemma int32_small (z : Z) : - 2 ^ 31 ≤ z < 2 ^ 31 → int32 z = z.
Proof. intros H. unfold int32. rewrite Z.mod_small; lia. Qed.

Lemma int64_small (z : Z) : - 2 ^ 63 ≤ z < 2 ^ 63 → int64 z = z.
Proof. intros H. unfold int64. rewrite Z.mod_small; lia. Qed.

(** X22: the total stored for the reporter is the number of domains times the
    number of name servers exactly when that product is below 2^31; from
    there on the conversion to [int32] stores another number. *)
Theorem stored_total_exact_iff_fits
  (order domainsList : list string) (numWorkers : Z) (numDomains numNameservers : nat) :
  total (dinit order domainsList numWorkers (sampleSize numDomains numNameservers))
  = Z.of_nat numDomains * Z.of_nat numNameservers
  ↔ Z.of_nat numDomains * Z.of_nat numNameservers < 2 ^ 31.
Proof.
  simpl. unfold sampleSize. split.
  - intros <-. apply int32_range.
  - intros Hfit. rewrite int64_small by lia. apply int32_small. lia.
Qed.
(** ** The statements on start-up and on the consumer at concrete inputs *)

Lemma startup_lists_witness :
  ∃ eff nameservers domainsList,
    startup flags_list fs_read_only = (eff, Some (nameservers, domainsList))
    ∧ nameservers = ["ns1.example"]
    ∧ domainsList = ["a.test"; "b.test"]
    ∧ opened eff = ["ns.txt"; "domains.txt"].
Proof.
  destruct (startup flags_list fs_read_only) as [eff [[nameservers domainsList]|]]
    eqn:Hstart; [|by vm_compute in Hstart].
  exists eff, nameservers, domainsList.
  destruct (startup_lists _ _ _ _ _ Hstart) as (Hns & Hds & Hopened).
  split; [reflexivity|]. split; [exact Hns|]. split; [exact Hds | exact Hopened].
Defined.

Lemma domain_flag_ignored_with_list_witness :
  ∃ run d,
    main (with_domain "other.test" flags_list_one) fs_read_only sched_one
      ["203.0.113.5"] (sched_two_queries (respond 0 [])) = Some run
    ∧ main flags_list_one fs_read_only sched_one
        ["203.0.113.5"] (sched_two_queries (respond 0 [])) = Some run
    ∧ querying run = Some d
    ∧ issued d = [("a.test", "203.0.113.5:53"); ("b.test", "203.0.113.5:53")].
Proof.
  assert (∃ run d,
            main flags_list_one fs_read_only sched_one
              ["203.0.113.5"] (sched_two_queries (respond 0 [])) = Some run
            ∧ querying run = Some d
            ∧ issued d = [("a.test", "203.0.113.5:53"); ("b.test", "203.0.113.5:53")])
    as (run & d & Hmain & Hq & Hissued).
  { eexists _, _. split; [vm_compute; reflexivity|]. split; reflexivity. }
  exists run, d. split; [|by repeat split].
  rewrite (domain_flag_ignored_with_list "other.test" flags_list_one); [exact Hmain|].
  simpl. discriminate.
Defined.

Lemma fatal_error_ends_run_witness :
  ∃ run,
    main flags_no_worker (fs_with ["ns1.example"]) [] [] [] = Some run
    ∧ ((Forall (λ e, is_fatal e = false) (effects run) ∧ is_Some (resolution run))
       ∨ ∃ eff msg,
           effects run = eff ++ [Fatalf msg]
           ∧ Forall (λ e, is_fatal e = false) eff
           ∧ querying run = None).
Proof.
  destruct (main flags_no_worker (fs_with ["ns1.example"]) [] [] []) as [run|] eqn:Hmain;
    [|by vm_compute in Hmain].
  exists run. split; [reflexivity|]. exact (fatal_error_ends_run _ _ _ _ _ _ Hmain).
Defined.

Lemma quiet_mode_prints_nothing_witness :
  ∃ run,
    main flags_one (fs_with ["ns1.example"]) sched_one ["203.0.113.5"]
      (sched_query (respond 0 [dns_A "198.51.100.9"])) = Some run
    ∧ Forall (λ e, is_print e = false) (effects run).
Proof.
  destruct (main flags_one (fs_with ["ns1.example"]) sched_one ["203.0.113.5"]
              (sched_query (respond 0 [dns_A "198.51.100.9"]))) as [run|] eqn:Hmain;
    [|by vm_compute in Hmain].
  exists run. split; [reflexivity|].
  exact (quiet_mode_prints_nothing flags_one _ _ _ _ _ eq_refl Hmain).
Defined.

Lemma output_file_failure_is_fatal_witness :
  ∃ run,
    main flags_one fs_read_only sched_one [] [] = Some run
    ∧ querying run = None
    ∧ last (effects run)
      = Some (Fatalf (Some "[-] Could not create output file: open out.txt: permission denied")).
Proof.
  assert (∃ run,
            main flags_one fs_read_only sched_one [] [] = Some run
            ∧ effects run !! 1%nat = Some (OpenFile "out.txt")) as (run & Hmain & Hopen).
  { eexists. split; [vm_compute; reflexivity | reflexivity]. }
  exists run. split; [exact Hmain|].
  destruct (output_file_failure_is_fatal _ _ _ _ _ _ Hmain) as [_ Hfatal].
  apply (Hfatal "open out.txt: permission denied"); [|reflexivity].
  apply list_elem_of_lookup. by exists 1%nat.
Defined.

Lemma consumers_agree_on_clean_fields_witness :
  console_lines
    (show_result {["203.0.113.5" := "ns1.example"]} true
       {| nsIP := "203.0.113.5"; domain_ := "a.test";
          answer := {| Rcode := 0; Question := [];
                       Answer := [dns_CNAME "b.test."; dns_A "198.51.100.9"] |} |})
  = console_lines
      (show_result_direct {["203.0.113.5" := "ns1.example"]}
         {| nsIP := "203.0.113.5"; domain_ := "a.test";
            answer := {| Rcode := 0; Question := [];
                         Answer := [dns_CNAME "b.test."; dns_A "198.51.100.9"] |} |}).
Proof.
  apply consumers_agree_on_clean_fields; try reflexivity.
  repeat constructor; eexists; split; reflexivity.
Defined.
